(** * NES Staff Scorecard: the scoring engine

    A shallow embedding of [src/lib/scoring/rubric.ts] and
    [src/lib/scoring/engine.ts], and the properties of the rubric lookups,
    the three category scorers, the rubric resolver and the score aggregator.

    Conventions of the embedding.
    - A TypeScript [number] is the rational [Q] it denotes: the [===], [<=],
      [>=], [>] of the source are [Qeq_bool], [Qle_bool] and [Qlt_bool], and
      its [*], [+], [-] are [double_mul], [double_add], [double_sub], which
      round the exact result to the nearest double as IEEE 754 has it. NaN
      and the infinities are outside the model (a rubric or payload read from
      JSON holds neither).
    - A [Record<string, number>] and the [metrics] object of the rubric are
      finite maps [gmap string _]; reading an absent key gives [None], the
      [undefined] of the source.
    - The relational store is a record of tables; the three SQL statements of
      the engine are functions on it. The store is taken to answer: a query
      that fails aborts the run of the source before anything is written. *)

From Stdlib Require Import QArith Qround Qpower Qminmax Lqa ZArith List String Bool Lia.
From Stdlib Require Import OrdersEx DecimalString Ascii Floats.
From stdpp Require Import gmap strings.
Import ListNotations.

Local Open Scope string_scope.
Local Open Scope Q_scope.

(** Beside the scoring engine the development embeds the code around it:
    the role and area checks of [src/lib/auth/authorization.ts], the handler
    of [src/app/api/submissions/supervisor/route.ts], which stores a
    submission and calls the engine, and the figures of
    [src/app/api/dashboard/route.ts], which reads what the engine wrote. *)

(** ** Numbers *)

(** [x < y] on numbers, as a boolean. *)
Definition Qlt_bool (x y : Q) : bool := negb (Qle_bool y x).

(** [Math.max(x, y)]. *)
Definition Math_max (x y : Q) : Q := Qmax x y.

(** [Math.round(x)]: the integer closest to [x], the one closer to +infinity
    when two are equally close, which is [floor (x + 1/2)]. *)
Definition Math_round (x : Q) : Q := inject_Z (Qfloor (x + (1 # 2))).

(** ** Double-precision arithmetic

    The arithmetic of the source is that of IEEE 754 binary64: every product,
    sum and difference is the exact result rounded to the nearest double, to
    the one with the even significand when two are equally near. A number is
    held as the rational it denotes; a rational that is no double (0.4, say)
    stands for the decimal numeral of the source text or of a JSON document,
    which the parser rounds to the nearest double as well, so the operations
    round their operands before they compute. Overflow to an infinity (a
    magnitude of 2^1024 or more) and NaN are outside the model. *)

(** [2^e], for any integer [e]. *)
Definition pow2 (e : Z) : Q := 2 ^ e.

(** The exponent of the binade of a positive [x]: the [e] with
    [2^e <= x < 2^(e+1)]. The difference of the bit lengths of numerator and
    denominator is [e] or [e + 1]. *)
Definition log2_floor (x : Q) : Z :=
  let k := (Z.log2 (Qnum x) - Z.log2 (Z.pos (Qden x)))%Z in
  if Qle_bool (pow2 k) x then k else (k - 1)%Z.

(** The integer nearest to [x], the even one of two equally near. *)
Definition round_half_even (x : Q) : Z :=
  let f := Qfloor x in
  let r := x - inject_Z f in
  if Qlt_bool r (1 # 2) then f
  else if Qlt_bool (1 # 2) r then (f + 1)%Z
  else if Z.even f then f else (f + 1)%Z.

(** The double nearest to a positive [x]: a multiple of its last bit [2^e],
    where [e] leaves 53 bits to the significand and is at least -1074, the
    exponent of the subnormal doubles. The result is a fraction in lowest
    terms. *)
Definition last_bit (x : Q) : Z := Z.max (-1074) (log2_floor x - 52).

Definition to_double_pos (x : Q) : Q :=
  Qred (inject_Z (round_half_even (x / pow2 (last_bit x))) * pow2 (last_bit x)).

(** The double nearest to [x]. *)
Definition to_double (x : Q) : Q :=
  if Qeq_bool x 0 then 0
  else if Qlt_bool 0 x then to_double_pos x
  else - to_double_pos (- x).

(** [x * y], [x + y] and [x - y] on doubles. *)
Definition double_mul (x y : Q) : Q := to_double (to_double x * to_double y).
Definition double_add (x y : Q) : Q := to_double (to_double x + to_double y).
Definition double_sub (x y : Q) : Q := to_double (to_double x - to_double y).

(** The rational a binary64 float of the proof assistant denotes, in lowest
    terms (0 for an infinity and for NaN): its floats are the doubles of the
    source, and the worked cases check [to_double] against them. *)
Definition float_value (f : float) : Q :=
  match Prim2SF f with
  | SpecFloat.S754_finite s m e =>
      Qred ((if s then -1 else 1) * inject_Z (Z.pos m) * pow2 e)
  | _ => 0
  end.

(** * rubric.ts *)

Module Rubric.

(** ** Type definitions *)

Record ErrorBucket : Type := mkErrorBucket {
  min : Q;
  max : Q;
  deduction : Q
}.

Record AdminRules : Type := mkAdminRules {
  metrics : gmap string (list ErrorBucket)
}.

Record RecruiterRules : Type := mkRecruiterRules {
  overdue_training_penalty_per : Q;
  eda_penalty : gmap string Q;
  retraining_penalty : gmap string Q
}.

(** The object [weights] of the rubric; its fields [admin], [supervisor] and
    [recruiter] carry the prefix [w_], the bare names being those of
    [DeductionsBreakdown]. *)
Record Weights : Type := mkWeights {
  w_admin : Q;
  w_supervisor : Q;
  w_recruiter : Q
}.

Record RubricV1 : Type := mkRubricV1 {
  weights : Weights;
  supervisor_rating_map : gmap string Q;
  supervisor_metrics : list string;
  admin_rules : AdminRules;
  recruiter_rules : RecruiterRules
}.

(** ** Deduction tracking *)

(** The [number | string] of [Deduction.value]. *)
Inductive DeductionValue : Type :=
  | VNumber (n : Q)
  | VString (s : string).

Record Deduction : Type := mkDeduction {
  metric : string;
  value : DeductionValue;
  deduction_points : Q;
  rule_id : string
}.

Record DeductionsBreakdown : Type := mkDeductionsBreakdown {
  admin : list Deduction;
  supervisor : list Deduction;
  recruiter : list Deduction
}.

(** ** Submission payloads *)

Record SupervisorSubmissionPayload : Type := mkSupervisorSubmissionPayload {
  attitude : string;
  reliability : string;
  proactivity : string;
  flexibility : string;
  individual_interaction : string
}.

(** The optional [individual_interaction] of the admin payload is
    [admin_individual_interaction], the bare name being the field of the
    supervisor payload. *)
Record AdminSubmissionPayload : Type := mkAdminSubmissionPayload {
  isp_goal_errors : Q;
  isp_behavior_errors : Q;
  mar_errors : Q;
  attendance_tardies_callouts : Q;
  attendance_ncns : Q;
  admin_individual_interaction : option string
}.

Record RecruiterSubmissionPayload : Type := mkRecruiterSubmissionPayload {
  overdue_trainings : Q;
  retrainings : Q;
  edas_past_6_months : Q
}.

(** ** Default rubric *)

Definition default_buckets : list ErrorBucket :=
  [ mkErrorBucket 1 2 5; mkErrorBucket 3 5 10; mkErrorBucket 6 999 20 ].

Definition DEFAULT_RUBRIC_V1 : RubricV1 := {|
  weights := {| w_admin := 0.4; w_supervisor := 0.4; w_recruiter := 0.2 |};
  supervisor_rating_map :=
    list_to_map
      [ ("Outstanding", 0); ("Exceeds Expectations", 3);
        ("Meets Expectations", 8); ("Needs Improvement", 13);
        ("Unsatisfactory", 20) ];
  supervisor_metrics :=
    [ "attitude"; "reliability"; "proactivity"; "flexibility";
      "individual_interaction" ];
  admin_rules := {|
    metrics :=
      list_to_map
        [ ("isp_goal_errors", default_buckets);
          ("isp_behavior_errors", default_buckets);
          ("mar_errors", default_buckets);
          ("attendance_tardies_callouts", default_buckets);
          ("attendance_ncns", default_buckets) ]
  |};
  recruiter_rules := {|
    overdue_training_penalty_per := 15;
    eda_penalty := list_to_map [ ("1", 40); ("2+", 80) ];
    retraining_penalty := list_to_map [ ("1", 5); ("2+", 10) ]
  |}
|}.

(** ** Utility functions *)

(** [count >= bucket.min && count <= bucket.max]. *)
Definition in_bucket (count : Q) (bucket : ErrorBucket) : bool :=
  Qle_bool (min bucket) count && Qle_bool count (max bucket).

(** The [for (const bucket of buckets)] loop: the deduction of the first
    bucket holding [count], [None] when the loop falls through. *)
Fixpoint scan_buckets (count : Q) (buckets : list ErrorBucket) : option Q :=
  match buckets with
  | [] => None
  | bucket :: rest =>
      if in_bucket count bucket then Some (deduction bucket)
      else scan_buckets count rest
  end.

Definition findDeductionForCount (count : Q) (buckets : list ErrorBucket) : Q :=
  if Qeq_bool count 0 then 0
  else
    match scan_buckets count buckets with
    | Some d => d
    | None =>
        (* [buckets.length > 0 && count > buckets[buckets.length - 1].max] *)
        match last buckets with
        | Some lb => if Qlt_bool (max lb) count then deduction lb else 0
        | None => 0
        end
    end.

(** [tiers[key] !== undefined]. *)
Definition defined (o : option Q) : bool :=
  match o with Some _ => true | None => false end.

(** [return tiers[key]], reached only where the key is defined. *)
Definition findTieredPenalty (count : Q) (tiers : gmap string Q) : Q :=
  if Qeq_bool count 0 then 0
  else if Qeq_bool count 1 && defined (tiers !! "1") then default 0 (tiers !! "1")
  else if Qle_bool 2 count && defined (tiers !! "2+") then default 0 (tiers !! "2+")
  else 0.

End Rubric.

(** * engine.ts *)

Module Engine.
Import Rubric.

(** ** Types *)

(** A row of [SELECT rubric_version, rubric_json FROM rubric_versions]. *)
Record RubricVersionRow : Type := mkRubricVersionRow {
  rubric_version : string;
  rubric_json : RubricV1
}.

(** A row of [SELECT role, payload_json FROM submissions_raw]. The engine
    casts [payload_json] to the payload type of [role] without a check, so a
    row is the payload tagged by its role. *)
Inductive SubmissionRow : Type :=
  | AdminSubmission (payload_json : AdminSubmissionPayload)
  | SupervisorSubmission (payload_json : SupervisorSubmissionPayload)
  | RecruiterSubmission (payload_json : RecruiterSubmissionPayload).

Record ComputedScore : Type := mkComputedScore {
  adminScore : option Q;
  supervisorScore : option Q;
  recruiterScore : option Q;
  finalScore : option Q;
  deductions : DeductionsBreakdown;
  rubricVersion : string
}.

(** The [{ score, deductions }] object a category scorer returns. *)
Record CategoryResult : Type := mkCategoryResult {
  score : Q;
  result_deductions : list Deduction
}.

(** ** The store *)

(** The columns of [rubric_versions] the engine reads. *)
Record RubricVersionsRecord : Type := mkRubricVersionsRecord {
  rv_rubric_version : string;
  rv_effective_month : string;
  rv_rubric_json : RubricV1
}.

(** The columns of [submissions_raw] the engine reads. *)
Record SubmissionsRawRecord : Type := mkSubmissionsRawRecord {
  sr_month : string;
  sr_employee_id : string;
  sr_submission : SubmissionRow
}.

(** The document [JSON.stringify] writes, before numbers and strings are
    spelled out as characters: objects keep their keys in insertion order. *)
#[warnings="-register-all"]
Inductive JSON : Type :=
  | JNumber (n : Q)
  | JString (s : string)
  | JArray (items : list JSON)
  | JObject (members : list (string * JSON)).

(** A row of [scores_computed], whose key is [(month, employee_id)]. The
    row holds the numbers the engine passes to the INSERT. *)
Record ScoresComputedRecord : Type := mkScoresComputedRecord {
  sc_area : string;
  sc_rubric_version : string;
  sc_admin_score : option Q;
  sc_supervisor_score : option Q;
  sc_recruiter_score : option Q;
  sc_final_score : option Q;
  sc_deductions_json : JSON;
  sc_computed_at : Z
}.

Record Store : Type := mkStore {
  rubric_versions : list RubricVersionsRecord;
  submissions_raw : list SubmissionsRawRecord;
  scores_computed : gmap (string * string) ScoresComputedRecord
}.

(** ** Rubric selection *)

(** [ORDER BY effective_month DESC]: insertion into a descending list. The
    column is TEXT and holds months written YYYY-MM; it is compared as a
    string, character code by character code. Where several rows have
    the same month the database may put any of them first; the model puts
    first the one met first in the table. *)
Fixpoint insert_desc (r : RubricVersionsRecord) (rows : list RubricVersionsRecord)
  : list RubricVersionsRecord :=
  match rows with
  | [] => [r]
  | r' :: rest =>
      if String.leb (rv_effective_month r') (rv_effective_month r)
      then r :: r' :: rest
      else r' :: insert_desc r rest
  end.

Definition order_by_effective_month_desc (rows : list RubricVersionsRecord)
  : list RubricVersionsRecord :=
  List.fold_right insert_desc [] rows.

(** [SELECT rubric_version, rubric_json FROM rubric_versions
     WHERE effective_month <= $1 ORDER BY effective_month DESC LIMIT 1]. *)
Definition select_rubric_versions (month : string) (db : Store)
  : list RubricVersionRow :=
  List.map (fun r => mkRubricVersionRow (rv_rubric_version r) (rv_rubric_json r))
    (List.firstn 1
       (order_by_effective_month_desc
          (List.filter (fun r => String.leb (rv_effective_month r) month)
             (rubric_versions db)))).

Definition getRubricForMonth (month : string) (db : Store) : string * RubricV1 :=
  match select_rubric_versions month db with
  | [] => ("default", DEFAULT_RUBRIC_V1)
  | row :: _ => (rubric_version row, rubric_json row)
  end.

(** ** Category score calculations *)

(** The two accumulators of a scorer, [deductions] and [totalDeduction]. *)
Definition Acc : Type := (list Deduction * Q)%type.

(** [deductions.push(d); totalDeduction += d.deduction_points]. *)
Definition push (acc : Acc) (d : Deduction) : Acc :=
  ((fst acc ++ [d])%list, double_add (snd acc) (deduction_points d)).

(** [{ score: Math.max(0, 100 - totalDeduction), deductions }]. *)
Definition finish (acc : Acc) : CategoryResult :=
  {| score := Math_max 0 (double_sub 100 (snd acc)); result_deductions := fst acc |}.

(** The members of the tuple [metrics] of [calculateSupervisorScore]. *)
Inductive SupervisorMetric : Type :=
  | Attitude | Reliability | Proactivity | Flexibility | IndividualInteraction.

Definition supervisor_metric_name (m : SupervisorMetric) : string :=
  match m with
  | Attitude => "attitude"
  | Reliability => "reliability"
  | Proactivity => "proactivity"
  | Flexibility => "flexibility"
  | IndividualInteraction => "individual_interaction"
  end.

Definition supervisor_metric_list : list SupervisorMetric :=
  [Attitude; Reliability; Proactivity; Flexibility; IndividualInteraction].

(** [payload[metric]]. *)
Definition supervisor_rating (payload : SupervisorSubmissionPayload)
  (m : SupervisorMetric) : string :=
  match m with
  | Attitude => attitude payload
  | Reliability => reliability payload
  | Proactivity => proactivity payload
  | Flexibility => flexibility payload
  | IndividualInteraction => individual_interaction payload
  end.

(** [rubric.supervisor_rating_map[rating] ?? 0]. A label that names an
    inherited property of the object ("constructor", "toString") reads a
    value that is no number and that [> 0] rejects: it scores as an absent
    label does. *)
Definition supervisor_deduction (payload : SupervisorSubmissionPayload)
  (rubric : RubricV1) (m : SupervisorMetric) : Q :=
  default 0 (supervisor_rating_map rubric !! supervisor_rating payload m).

Definition supervisor_entry (payload : SupervisorSubmissionPayload)
  (rubric : RubricV1) (m : SupervisorMetric) : Deduction :=
  {| metric := supervisor_metric_name m;
     value := VString (supervisor_rating payload m);
     deduction_points := supervisor_deduction payload rubric m;
     rule_id := "supervisor_rating_" ++ supervisor_metric_name m |}.

(** The body of [for (const metric of metrics)]. *)
Definition supervisor_step (payload : SupervisorSubmissionPayload)
  (rubric : RubricV1) (acc : Acc) (m : SupervisorMetric) : Acc :=
  if Qlt_bool 0 (supervisor_deduction payload rubric m)
  then push acc (supervisor_entry payload rubric m)
  else acc.

(** The scorer run over a list of metrics. *)
Definition supervisor_score_over (ms : list SupervisorMetric)
  (payload : SupervisorSubmissionPayload) (rubric : RubricV1) : CategoryResult :=
  finish (List.fold_left (supervisor_step payload rubric) ms ([], 0)).

Definition calculateSupervisorScore (payload : SupervisorSubmissionPayload)
  (rubric : RubricV1) : CategoryResult :=
  supervisor_score_over supervisor_metric_list payload rubric.

(** [metricMap]: [Object.entries] lists its keys in insertion order. *)
Definition metricMap (payload : AdminSubmissionPayload) : list (string * Q) :=
  [ ("isp_goal_errors", isp_goal_errors payload);
    ("isp_behavior_errors", isp_behavior_errors payload);
    ("mar_errors", mar_errors payload);
    ("attendance_tardies_callouts", attendance_tardies_callouts payload);
    ("attendance_ncns", attendance_ncns payload) ].

Definition admin_entry (metric : string) (count deductionPoints : Q) : Deduction :=
  {| metric := metric;
     value := VNumber count;
     deduction_points := deductionPoints;
     rule_id := "admin_" ++ metric ++ "_bucket" |}.

(** The body of [for (const [metric, count] of Object.entries(metricMap))]. *)
Definition admin_step (rubric : RubricV1) (acc : Acc) (entry : string * Q) : Acc :=
  let '(metric, count) := entry in
  match metrics (admin_rules rubric) !! metric with
  | None => acc (* [if (!buckets) continue] *)
  | Some buckets =>
      let deductionPoints := findDeductionForCount count buckets in
      if Qlt_bool 0 deductionPoints
      then push acc (admin_entry metric count deductionPoints)
      else acc
  end.

(** The scorer run over a list of [metric, count] entries. *)
Definition admin_score_over (entries : list (string * Q)) (rubric : RubricV1)
  : CategoryResult :=
  finish (List.fold_left (admin_step rubric) entries ([], 0)).

Definition calculateAdminScore (payload : AdminSubmissionPayload)
  (rubric : RubricV1) : CategoryResult :=
  admin_score_over (metricMap payload) rubric.

Definition overdue_entry (payload : RecruiterSubmissionPayload) (rubric : RubricV1)
  : Deduction :=
  {| metric := "overdue_trainings";
     value := VNumber (overdue_trainings payload);
     deduction_points :=
       double_mul (overdue_trainings payload)
         (overdue_training_penalty_per (recruiter_rules rubric));
     rule_id := "recruiter_overdue_trainings" |}.

Definition eda_entry (payload : RecruiterSubmissionPayload) (rubric : RubricV1)
  : Deduction :=
  {| metric := "edas_past_6_months";
     value := VNumber (edas_past_6_months payload);
     deduction_points :=
       findTieredPenalty (edas_past_6_months payload)
         (eda_penalty (recruiter_rules rubric));
     rule_id := "recruiter_eda_penalty" |}.

Definition retraining_entry (payload : RecruiterSubmissionPayload)
  (rubric : RubricV1) : Deduction :=
  {| metric := "retrainings";
     value := VNumber (retrainings payload);
     deduction_points :=
       findTieredPenalty (retrainings payload)
         (retraining_penalty (recruiter_rules rubric));
     rule_id := "recruiter_retraining_penalty" |}.

Definition calculateRecruiterScore (payload : RecruiterSubmissionPayload)
  (rubric : RubricV1) : CategoryResult :=
  let acc0 : Acc := ([], 0) in
  let acc1 :=
    if Qlt_bool 0 (overdue_trainings payload)
    then push acc0 (overdue_entry payload rubric) else acc0 in
  let acc2 :=
    if Qlt_bool 0 (edas_past_6_months payload)
    then push acc1 (eda_entry payload rubric) else acc1 in
  let acc3 :=
    if Qlt_bool 0 (retrainings payload)
    then push acc2 (retraining_entry payload rubric) else acc2 in
  finish acc3.

(** ** Main scoring function *)

(** [SELECT role, payload_json FROM submissions_raw
     WHERE month = $1 AND employee_id = $2]. *)
Definition select_submissions (month employeeId : string) (db : Store)
  : list SubmissionRow :=
  List.map sr_submission
    (List.filter
       (fun r => String.eqb (sr_month r) month
                 && String.eqb (sr_employee_id r) employeeId)
       (submissions_raw db)).

(** The variables the submission loop assigns. *)
Record Scores : Type := mkScores {
  s_adminScore : option Q;
  s_supervisorScore : option Q;
  s_recruiterScore : option Q;
  s_deductions : DeductionsBreakdown
}.

Definition no_scores : Scores :=
  {| s_adminScore := None; s_supervisorScore := None; s_recruiterScore := None;
     s_deductions := {| admin := []; supervisor := []; recruiter := [] |} |}.

(** The [switch (submission.role)] of the submission loop. *)
Definition score_submission (rubric : RubricV1) (st : Scores)
  (submission : SubmissionRow) : Scores :=
  match submission with
  | AdminSubmission payload =>
      let result := calculateAdminScore payload rubric in
      {| s_adminScore := Some (score result);
         s_supervisorScore := s_supervisorScore st;
         s_recruiterScore := s_recruiterScore st;
         s_deductions :=
           {| admin := result_deductions result;
              supervisor := supervisor (s_deductions st);
              recruiter := recruiter (s_deductions st) |} |}
  | SupervisorSubmission payload =>
      let result := calculateSupervisorScore payload rubric in
      {| s_adminScore := s_adminScore st;
         s_supervisorScore := Some (score result);
         s_recruiterScore := s_recruiterScore st;
         s_deductions :=
           {| admin := admin (s_deductions st);
              supervisor := result_deductions result;
              recruiter := recruiter (s_deductions st) |} |}
  | RecruiterSubmission payload =>
      let result := calculateRecruiterScore payload rubric in
      {| s_adminScore := s_adminScore st;
         s_supervisorScore := s_supervisorScore st;
         s_recruiterScore := Some (score result);
         s_deductions :=
           {| admin := admin (s_deductions st);
              supervisor := supervisor (s_deductions st);
              recruiter := result_deductions result |} |}
  end.

(** The final score, set only if all three categories are present. *)
Definition final_score (rubric : RubricV1) (st : Scores) : option Q :=
  match s_adminScore st, s_supervisorScore st, s_recruiterScore st with
  | Some adminScore, Some supervisorScore, Some recruiterScore =>
      Some (Math_round
              (double_add
                 (double_add
                    (double_mul adminScore (w_admin (weights rubric)))
                    (double_mul supervisorScore (w_supervisor (weights rubric))))
                 (double_mul recruiterScore (w_recruiter (weights rubric)))))
  | _, _, _ => None
  end.

Definition deduction_to_json (d : Deduction) : JSON :=
  JObject
    [ ("metric", JString (metric d));
      ("value", match value d with VNumber n => JNumber n | VString s => JString s end);
      ("deduction_points", JNumber (deduction_points d));
      ("rule_id", JString (rule_id d)) ].

(** [JSON.stringify(deductions)]. *)
Definition JSON_stringify (b : DeductionsBreakdown) : JSON :=
  JObject
    [ ("admin", JArray (List.map deduction_to_json (admin b)));
      ("supervisor", JArray (List.map deduction_to_json (supervisor b)));
      ("recruiter", JArray (List.map deduction_to_json (recruiter b))) ].

(** [INSERT INTO scores_computed ... ON CONFLICT (month, employee_id) DO UPDATE
    SET ...]: the update keeps the [area] of the row in place and replaces
    every other column. *)
Definition upsert_scores_computed (now : Z) (month employeeId area : string)
  (r : ComputedScore) (db : Store) : Store :=
  let kept_area :=
    match scores_computed db !! (month, employeeId) with
    | Some old => sc_area old
    | None => area
    end in
  {| rubric_versions := rubric_versions db;
     submissions_raw := submissions_raw db;
     scores_computed :=
       <[ (month, employeeId) :=
            {| sc_area := kept_area;
               sc_rubric_version := rubricVersion r;
               sc_admin_score := adminScore r;
               sc_supervisor_score := supervisorScore r;
               sc_recruiter_score := recruiterScore r;
               sc_final_score := finalScore r;
               sc_deductions_json := JSON_stringify (deductions r);
               sc_computed_at := now |} ]> (scores_computed db) |}.

(** A number the database takes for an INTEGER column. The driver sends a
    number as its decimal text, and the database rejects the text of a
    number with a fraction and of one outside the 32-bit range. *)
Definition is_int4 (q : Q) : bool :=
  Qeq_bool q (inject_Z (Qfloor q))
  && Z.leb (-2147483648) (Qfloor q) && Z.leb (Qfloor q) 2147483647.

(** The first of the parameters [$5] to [$8] of the INSERT that the INTEGER
    columns of [scores_computed] reject; a null is taken. Where there is
    one the INSERT throws and writes nothing. *)
Definition rejected_score (r : ComputedScore) : option Q :=
  List.find (fun q => negb (is_int4 q))
    (omap id [adminScore r; supervisorScore r; recruiterScore r; finalScore r]).

(** [computeScoresForEmployee], run at time [now] on the store [db]: the
    result and the store after the upsert, for a run whose INSERT the
    database takes. *)
Definition computeScoresForEmployee (now : Z) (month employeeId area : string)
  (db : Store) : ComputedScore * Store :=
  let '(rubricVersion, rubric) := getRubricForMonth month db in
  let st :=
    List.fold_left (score_submission rubric)
      (select_submissions month employeeId db) no_scores in
  let result :=
    {| adminScore := s_adminScore st;
       supervisorScore := s_supervisorScore st;
       recruiterScore := s_recruiterScore st;
       finalScore := final_score rubric st;
       deductions := s_deductions st;
       rubricVersion := rubricVersion |} in
  (result, upsert_scores_computed now month employeeId area result db).

End Engine.

(** * auth/authorization.ts *)

Module Authorization.

(** ** session.ts: the session the checks are given *)

(** An element of [UserSession.roles]: the fields [role] and [area]. *)
Record RoleGrant : Type := mkRoleGrant {
  grant_role : string;
  grant_area : string
}.

Inductive AuthProvider : Type := Google | MagicLink.

Record UserSession : Type := mkUserSession {
  userId : string;
  email : string;
  name : option string;
  authProvider : AuthProvider;
  roles : list RoleGrant
}.

(** ** Role hierarchy *)

Definition GLOBAL_ROLES : list string := [ "super_admin"; "exec" ].

(** ** Authorization checks *)

(** The truth value of an optional string argument: [undefined] and the
    empty string are falsy. *)
Definition truthy (s : option string) : bool :=
  match s with
  | Some s' => negb (String.eqb s' "")
  | None => false
  end.

(** The callback of [session.roles.some] in [hasRole]. *)
Definition grants (role : string) (area : option string) (r : RoleGrant) : bool :=
  if negb (String.eqb (grant_role r) role) then false
  else if String.eqb (grant_area r) "global" then true
  else if truthy area && negb (String.eqb (grant_area r) (default "" area)) then false
  else true.

Definition hasRole (session : UserSession) (role : string) (area : option string)
  : bool :=
  List.existsb (grants role area) (roles session).

Definition hasAnyRole (session : UserSession) (wanted : list string)
  (area : option string) : bool :=
  List.existsb (fun role => hasRole session role area) wanted.

Definition isSuperAdmin (session : UserSession) : bool :=
  hasRole session "super_admin" None.

Definition hasGlobalAccess (session : UserSession) : bool :=
  let hasGlobalRole :=
    List.existsb
      (fun role =>
         List.existsb (fun r => String.eqb (grant_role r) role) (roles session))
      GLOBAL_ROLES in
  let hasGlobalAssignment :=
    List.existsb (fun r => String.eqb (grant_area r) "global") (roles session) in
  hasGlobalRole || hasGlobalAssignment.

(** [areas.add(x)] on a [Set<string>], which keeps its elements in the order
    they were first added. *)
Definition set_add (areas : list string) (x : string) : list string :=
  if List.existsb (String.eqb x) areas then areas else (areas ++ [x])%list.

Definition getUserAreas (session : UserSession) : list string :=
  if hasGlobalAccess session then [ "global" ]
  else
    List.fold_left
      (fun areas r =>
         if negb (String.eqb (grant_area r) "global")
         then set_add areas (grant_area r) else areas)
      (roles session) [].

Definition canAccessArea (session : UserSession) (area : string) : bool :=
  if hasGlobalAccess session then true
  else List.existsb (fun r => String.eqb (grant_area r) area) (roles session).

(** The template literal [$${i + 1}]. *)
Definition placeholder (i : nat) : string :=
  "$" ++ NilZero.string_of_uint (Nat.to_uint (i + 1)).

(** [buildAreaFilter]: [None] is the [null] of the source, the pair is
    [{ clause, params }]; the caller passes [areaColumn], 'area' where the
    source leaves it out. *)
Definition buildAreaFilter (session : UserSession) (areaColumn : string)
  : option (string * list string) :=
  if hasGlobalAccess session then None
  else
    let areas := getUserAreas session in
    if Nat.eqb (List.length areas) 0 then Some ("1 = 0", [])
    else
      let placeholders :=
        String.concat ", " (List.map placeholder (List.seq 0 (List.length areas))) in
      Some (areaColumn ++ " IN (" ++ placeholders ++ ")", areas).

(** ** Role-specific checks *)

Definition canUploadRoster (session : UserSession) (area : option string) : bool :=
  hasAnyRole session [ "super_admin"; "exec"; "director"; "admin" ] area.

Definition canManageAssignments (session : UserSession) (area : option string) : bool :=
  hasAnyRole session [ "super_admin"; "exec"; "director"; "admin" ] area.

Definition canSubmitAdmin (session : UserSession) (area : option string) : bool :=
  hasAnyRole session [ "super_admin"; "director"; "admin" ] area.

Definition canSubmitSupervisor (session : UserSession) : bool :=
  hasAnyRole session [ "super_admin"; "director"; "admin"; "house_manager" ] None.

Definition canSubmitRecruiter (session : UserSession) (area : option string) : bool :=
  hasAnyRole session [ "super_admin"; "recruiter" ] area.

Definition canViewDashboard (session : UserSession) (area : option string) : bool :=
  hasAnyRole session [ "super_admin"; "exec"; "director"; "admin"; "recruiter" ] area.

End Authorization.

(** * app/api/dashboard/route.ts

    The columns the dashboard query computes for one roster row, and the
    figures the handler derives from the rows it gets back. The roster table
    and the area clauses of the query, which choose the rows and their order,
    and the per-area breakdown are not modelled. *)

Module Dashboard.
Import Rubric Engine.

Record StaffRow : Type := mkStaffRow {
  employee_id : string;
  employee_name : string;
  position : string;
  area : string;
  admin_score : option Q;
  supervisor_score : option Q;
  recruiter_score : option Q;
  final_score : option Q;
  has_admin : bool;
  has_supervisor : bool;
  has_recruiter : bool
}.

(** [sr.role = 'admin'], and likewise for the other two roles. *)
Definition is_admin (s : SubmissionRow) : bool :=
  match s with AdminSubmission _ => true | _ => false end.

Definition is_supervisor (s : SubmissionRow) : bool :=
  match s with SupervisorSubmission _ => true | _ => false end.

Definition is_recruiter (s : SubmissionRow) : bool :=
  match s with RecruiterSubmission _ => true | _ => false end.

(** [(SELECT COUNT( * ) > 0 FROM submissions_raw sr WHERE sr.month = r.month
     AND sr.employee_id = r.employee_id AND sr.role = ...)]. *)
Definition has_submission (is_role : SubmissionRow -> bool)
  (month employee_id : string) (db : Store) : bool :=
  Nat.ltb 0
    (List.length
       (List.filter
          (fun sr => String.eqb (sr_month sr) month
                     && String.eqb (sr_employee_id sr) employee_id
                     && is_role (sr_submission sr))
          (submissions_raw db))).


(** [staff.filter((s) => s.col !== null).map((s) => s.col!)]. *)
Definition non_null (col : StaffRow -> option Q) (staff : list StaffRow) : list Q :=
  List.map (fun s => default 0 (col s))
    (List.filter (fun s => match col s with Some _ => true | None => false end) staff).

(** [avg]: null for an empty array, else the rounded mean. *)
Definition avg (arr : list Q) : option Q :=
  if Nat.eqb (List.length arr) 0 then None
  else Some (Math_round
               (List.fold_left Qplus arr 0
                / inject_Z (Z.of_nat (List.length arr)))).

(** [totalStaff ? Math.round((completed / totalStaff) * 100) : 0]. *)
Definition percentage (completed totalStaff : nat) : Q :=
  if Nat.eqb totalStaff 0 then 0
  else Math_round
         (inject_Z (Z.of_nat completed) / inject_Z (Z.of_nat totalStaff) * 100).

Record CompletionRate : Type := mkCompletionRate {
  completed : nat;
  total : nat;
  rate_percentage : Q
}.

Definition completion_rate (done : StaffRow -> bool) (staff : list StaffRow)
  : CompletionRate :=
  let totalStaff := List.length staff in
  let completed := List.length (List.filter done staff) in
  {| completed := completed; total := totalStaff;
     rate_percentage := percentage completed totalStaff |}.

(** [s.final_score !== null]. *)
Definition has_final (s : StaffRow) : bool :=
  match final_score s with Some _ => true | None => false end.

(** The object [summary] of the response. *)
Record Summary : Type := mkSummary {
  totalStaff : nat;
  rate_admin : CompletionRate;
  rate_supervisor : CompletionRate;
  rate_recruiter : CompletionRate;
  rate_all : CompletionRate;
  avg_admin : option Q;
  avg_supervisor : option Q;
  avg_recruiter : option Q;
  avg_overall : option Q
}.

Definition summary (staff : list StaffRow) : Summary :=
  {| totalStaff := List.length staff;
     rate_admin := completion_rate has_admin staff;
     rate_supervisor := completion_rate has_supervisor staff;
     rate_recruiter := completion_rate has_recruiter staff;
     rate_all := completion_rate has_final staff;
     avg_admin := avg (non_null admin_score staff);
     avg_supervisor := avg (non_null supervisor_score staff);
     avg_recruiter := avg (non_null recruiter_score staff);
     avg_overall := avg (non_null final_score staff) |}.


End Dashboard.

(** * app/api/submissions/supervisor/route.ts

    The POST handler, as a function of the session found by [requireSession]
    ([None] when it throws), the request body, the time of the score
    computation and the store. *)

Module SupervisorRoute.
Import Rubric Engine.

(** ** The tables the handler touches *)

(** The columns of [roster_monthly] the handler reads. *)
Record RosterMonthlyRecord : Type := mkRosterMonthlyRecord {
  rm_month : string;
  rm_employee_id : string;
  rm_area : string;
  rm_is_active : bool
}.

(** The values the CHECK constraint allows in [status]. *)
Inductive AssignmentStatus : Type := Assigned | Completed.

(** The columns of [supervisor_assignments] the handler reads and writes;
    the key of a row is [(month, employee_id)]. *)
Record SupervisorAssignmentsRecord : Type := mkSupervisorAssignmentsRecord {
  sa_evaluator_email : string;
  sa_status : AssignmentStatus
}.

Record AppStore : Type := mkAppStore {
  scoring : Store;
  roster_monthly : list RosterMonthlyRecord;
  supervisor_assignments : gmap (string * string) SupervisorAssignmentsRecord
}.

(** ** Validation *)

Definition supervisorRatings : list string :=
  [ "Outstanding"; "Exceeds Expectations"; "Meets Expectations";
    "Needs Improvement"; "Unsatisfactory" ].

Record Body : Type := mkBody {
  body_month : string;
  body_employeeId : string;
  body_ratings : SupervisorSubmissionPayload
}.

(** [\d]: one of the characters 0 to 9. *)
Definition is_digit (c : ascii) : bool :=
  Nat.leb 48 (nat_of_ascii c) && Nat.leb (nat_of_ascii c) 57.

(** [/^\d{4}-\d{2}$/]. *)
Definition month_format (s : string) : bool :=
  match list_ascii_of_string s with
  | [ y1; y2; y3; y4; dash; m1; m2 ] =>
      is_digit y1 && is_digit y2 && is_digit y3 && is_digit y4
      && Ascii.eqb dash "-" && is_digit m1 && is_digit m2
  | _ => false
  end.

(** [z.enum(supervisorRatings)]. *)
Definition is_rating (s : string) : bool :=
  List.existsb (String.eqb s) supervisorRatings.

(** The message of a response: a text of the handler or of an error it
    caught, the default text of the validation library for a value outside
    an enum, or a text of the database: the one that names a value an
    INTEGER column rejects, and the one that names a broken foreign key. *)
Inductive ErrorMessage : Type :=
  | Message (text : string)
  | InvalidEnumMessage
  | InvalidIntegerMessage (value : Q)
  | ForeignKeyMessage.

(** What [request.json()] and the shape of the schema make of the body of a
    request: [request.json()] throws a SyntaxError with a message; or the
    JSON is no object with strings in the seven fields of the schema, which
    [submissionSchema.parse] rejects with a first issue; or it is one. *)
Inductive RequestBody : Type :=
  | NotJSON (message : string)
  | Misshapen (issue : string)
  | Shaped (body : Body).

(** [submissionSchema.parse(body)]: the body, or the message of the first
    issue, the fields being checked in the order of the schema. *)
Definition parse (body : Body) : ErrorMessage + Body :=
  if negb (month_format (body_month body))
  then inl (Message "Month must be in YYYY-MM format")
  else if Nat.ltb (String.length (body_employeeId body)) 1
  then inl (Message "Employee ID is required")
  else if negb (is_rating (attitude (body_ratings body))
                && is_rating (reliability (body_ratings body))
                && is_rating (proactivity (body_ratings body))
                && is_rating (flexibility (body_ratings body))
                && is_rating (individual_interaction (body_ratings body)))
  then inl InvalidEnumMessage
  else inr body.

(** ** Route handler *)

Inductive Response : Type :=
  | Success (month employeeId : string) (supervisorScore finalScore : option Q)
  | Failure (status : nat) (error : ErrorMessage).

(** [message.includes(part)]. *)
Definition includes (message part : string) : bool :=
  match String.index 0 part message with
  | Some _ => true
  | None => false
  end.

(** The message of the error the database raises when the INSERT breaks
    UNIQUE (month, employee_id, role); the full message goes on with the
    name of the constraint. *)
Definition unique_violation : string :=
  "duplicate key value violates unique constraint".

(** The [catch] block, for an [Error] with the given message. *)
Definition catch (message : string) : Response :=
  if String.eqb message "Unauthorized"
  then Failure 401 (Message "Unauthorized")
  else if includes message "unique constraint" || includes message "duplicate"
  then Failure 409 (Message "Supervisor evaluation already submitted for this employee")
  else Failure 400 (Message message).

(** [sr.month = $1 AND sr.employee_id = $2 AND role = 'supervisor']: a row
    that the UNIQUE constraint sets against the row to insert. *)
Definition same_supervisor_row (month employeeId : string)
  (sr : SubmissionsRawRecord) : bool :=
  String.eqb (sr_month sr) month && String.eqb (sr_employee_id sr) employeeId
  && match sr_submission sr with SupervisorSubmission _ => true | _ => false end.

Section Handler.

(** [String.prototype.toLowerCase]. *)
Variable toLowerCase : string -> string.

(** The function run by [withTransaction]: the message of the error it
    throws, after which the transaction is rolled back, or the area it
    returns and the store it commits. *)
Definition transaction (session : Authorization.UserSession)
  (month employeeId : string) (ratings : SupervisorSubmissionPayload)
  (st : AppStore) : string + (string * AppStore) :=
  match
    List.find
      (fun r => String.eqb (rm_month r) month
                && String.eqb (rm_employee_id r) employeeId
                && rm_is_active r)
      (roster_monthly st)
  with
  | None => inl "Employee not found in roster for this month"
  | Some roster =>
      let area := rm_area roster in
      match supervisor_assignments st !! (month, employeeId) with
      | None => inl "No supervisor assignment exists for this employee"
      | Some assignment =>
          if negb (String.eqb (toLowerCase (sa_evaluator_email assignment))
                     (toLowerCase (Authorization.email session)))
          then inl "You are not assigned to evaluate this employee"
          else
            match sa_status assignment with
            | Completed => inl "Evaluation already submitted for this employee"
            | Assigned =>
                let payload :=
                  {| attitude := attitude ratings;
                     reliability := reliability ratings;
                     proactivity := proactivity ratings;
                     flexibility := flexibility ratings;
                     individual_interaction := individual_interaction ratings |} in
                if List.existsb (same_supervisor_row month employeeId)
                     (submissions_raw (scoring st))
                then inl unique_violation
                else
                  inr (area,
                       {| scoring :=
                            {| rubric_versions := rubric_versions (scoring st);
                               submissions_raw :=
                                 (submissions_raw (scoring st)
                                  ++ [ {| sr_month := month;
                                          sr_employee_id := employeeId;
                                          sr_submission :=
                                            SupervisorSubmission payload |} ])%list;
                               scores_computed := scores_computed (scoring st) |};
                          roster_monthly := roster_monthly st;
                          supervisor_assignments :=
                            <[ (month, employeeId) :=
                                 {| sa_evaluator_email := sa_evaluator_email assignment;
                                    sa_status := Completed |} ]>
                              (supervisor_assignments st) |})
            end
      end
  end.

(** The error of the INSERT of [computeScoresForEmployee], which runs after
    the transaction has been committed: a score that an INTEGER column
    rejects, or no row of [roster_monthly] for the foreign key of
    [scores_computed]. Neither text of the database holds 'unique
    constraint' or 'duplicate', and the [catch] block answers 400 with it. *)
Definition upsert_error (month employeeId : string) (scores : ComputedScore)
  (st : AppStore) : option ErrorMessage :=
  match rejected_score scores with
  | Some value => Some (InvalidIntegerMessage value)
  | None =>
      if List.existsb
           (fun r => String.eqb (rm_month r) month
                     && String.eqb (rm_employee_id r) employeeId)
           (roster_monthly st)
      then None
      else Some ForeignKeyMessage
  end.

(** The handler on a request. *)
Definition POST_request (now : Z) (session : option Authorization.UserSession)
  (request : RequestBody) (st : AppStore) : Response * AppStore :=
  match session with
  | None => (catch "Unauthorized", st)
  | Some session =>
      if negb (Authorization.canSubmitSupervisor session)
      then (Failure 403 (Message "Unauthorized"), st)
      else
        match request with
        | NotJSON message => (catch message, st)
        | Misshapen issue => (Failure 400 (Message issue), st)
        | Shaped body =>
            match parse body with
            | inl issue => (Failure 400 issue, st)
            | inr parsed =>
                let month := body_month parsed in
                let employeeId := body_employeeId parsed in
                match
                  transaction session month employeeId (body_ratings parsed) st
                with
                | inl message => (catch message, st)
                | inr (area, st') =>
                    let '(scores, db') :=
                      computeScoresForEmployee now month employeeId area
                        (scoring st') in
                    match upsert_error month employeeId scores st' with
                    | Some error => (Failure 400 error, st')
                    | None =>
                        (Success month employeeId
                           (supervisorScore scores) (finalScore scores),
                         {| scoring := db';
                            roster_monthly := roster_monthly st';
                            supervisor_assignments := supervisor_assignments st' |})
                    end
                end
            end
        end
  end.

(** The handler on a request whose body is JSON of the shape of the
    schema. *)
Definition POST (now : Z) (session : option Authorization.UserSession)
  (body : Body) (st : AppStore) : Response * AppStore :=
  POST_request now session (Shaped body) st.

End Handler.

End SupervisorRoute.

(** * Properties *)

Import Rubric Engine.

(** ** Vocabulary of the statements, and the inputs of the worked cases *)

(** [count] lies in the closed range of the bucket. *)
Definition in_range (count : Q) (b : ErrorBucket) : Prop :=
  min b <= count /\ count <= max b.

(** Buckets with a gap between 2 and 4 and none below 1. *)
Definition gapped_buckets : list ErrorBucket :=
  [ mkErrorBucket 1 2 5; mkErrorBucket 4 5 10 ].

(** The tiers of the retraining penalty of the default rubric. *)
Definition example_tiers : gmap string Q := list_to_map [ ("1", 5); ("2+", 10) ].

(** [deductionPoints > 0] for a supervisor metric. *)
Definition supervisor_positive (payload : SupervisorSubmissionPayload)
  (rubric : RubricV1) (m : SupervisorMetric) : bool :=
  Qlt_bool 0 (supervisor_deduction payload rubric m).

(** The [deductionPoints] of a [metric, count] entry, 0 where the loop
    skips the metric. *)
Definition admin_deduction (rubric : RubricV1) (entry : string * Q) : Q :=
  match metrics (admin_rules rubric) !! fst entry with
  | Some buckets => findDeductionForCount (snd entry) buckets
  | None => 0
  end.

(** [deductionPoints > 0] for a [metric, count] entry. *)
Definition admin_positive (rubric : RubricV1) (entry : string * Q) : bool :=
  Qlt_bool 0 (admin_deduction rubric entry).

(** The three rules of the recruiter scorer, in the order they are applied. *)
Inductive RecruiterRule : Type := Overdue | Eda | Retraining.

(** The rules in the order of the three [if] statements. *)
Definition recruiter_rule_list : list RecruiterRule := [Overdue; Eda; Retraining].

(** The input count of a rule. *)
Definition recruiter_count (payload : RecruiterSubmissionPayload)
  (r : RecruiterRule) : Q :=
  match r with
  | Overdue => overdue_trainings payload
  | Eda => edas_past_6_months payload
  | Retraining => retrainings payload
  end.

(** The entry a rule pushes. *)
Definition recruiter_entry (payload : RecruiterSubmissionPayload)
  (rubric : RubricV1) (r : RecruiterRule) : Deduction :=
  match r with
  | Overdue => overdue_entry payload rubric
  | Eda => eda_entry payload rubric
  | Retraining => retraining_entry payload rubric
  end.

(** The guard of a rule: its input count is above 0. *)
Definition recruiter_applies (payload : RecruiterSubmissionPayload)
  (r : RecruiterRule) : bool :=
  Qlt_bool 0 (recruiter_count payload r).

(** Every penalty the recruiter rules list is non-negative. *)
Definition nonneg_penalties (rules : RecruiterRules) : Prop :=
  0 <= overdue_training_penalty_per rules /\
  (forall k p, eda_penalty rules !! k = Some p -> 0 <= p) /\
  (forall k p, retraining_penalty rules !! k = Some p -> 0 <= p).

(** The default rubric with a negative per-training penalty. *)
Definition rubric_negative_penalty : RubricV1 :=
  {| weights := weights DEFAULT_RUBRIC_V1;
     supervisor_rating_map := supervisor_rating_map DEFAULT_RUBRIC_V1;
     supervisor_metrics := supervisor_metrics DEFAULT_RUBRIC_V1;
     admin_rules := admin_rules DEFAULT_RUBRIC_V1;
     recruiter_rules :=
       {| overdue_training_penalty_per := -15;
          eda_penalty := eda_penalty (recruiter_rules DEFAULT_RUBRIC_V1);
          retraining_penalty :=
            retraining_penalty (recruiter_rules DEFAULT_RUBRIC_V1) |} |}.

(** A recruiter payload with one overdue training and nothing else. *)
Definition one_overdue_training : RecruiterSubmissionPayload :=
  {| overdue_trainings := 1; retrainings := 0; edas_past_6_months := 0 |}.

(** The number of entries of a deductions list recorded for a metric. *)
Definition entries_for (name : string) (ds : list Deduction) : nat :=
  List.length (List.filter (fun d => String.eqb (metric d) name) ds).

(** A rubric whose EDA tiers have no key for a single occurrence. *)
Definition rubric_no_single_eda : RubricV1 :=
  {| weights := weights DEFAULT_RUBRIC_V1;
     supervisor_rating_map := supervisor_rating_map DEFAULT_RUBRIC_V1;
     supervisor_metrics := supervisor_metrics DEFAULT_RUBRIC_V1;
     admin_rules := admin_rules DEFAULT_RUBRIC_V1;
     recruiter_rules :=
       {| overdue_training_penalty_per := 15;
          eda_penalty := list_to_map [ ("2+", 80) ];
          retraining_penalty :=
            retraining_penalty (recruiter_rules DEFAULT_RUBRIC_V1) |} |}.

(** A rubric whose rating map gives a bonus, a negative deduction. *)
Definition rubric_negative_rating : RubricV1 :=
  {| weights := weights DEFAULT_RUBRIC_V1;
     supervisor_rating_map := list_to_map [ ("Outstanding", -5) ];
     supervisor_metrics := supervisor_metrics DEFAULT_RUBRIC_V1;
     admin_rules := admin_rules DEFAULT_RUBRIC_V1;
     recruiter_rules := recruiter_rules DEFAULT_RUBRIC_V1 |}.

(** A supervisor payload rated "Outstanding" throughout. *)
Definition all_outstanding : SupervisorSubmissionPayload :=
  {| attitude := "Outstanding"; reliability := "Outstanding";
     proactivity := "Outstanding"; flexibility := "Outstanding";
     individual_interaction := "Outstanding" |}.

(** A recruiter payload with one EDA and nothing else. *)
Definition one_eda : RecruiterSubmissionPayload :=
  {| overdue_trainings := 0; retrainings := 0; edas_past_6_months := 1 |}.

(** A zero/one count read off a boolean. *)
Definition one_if (b : bool) : nat := if b then 1%nat else 0%nat.



(** A supervisor payload with a label the default rubric does not list. *)
Definition payload_unknown_label : SupervisorSubmissionPayload :=
  {| attitude := "Stellar";
     reliability := "Meets Expectations";
     proactivity := "Outstanding";
     flexibility := "Unsatisfactory";
     individual_interaction := "Exceeds Expectations" |}.

(** The default rubric without rules for the metric [mar_errors]. *)
Definition rubric_without_mar : RubricV1 :=
  {| weights := weights DEFAULT_RUBRIC_V1;
     supervisor_rating_map := supervisor_rating_map DEFAULT_RUBRIC_V1;
     supervisor_metrics := supervisor_metrics DEFAULT_RUBRIC_V1;
     admin_rules :=
       {| metrics := delete "mar_errors" (metrics (admin_rules DEFAULT_RUBRIC_V1)) |};
     recruiter_rules := recruiter_rules DEFAULT_RUBRIC_V1 |}.

(** An admin payload with two goal errors and six medication errors. *)
Definition payload_six_mar : AdminSubmissionPayload :=
  {| isp_goal_errors := 2; isp_behavior_errors := 0; mar_errors := 6;
     attendance_tardies_callouts := 0; attendance_ncns := 0;
     admin_individual_interaction := None |}.

(** The rows of [rubric_versions] in force in [month]. *)
Definition applicable (month : string) (db : Store) : list RubricVersionsRecord :=
  List.filter (fun r => String.leb (rv_effective_month r) month) (rubric_versions db).

(** A store with two rubric versions, effective January and June 2025. *)
Definition two_versions : Store :=
  {| rubric_versions :=
       [ {| rv_rubric_version := "2025.01"; rv_effective_month := "2025-01";
            rv_rubric_json := DEFAULT_RUBRIC_V1 |};
         {| rv_rubric_version := "2025.06"; rv_effective_month := "2025-06";
            rv_rubric_json := rubric_without_mar |} ];
     submissions_raw := [];
     scores_computed := ∅ |}.

(** [n] is the integer nearest to [x], the upper one of the two at a tie. *)
Definition round_half_up (x : Q) (n : Z) : Prop :=
  inject_Z n - (1 # 2) <= x /\ x < inject_Z n + (1 # 2).

(** A store with no published rubric and the three submissions of employee
    E1 for March 2025: two admin metrics at 5 points each, five ratings at 3
    points each, two overdue trainings at 15 points each. *)
Definition example_store : Store :=
  {| rubric_versions := [];
     submissions_raw :=
       [ {| sr_month := "2025-03"; sr_employee_id := "E1";
            sr_submission :=
              AdminSubmission
                {| isp_goal_errors := 2; isp_behavior_errors := 1; mar_errors := 0;
                   attendance_tardies_callouts := 0; attendance_ncns := 0;
                   admin_individual_interaction := None |} |};
         {| sr_month := "2025-03"; sr_employee_id := "E1";
            sr_submission :=
              SupervisorSubmission
                {| attitude := "Exceeds Expectations";
                   reliability := "Exceeds Expectations";
                   proactivity := "Exceeds Expectations";
                   flexibility := "Exceeds Expectations";
                   individual_interaction := "Exceeds Expectations" |} |};
         {| sr_month := "2025-03"; sr_employee_id := "E1";
            sr_submission :=
              RecruiterSubmission
                {| overdue_trainings := 2; retrainings := 0;
                   edas_past_6_months := 0 |} |};
         {| sr_month := "2025-03"; sr_employee_id := "E2";
            sr_submission :=
              RecruiterSubmission
                {| overdue_trainings := 1; retrainings := 0;
                   edas_past_6_months := 0 |} |} ];
     scores_computed := ∅ |}.


(** The [role] column of a submission row. *)
Inductive Role : Type := RoleAdmin | RoleSupervisor | RoleRecruiter.

(** The role a row is tagged with. *)
Definition role (submission : SubmissionRow) : Role :=
  match submission with
  | AdminSubmission _ => RoleAdmin
  | SupervisorSubmission _ => RoleSupervisor
  | RecruiterSubmission _ => RoleRecruiter
  end.

(** The deduction points of a list of entries, added up. *)
Definition sum_points (ds : list Deduction) : Q :=
  List.fold_right (fun d total => deduction_points d + total) 0 ds.

(** The payload of the last admin row among the rows read, if any. *)
Definition last_admin (rows : list SubmissionRow) : option AdminSubmissionPayload :=
  List.fold_left
    (fun acc s => match s with AdminSubmission p => Some p | _ => acc end)
    rows None.

(** The payload of the last supervisor row among the rows read, if any. *)
Definition last_supervisor (rows : list SubmissionRow)
  : option SupervisorSubmissionPayload :=
  List.fold_left
    (fun acc s => match s with SupervisorSubmission p => Some p | _ => acc end)
    rows None.

(** The payload of the last recruiter row among the rows read, if any. *)
Definition last_recruiter (rows : list SubmissionRow)
  : option RecruiterSubmissionPayload :=
  List.fold_left
    (fun acc s => match s with RecruiterSubmission p => Some p | _ => acc end)
    rows None.

(** The scores and deductions lists the last row of each role gives. *)
Definition scores_of_last (rubric : RubricV1) (rows : list SubmissionRow) : Scores :=
  {| s_adminScore :=
       option_map (fun p => score (calculateAdminScore p rubric)) (last_admin rows);
     s_supervisorScore :=
       option_map (fun p => score (calculateSupervisorScore p rubric))
         (last_supervisor rows);
     s_recruiterScore :=
       option_map (fun p => score (calculateRecruiterScore p rubric))
         (last_recruiter rows);
     s_deductions :=
       {| admin :=
            from_option (fun p => result_deductions (calculateAdminScore p rubric))
              [] (last_admin rows);
          supervisor :=
            from_option
              (fun p => result_deductions (calculateSupervisorScore p rubric))
              [] (last_supervisor rows);
          recruiter :=
            from_option
              (fun p => result_deductions (calculateRecruiterScore p rubric))
              [] (last_recruiter rows) |} |}.

(** The number is a whole number. *)
Definition is_integer (q : Q) : Prop := exists z : Z, q == inject_Z z.

(** The weights are non-negative and add up to 1 at most. *)
Definition sane_weights (w : Weights) : Prop :=
  0 <= w_admin w /\ 0 <= w_supervisor w /\ 0 <= w_recruiter w
  /\ w_admin w + w_supervisor w + w_recruiter w <= 1.

(** The conditions under which the supervisor route accepts a submission:
    a session that may submit supervisor evaluations, a body that passes the
    schema, an active roster row, an open assignment whose evaluator is the
    user of the session, and no supervisor submission stored yet. *)
Definition accepted (toLowerCase : string -> string)
  (session : option Authorization.UserSession) (body : SupervisorRoute.Body)
  (st : SupervisorRoute.AppStore) : Prop :=
  exists user roster assignment,
    session = Some user
    /\ Authorization.canSubmitSupervisor user = true
    /\ SupervisorRoute.parse body = inr body
    /\ List.find
         (fun r =>
            String.eqb (SupervisorRoute.rm_month r) (SupervisorRoute.body_month body)
            && String.eqb (SupervisorRoute.rm_employee_id r)
                 (SupervisorRoute.body_employeeId body)
            && SupervisorRoute.rm_is_active r)
         (SupervisorRoute.roster_monthly st) = Some roster
    /\ SupervisorRoute.supervisor_assignments st
         !! (SupervisorRoute.body_month body, SupervisorRoute.body_employeeId body)
       = Some assignment
    /\ toLowerCase (SupervisorRoute.sa_evaluator_email assignment)
       = toLowerCase (Authorization.email user)
    /\ SupervisorRoute.sa_status assignment = SupervisorRoute.Assigned
    /\ List.existsb
         (SupervisorRoute.same_supervisor_row (SupervisorRoute.body_month body)
            (SupervisorRoute.body_employeeId body))
         (submissions_raw (SupervisorRoute.scoring st)) = false.

(** The response is a failure. *)
Definition is_failure (r : SupervisorRoute.Response) : Prop :=
  exists status error, r = SupervisorRoute.Failure status error.

(** The store [two_versions] with a third version, effective 2025-09, put
    first in the table. *)
Definition three_versions : Store :=
  {| rubric_versions :=
       {| rv_rubric_version := "2025.09"; rv_effective_month := "2025-09";
          rv_rubric_json := rubric_negative_penalty |}
       :: rubric_versions two_versions;
     submissions_raw := [];
     scores_computed := ∅ |}.

(** The versions of [two_versions] in the other order. *)
Definition two_versions_swapped : Store :=
  {| rubric_versions := List.rev (rubric_versions two_versions);
     submissions_raw := [];
     scores_computed := ∅ |}.

(** A session with the role admin for the area Price. *)
Definition price_admin : Authorization.UserSession :=
  {| Authorization.userId := "u1";
     Authorization.email := "admin@example.org";
     Authorization.name := None;
     Authorization.authProvider := Authorization.Google;
     Authorization.roles := [ Authorization.mkRoleGrant "admin" "Price" ] |}.

(** A session with the role exec granted for the area Price only. *)
Definition price_exec : Authorization.UserSession :=
  {| Authorization.userId := "u2";
     Authorization.email := "exec@example.org";
     Authorization.name := None;
     Authorization.authProvider := Authorization.Google;
     Authorization.roles := [ Authorization.mkRoleGrant "exec" "Price" ] |}.

(** A session with two grants for Price and one for South Valley. *)
Definition two_area_user : Authorization.UserSession :=
  {| Authorization.userId := "u3";
     Authorization.email := "director@example.org";
     Authorization.name := Some "D";
     Authorization.authProvider := Authorization.Google;
     Authorization.roles :=
       [ Authorization.mkRoleGrant "director" "Price";
         Authorization.mkRoleGrant "admin" "South Valley";
         Authorization.mkRoleGrant "recruiter" "Price" ] |}.

(** A house manager of Price, the store of one open assignment naming her as
    evaluator of employee E1 for March 2025, and a valid body. *)
Definition house_manager : Authorization.UserSession :=
  {| Authorization.userId := "u9";
     Authorization.email := "jo.hm@example.org";
     Authorization.name := None;
     Authorization.authProvider := Authorization.MagicLink;
     Authorization.roles := [ Authorization.mkRoleGrant "house_manager" "Price" ] |}.

(** The store before the submission. *)
Definition open_assignment : SupervisorRoute.AppStore :=
  {| SupervisorRoute.scoring :=
       {| rubric_versions := []; submissions_raw := []; scores_computed := ∅ |};
     SupervisorRoute.roster_monthly :=
       [ SupervisorRoute.mkRosterMonthlyRecord "2025-03" "E1" "Price" true ];
     SupervisorRoute.supervisor_assignments :=
       {[ ("2025-03", "E1") :=
            SupervisorRoute.mkSupervisorAssignmentsRecord "jo.hm@example.org"
              SupervisorRoute.Assigned ]} |}.

(** A body with the ratings of 8 + 0 + 0 + 0 + 20 deduction points. *)
Definition valid_body : SupervisorRoute.Body :=
  {| SupervisorRoute.body_month := "2025-03";
     SupervisorRoute.body_employeeId := "E1";
     SupervisorRoute.body_ratings :=
       {| attitude := "Meets Expectations"; reliability := "Outstanding";
          proactivity := "Outstanding"; flexibility := "Outstanding";
          individual_interaction := "Unsatisfactory" |} |}.

(** The letter case folding used in the worked cases: none. *)
Definition keep_case (s : string) : string := s.

(** The store of the open assignment with a supervisor submission for the
    employee and month in place already. *)
Definition already_submitted : SupervisorRoute.AppStore :=
  {| SupervisorRoute.scoring :=
       {| rubric_versions := [];
          submissions_raw :=
            [ {| sr_month := "2025-03"; sr_employee_id := "E1";
                 sr_submission :=
                   SupervisorSubmission (SupervisorRoute.body_ratings valid_body) |} ];
          scores_computed := ∅ |};
     SupervisorRoute.roster_monthly := SupervisorRoute.roster_monthly open_assignment;
     SupervisorRoute.supervisor_assignments :=
       SupervisorRoute.supervisor_assignments open_assignment |}.

(** Half the last bit of the double nearest to [x], bounded by the number:
    what rounding [x] can change. *)
Definition half_ulp (x : Q) : Q := x * pow2 (-53) + pow2 (-1075).

(** A bound of the rounding error of a number between 0 and 256: half the
    last bit of a double below 256 is 2^-46. *)
Definition rounding_unit : Q := 1 # 35000000000000.

(** A bound of the distance between the weighted sum of the final score as
    the doubles give it and the exact one, for scores between 0 and 100 and
    weights that add up to 1 at most. *)
Definition rounding_tolerance : Q := 1 # 100000000000.

(** The weighted sum of the final score in exact arithmetic. *)
Definition exact_weighted_sum (a s c : Q) (w : Weights) : Q :=
  a * w_admin w + s * w_supervisor w + c * w_recruiter w.

(** The default rubric with the weights 0.35, 0.35 and 0.3. *)
Definition rubric_35_35_30 : RubricV1 :=
  {| weights := {| w_admin := 0.35; w_supervisor := 0.35; w_recruiter := 0.3 |};
     supervisor_rating_map := supervisor_rating_map DEFAULT_RUBRIC_V1;
     supervisor_metrics := supervisor_metrics DEFAULT_RUBRIC_V1;
     admin_rules := admin_rules DEFAULT_RUBRIC_V1;
     recruiter_rules := recruiter_rules DEFAULT_RUBRIC_V1 |}.

(** A store with that rubric published for 2025-01 and the three submissions
    of employee E1 for March 2025: admin deductions of 5 and 10 points, five
    ratings at 3 points each, six overdue trainings at 15 points each. *)
Definition rounding_store : Store :=
  {| rubric_versions :=
       [ {| rv_rubric_version := "2025.01"; rv_effective_month := "2025-01";
            rv_rubric_json := rubric_35_35_30 |} ];
     submissions_raw :=
       [ {| sr_month := "2025-03"; sr_employee_id := "E1";
            sr_submission :=
              AdminSubmission
                {| isp_goal_errors := 1; isp_behavior_errors := 3; mar_errors := 0;
                   attendance_tardies_callouts := 0; attendance_ncns := 0;
                   admin_individual_interaction := None |} |};
         {| sr_month := "2025-03"; sr_employee_id := "E1";
            sr_submission :=
              SupervisorSubmission
                {| attitude := "Exceeds Expectations";
                   reliability := "Exceeds Expectations";
                   proactivity := "Exceeds Expectations";
                   flexibility := "Exceeds Expectations";
                   individual_interaction := "Exceeds Expectations" |} |};
         {| sr_month := "2025-03"; sr_employee_id := "E1";
            sr_submission :=
              RecruiterSubmission
                {| overdue_trainings := 6; retrainings := 0;
                   edas_past_6_months := 0 |} |} ];
     scores_computed := ∅ |}.

(** [totalDeduction] as the scorers accumulate it over a list of entries:
    from 0, one double-precision addition per entry. *)
Definition double_sum_points (ds : list Deduction) : Q :=
  List.fold_left (fun total d => double_add total (deduction_points d)) ds 0.

(** A whole number of magnitude [bound] at most. *)
Definition whole_within (bound : Z) (q : Q) : Prop :=
  exists z : Z, q == inject_Z z /\ (Z.abs z <= bound)%Z.

(** The score is what the scorer's own arithmetic makes of the entries. *)
Definition explained (r : CategoryResult) : Prop :=
  score r = Math_max 0 (double_sub 100 (double_sum_points (result_deductions r))).

(** The score is 100 less the exact sum of the entries, floored at 0. *)
Definition explained_exactly (r : CategoryResult) : Prop :=
  score r == Qmax 0 (100 - sum_points (result_deductions r)).

(** The default rubric with a per-training penalty of 0.1. *)
Definition rubric_tenth_penalty : RubricV1 :=
  {| weights := weights DEFAULT_RUBRIC_V1;
     supervisor_rating_map := supervisor_rating_map DEFAULT_RUBRIC_V1;
     supervisor_metrics := supervisor_metrics DEFAULT_RUBRIC_V1;
     admin_rules := admin_rules DEFAULT_RUBRIC_V1;
     recruiter_rules :=
       {| overdue_training_penalty_per := 0.1;
          eda_penalty := eda_penalty (recruiter_rules DEFAULT_RUBRIC_V1);
          retraining_penalty := retraining_penalty (recruiter_rules DEFAULT_RUBRIC_V1) |} |}.

(** Three overdue trainings and nothing else. *)
Definition three_overdue_trainings : RecruiterSubmissionPayload :=
  {| overdue_trainings := 3; retrainings := 0; edas_past_6_months := 0 |}.

(** The scoring store with the supervisor row of a body appended. *)
Definition submitted (body : SupervisorRoute.Body) (db : Store) : Store :=
  {| rubric_versions := rubric_versions db;
     submissions_raw :=
       (submissions_raw db
        ++ [ {| sr_month := SupervisorRoute.body_month body;
                sr_employee_id := SupervisorRoute.body_employeeId body;
                sr_submission :=
                  SupervisorSubmission (SupervisorRoute.body_ratings body) |} ])%list;
     scores_computed := scores_computed db |}.

(** The store once the transaction of a submission is committed: the row
    of the body is stored and the assignment is completed; the scores are
    not computed yet. *)
Definition committed (body : SupervisorRoute.Body)
  (st st' : SupervisorRoute.AppStore) : Prop :=
  SupervisorRoute.scoring st' = submitted body (SupervisorRoute.scoring st)
  /\ SupervisorRoute.roster_monthly st' = SupervisorRoute.roster_monthly st
  /\ exists assignment,
       SupervisorRoute.supervisor_assignments st
         !! (SupervisorRoute.body_month body, SupervisorRoute.body_employeeId body)
       = Some assignment
       /\ SupervisorRoute.supervisor_assignments st'
          = <[ (SupervisorRoute.body_month body, SupervisorRoute.body_employeeId body) :=
                 {| SupervisorRoute.sa_evaluator_email :=
                      SupervisorRoute.sa_evaluator_email assignment;
                    SupervisorRoute.sa_status := SupervisorRoute.Completed |} ]>
              (SupervisorRoute.supervisor_assignments st).

(** The scores computed for the employee and month of the body, once its
    row is stored, fit the INTEGER columns of [scores_computed]. *)
Definition storable (body : SupervisorRoute.Body)
  (st : SupervisorRoute.AppStore) : Prop :=
  forall now area,
    rejected_score
      (fst (computeScoresForEmployee now (SupervisorRoute.body_month body)
              (SupervisorRoute.body_employeeId body) area
              (submitted body (SupervisorRoute.scoring st))))
    = None.

(** The request passes every check of the handler, and a supervisor
    submission for the employee and month is stored already. *)
Definition resubmitted (toLowerCase : string -> string)
  (session : option Authorization.UserSession) (body : SupervisorRoute.Body)
  (st : SupervisorRoute.AppStore) : Prop :=
  exists user roster assignment,
    session = Some user
    /\ Authorization.canSubmitSupervisor user = true
    /\ SupervisorRoute.parse body = inr body
    /\ List.find
         (fun r =>
            String.eqb (SupervisorRoute.rm_month r) (SupervisorRoute.body_month body)
            && String.eqb (SupervisorRoute.rm_employee_id r)
                 (SupervisorRoute.body_employeeId body)
            && SupervisorRoute.rm_is_active r)
         (SupervisorRoute.roster_monthly st) = Some roster
    /\ SupervisorRoute.supervisor_assignments st
         !! (SupervisorRoute.body_month body, SupervisorRoute.body_employeeId body)
       = Some assignment
    /\ toLowerCase (SupervisorRoute.sa_evaluator_email assignment)
       = toLowerCase (Authorization.email user)
    /\ SupervisorRoute.sa_status assignment = SupervisorRoute.Assigned
    /\ List.existsb
         (SupervisorRoute.same_supervisor_row (SupervisorRoute.body_month body)
            (SupervisorRoute.body_employeeId body))
         (submissions_raw (SupervisorRoute.scoring st)) = true.

(** The session may submit supervisor evaluations, [request.json()] throws,
    and the message of its error is not 'Unauthorized' and holds 'unique
    constraint' or 'duplicate'. *)
Definition conflict_worded (session : option Authorization.UserSession)
  (message : string) : Prop :=
  (exists user,
      session = Some user /\ Authorization.canSubmitSupervisor user = true)
  /\ message <> "Unauthorized"
  /\ (SupervisorRoute.includes message "unique constraint"
      || SupervisorRoute.includes message "duplicate") = true.

(** The double quote character. *)
Definition double_quote : string := String (Ascii.ascii_of_nat 34) EmptyString.

(** The message of the SyntaxError for the body [duplicate], which is no
    JSON. *)
Definition not_json_message : string :=
  "Unexpected token 'd', " ++ double_quote ++ "duplicate" ++ double_quote
  ++ " is not valid JSON".

(** The default rubric with 7.5 points for the rating Meets Expectations. *)
Definition rubric_half_points : RubricV1 :=
  {| weights := weights DEFAULT_RUBRIC_V1;
     supervisor_rating_map :=
       <[ "Meets Expectations" := 7.5 ]> (supervisor_rating_map DEFAULT_RUBRIC_V1);
     supervisor_metrics := supervisor_metrics DEFAULT_RUBRIC_V1;
     admin_rules := admin_rules DEFAULT_RUBRIC_V1;
     recruiter_rules := recruiter_rules DEFAULT_RUBRIC_V1 |}.

(** The store of the open assignment with that rubric published for
    2025-02. *)
Definition half_point_assignment : SupervisorRoute.AppStore :=
  {| SupervisorRoute.scoring :=
       {| rubric_versions :=
            [ {| rv_rubric_version := "2025.02"; rv_effective_month := "2025-02";
                 rv_rubric_json := rubric_half_points |} ];
          submissions_raw := [];
          scores_computed := ∅ |};
     SupervisorRoute.roster_monthly := SupervisorRoute.roster_monthly open_assignment;
     SupervisorRoute.supervisor_assignments :=
       SupervisorRoute.supervisor_assignments open_assignment |}.

(** A failure whose message is none of the database's two. *)
Definition handler_failure (r : SupervisorRoute.Response) : Prop :=
  exists status error,
    r = SupervisorRoute.Failure status error
    /\ ((exists text, error = SupervisorRoute.Message text)
        \/ error = SupervisorRoute.InvalidEnumMessage).

(** ** Comparisons of numbers *)

Lemma Qlt_bool_iff (x y : Q) : Qlt_bool x y = true <-> x < y.
Proof.
  unfold Qlt_bool. rewrite negb_true_iff. split.
  - intros Hle. destruct (Qlt_le_dec x y) as [Hlt | Hge]; [exact Hlt |].
    apply Qle_bool_iff in Hge. congruence.
  - intros Hlt. apply not_true_is_false. intros Hle.
    apply Qle_bool_iff in Hle. lra.
Qed.

Lemma Qlt_bool_false_iff (x y : Q) : Qlt_bool x y = false <-> y <= x.
Proof.
  rewrite <- not_true_iff_false, Qlt_bool_iff. split; intros H; lra.
Qed.

Lemma Qeq_bool_false_iff (x y : Q) : Qeq_bool x y = false <-> ~ x == y.
Proof.
  rewrite <- not_true_iff_false, Qeq_bool_iff. tauto.
Qed.

(** ** Rounding to the nearest double *)

Lemma pow2_pos (e : Z) : 0 < pow2 e.
Proof. unfold pow2. apply Qpower_0_lt. reflexivity. Qed.

Lemma pow2_plus (a b : Z) : pow2 (a + b) == pow2 a * pow2 b.
Proof. unfold pow2. apply Qpower_plus. discriminate. Qed.

Lemma pow2_nonneg_Z (n : Z) : (0 <= n)%Z -> pow2 n == inject_Z (2 ^ n).
Proof. intros H. unfold pow2. rewrite Zpower_Qpower by exact H. reflexivity. Qed.

Lemma pow2_lt_inv (a b : Z) : pow2 a < pow2 b -> (a < b)%Z.
Proof. intros H. apply (Qpower_lt_compat_l_inv 2); [exact H | reflexivity]. Qed.

Lemma pow2_le (a b : Z) : (a <= b)%Z -> pow2 a <= pow2 b.
Proof. intros H. apply Qpower_le_compat_l; [exact H | discriminate]. Qed.

(** The binade of a positive number. *)
Lemma log2_floor_spec (x : Q) :
  0 < x -> pow2 (log2_floor x) <= x /\ x < pow2 (log2_floor x + 1).
Proof.
  intros Hx. unfold log2_floor.
  destruct x as [n d]. cbn [Qnum Qden].
  assert (Hn : (0 < n)%Z) by (unfold Qlt in Hx; cbn in Hx; lia).
  set (a := Z.log2 n). set (b := Z.log2 (Z.pos d)).
  assert (Ha : (2 ^ a <= n < 2 ^ (a + 1))%Z).
  { replace (a + 1)%Z with (Z.succ a) by lia. apply Z.log2_spec. exact Hn. }
  assert (Hb : (2 ^ b <= Z.pos d < 2 ^ (b + 1))%Z).
  { replace (b + 1)%Z with (Z.succ b) by lia. apply Z.log2_spec. lia. }
  assert (Ha0 : (0 <= a)%Z) by apply Z.log2_nonneg.
  assert (Hb0 : (0 <= b)%Z) by apply Z.log2_nonneg.
  assert (Hpa : (0 < 2 ^ a)%Z) by (apply Z.pow_pos_nonneg; lia).
  assert (Hpb : (0 < 2 ^ b)%Z) by (apply Z.pow_pos_nonneg; lia).
  assert (Hpa1 : (2 ^ (a + 1) = 2 * 2 ^ a)%Z) by (rewrite Z.pow_add_r by lia; lia).
  assert (Hpb1 : (2 ^ (b + 1) = 2 * 2 ^ b)%Z) by (rewrite Z.pow_add_r by lia; lia).
  assert (Hlow : pow2 (a - b - 1) <= n # d).
  { replace (a - b - 1)%Z with (a + - (b + 1))%Z by lia.
    rewrite pow2_plus. unfold pow2 at 2. rewrite Qpower_opp. fold (pow2 (b + 1)).
    rewrite (pow2_nonneg_Z a) by lia. rewrite (pow2_nonneg_Z (b + 1)) by lia.
    apply Qle_shift_div_r.
    - rewrite <- (Zlt_Qlt 0). lia.
    - unfold Qle, Qmult, inject_Z. cbn [Qnum Qden].
      rewrite Z.mul_1_r, Pos.mul_1_r. nia. }
  assert (Hhigh : (n # d) < pow2 (a - b + 1)).
  { replace (a - b + 1)%Z with (a + 1 + - b)%Z by lia.
    rewrite pow2_plus. unfold pow2 at 2. rewrite Qpower_opp. fold (pow2 b).
    rewrite (pow2_nonneg_Z (a + 1)) by lia. rewrite (pow2_nonneg_Z b) by lia.
    apply Qlt_shift_div_l.
    - rewrite <- (Zlt_Qlt 0). lia.
    - unfold Qlt, Qmult, inject_Z. cbn [Qnum Qden].
      rewrite Z.mul_1_r, Pos.mul_1_r. nia. }
  destruct (Qle_bool (pow2 (a - b)) (n # d)) eqn:E.
  - apply Qle_bool_iff in E. split; [exact E | exact Hhigh].
  - split; [exact Hlow |].
    replace (a - b - 1 + 1)%Z with (a - b)%Z by lia.
    apply Qnot_le_lt. intros Hle. apply Qle_bool_iff in Hle. congruence.
Qed.

Lemma log2_floor_mono (x y : Q) :
  0 < x -> x <= y -> (log2_floor x <= log2_floor y)%Z.
Proof.
  intros Hx Hxy.
  destruct (log2_floor_spec x Hx) as [Hlo _].
  destruct (log2_floor_spec y) as [_ Hhi]; [lra |].
  assert (H : pow2 (log2_floor x) < pow2 (log2_floor y + 1)) by lra.
  apply pow2_lt_inv in H. lia.
Qed.

Lemma log2_floor_unique (x : Q) (l : Z) :
  pow2 l <= x -> x < pow2 (l + 1) -> log2_floor x = l.
Proof.
  intros Hlo Hhi.
  assert (Hx : 0 < x) by (pose proof (pow2_pos l); lra).
  destruct (log2_floor_spec x Hx) as [Hlo' Hhi'].
  assert (H1 : pow2 l < pow2 (log2_floor x + 1)) by lra.
  assert (H2 : pow2 (log2_floor x) < pow2 (l + 1)) by lra.
  apply pow2_lt_inv in H1. apply pow2_lt_inv in H2. lia.
Qed.

(** Rounding to the nearest integer: at most a half away, exact on
    integers, monotone. *)
Lemma round_half_even_bounds (y : Q) :
  y - (1 # 2) <= inject_Z (round_half_even y) <= y + (1 # 2).
Proof.
  unfold round_half_even.
  pose proof (Qfloor_le y) as Hlo. pose proof (Qlt_floor y) as Hhi.
  rewrite inject_Z_plus in Hhi. change (inject_Z 1) with 1 in Hhi.
  destruct (Qlt_bool (y - inject_Z (Qfloor y)) (1 # 2)) eqn:E1.
  - apply Qlt_bool_iff in E1. split; lra.
  - destruct (Qlt_bool (1 # 2) (y - inject_Z (Qfloor y))) eqn:E2.
    + apply Qlt_bool_iff in E2. rewrite inject_Z_plus.
      change (inject_Z 1) with 1. split; lra.
    + assert (H1 : (1 # 2) <= y - inject_Z (Qfloor y)).
      { apply Qnot_lt_le. intros H. apply Qlt_bool_iff in H. congruence. }
      assert (H2 : y - inject_Z (Qfloor y) <= 1 # 2).
      { apply Qnot_lt_le. intros H. apply Qlt_bool_iff in H. congruence. }
      destruct (Z.even (Qfloor y)).
      * split; lra.
      * rewrite inject_Z_plus. change (inject_Z 1) with 1. split; lra.
Qed.

Lemma round_half_even_floor (y : Q) :
  (Qfloor y <= round_half_even y <= Qfloor y + 1)%Z.
Proof.
  unfold round_half_even.
  destruct (Qlt_bool _ _); [lia |]. destruct (Qlt_bool _ _); [lia |].
  destruct (Z.even _); lia.
Qed.

Lemma round_half_even_Z (n : Z) : round_half_even (inject_Z n) = n.
Proof.
  unfold round_half_even. rewrite Qfloor_Z.
  assert (H : Qlt_bool (inject_Z n - inject_Z n) (1 # 2) = true).
  { apply Qlt_bool_iff. lra. }
  rewrite H. reflexivity.
Qed.

Lemma round_half_even_mono (x y : Q) :
  x <= y -> (round_half_even x <= round_half_even y)%Z.
Proof.
  intros Hxy.
  pose proof (Qfloor_resp_le x y Hxy) as Hf.
  pose proof (round_half_even_floor x) as Hx.
  pose proof (round_half_even_floor y) as Hy.
  destruct (Z.eq_dec (Qfloor x) (Qfloor y)) as [Heq | Hne]; [| lia].
  unfold round_half_even. rewrite <- Heq.
  destruct (Qlt_bool (x - inject_Z (Qfloor x)) (1 # 2)) eqn:Ex1.
  - destruct (Qlt_bool (y - inject_Z (Qfloor x)) (1 # 2)); [lia |].
    destruct (Qlt_bool (1 # 2) (y - inject_Z (Qfloor x))); [lia |].
    destruct (Z.even (Qfloor x)); lia.
  - assert (Hx1 : (1 # 2) <= x - inject_Z (Qfloor x)).
    { apply Qnot_lt_le. intros H. apply Qlt_bool_iff in H. congruence. }
    assert (Ey1 : Qlt_bool (y - inject_Z (Qfloor x)) (1 # 2) = false).
    { destruct (Qlt_bool (y - inject_Z (Qfloor x)) (1 # 2)) eqn:E; [| reflexivity].
      apply Qlt_bool_iff in E. lra. }
    rewrite Ey1.
    destruct (Qlt_bool (1 # 2) (x - inject_Z (Qfloor x))) eqn:Ex2.
    + apply Qlt_bool_iff in Ex2.
      assert (Ey2 : Qlt_bool (1 # 2) (y - inject_Z (Qfloor x)) = true).
      { apply Qlt_bool_iff. lra. }
      rewrite Ey2. lia.
    + destruct (Qlt_bool (1 # 2) (y - inject_Z (Qfloor x))); [| lia].
      destruct (Z.even (Qfloor x)); lia.
Qed.

Lemma round_half_even_nonneg (y : Q) : 0 <= y -> (0 <= round_half_even y)%Z.
Proof.
  intros Hy. rewrite <- (round_half_even_Z 0).
  apply round_half_even_mono. exact Hy.
Qed.

Lemma to_double_pos_eq (x : Q) :
  to_double_pos x
  == inject_Z (round_half_even (x / pow2 (last_bit x))) * pow2 (last_bit x).
Proof. unfold to_double_pos. apply Qred_correct. Qed.

Lemma div_pow2_le (x : Q) (m e : Z) :
  x <= inject_Z m * pow2 e <-> x / pow2 e <= inject_Z m.
Proof.
  pose proof (pow2_pos e) as Hp. split; intros H.
  - apply Qle_shift_div_r; assumption.
  - assert (Hx : x == x / pow2 e * pow2 e) by (field; lra).
    rewrite Hx. apply Qmult_le_compat_r; lra.
Qed.

Lemma div_pow2_ge (x : Q) (m e : Z) :
  inject_Z m * pow2 e <= x <-> inject_Z m <= x / pow2 e.
Proof.
  pose proof (pow2_pos e) as Hp. split; intros H.
  - apply Qle_shift_div_l; assumption.
  - assert (Hx : x == x / pow2 e * pow2 e) by (field; lra).
    rewrite Hx. apply Qmult_le_compat_r; lra.
Qed.

(** Rounding does not cross a multiple of the last bit. *)
Lemma to_double_pos_below (x : Q) (m : Z) :
  x <= inject_Z m * pow2 (last_bit x) ->
  to_double_pos x <= inject_Z m * pow2 (last_bit x).
Proof.
  intros H. rewrite to_double_pos_eq.
  apply Qmult_le_compat_r; [| apply Qlt_le_weak, pow2_pos].
  rewrite <- Zle_Qle. rewrite <- (round_half_even_Z m).
  apply round_half_even_mono. apply div_pow2_le. exact H.
Qed.

Lemma to_double_pos_above (x : Q) (m : Z) :
  inject_Z m * pow2 (last_bit x) <= x ->
  inject_Z m * pow2 (last_bit x) <= to_double_pos x.
Proof.
  intros H. rewrite to_double_pos_eq.
  apply Qmult_le_compat_r; [| apply Qlt_le_weak, pow2_pos].
  rewrite <- Zle_Qle. rewrite <- (round_half_even_Z m).
  apply round_half_even_mono. apply div_pow2_ge. exact H.
Qed.

Lemma to_double_pos_nonneg (x : Q) : 0 < x -> 0 <= to_double_pos x.
Proof.
  intros Hx.
  assert (H : inject_Z 0 * pow2 (last_bit x) <= to_double_pos x).
  { apply to_double_pos_above. change (inject_Z 0) with 0. lra. }
  change (inject_Z 0) with 0 in H. lra.
Qed.

Lemma to_double_pos_mono (x y : Q) :
  0 < x -> x <= y -> to_double_pos x <= to_double_pos y.
Proof.
  intros Hx Hxy.
  assert (Hy : 0 < y) by lra.
  pose proof (log2_floor_mono x y Hx Hxy) as HL.
  destruct (Z.eq_dec (last_bit x) (last_bit y)) as [He | He].
  - rewrite !to_double_pos_eq. rewrite He.
    apply Qmult_le_compat_r; [| apply Qlt_le_weak, pow2_pos].
    rewrite <- Zle_Qle. apply round_half_even_mono.
    pose proof (pow2_pos (last_bit y)) as Hp.
    apply Qle_shift_div_l; [exact Hp |].
    assert (Hx' : x == x / pow2 (last_bit y) * pow2 (last_bit y)) by (field; lra).
    lra.
  - (* the power of two between them is a multiple of both last bits *)
    assert (Hlt : (last_bit x < last_bit y)%Z) by (unfold last_bit in *; lia).
    assert (Hey : last_bit y = (log2_floor y - 52)%Z) by (unfold last_bit in *; lia).
    assert (HLlt : (log2_floor x + 1 <= log2_floor y)%Z) by (unfold last_bit in *; lia).
    destruct (log2_floor_spec x Hx) as [_ Hxhi].
    destruct (log2_floor_spec y Hy) as [Hylo _].
    pose proof (pow2_le _ _ HLlt) as Hmid.
    set (t := pow2 (log2_floor y)) in *.
    assert (Htx : t == inject_Z (2 ^ (log2_floor y - last_bit x)) * pow2 (last_bit x)).
    { rewrite <- pow2_nonneg_Z by lia. rewrite <- pow2_plus.
      unfold t. replace (log2_floor y - last_bit x + last_bit x)%Z
        with (log2_floor y) by lia. reflexivity. }
    assert (Hty : t == inject_Z (2 ^ (log2_floor y - last_bit y)) * pow2 (last_bit y)).
    { rewrite <- pow2_nonneg_Z by lia. rewrite <- pow2_plus.
      unfold t. replace (log2_floor y - last_bit y + last_bit y)%Z
        with (log2_floor y) by lia. reflexivity. }
    assert (H1 : to_double_pos x <= t).
    { rewrite Htx. apply to_double_pos_below. rewrite <- Htx. lra. }
    assert (H2 : t <= to_double_pos y).
    { rewrite Hty. apply to_double_pos_above. rewrite <- Hty. lra. }
    lra.
Qed.

Lemma to_double_pos_error (x : Q) :
  0 < x -> x - half_ulp x <= to_double_pos x <= x + half_ulp x.
Proof.
  intros Hx. rewrite to_double_pos_eq. unfold half_ulp.
  set (e := last_bit x).
  pose proof (pow2_pos e) as Hp.
  pose proof (round_half_even_bounds (x / pow2 e)) as [Hlo Hhi].
  assert (Hxe : x / pow2 e * pow2 e == x) by (field; lra).
  assert (He : pow2 e * (1 # 2) <= x * pow2 (-53) + pow2 (-1075)).
  { destruct (log2_floor_spec x Hx) as [HL _].
    pose proof (pow2_pos (-53)) as H53. pose proof (pow2_pos (-1075)) as H1075.
    pose proof (pow2_pos (log2_floor x)) as HLp.
    destruct (Z.max_spec (-1074) (log2_floor x - 52)) as [[_ Hm] | [_ Hm]];
      fold (last_bit x) in Hm; fold e in Hm; rewrite Hm.
    - replace (log2_floor x - 52)%Z with (log2_floor x + (-53) + 1)%Z by lia.
      rewrite !pow2_plus. change (pow2 1) with 2.
      assert (pow2 (log2_floor x) * pow2 (-53) <= x * pow2 (-53)).
      { apply Qmult_le_compat_r; lra. }
      nra.
    - replace (-1074)%Z with (-1075 + 1)%Z by lia.
      rewrite pow2_plus. change (pow2 1) with 2.
      assert (0 <= x * pow2 (-53)) by (apply Qmult_le_0_compat; lra).
      lra. }
  set (m := inject_Z (round_half_even (x / pow2 e))) in *.
  assert (H1 : (x / pow2 e - (1 # 2)) * pow2 e <= m * pow2 e).
  { apply Qmult_le_compat_r; lra. }
  assert (H2 : m * pow2 e <= (x / pow2 e + (1 # 2)) * pow2 e).
  { apply Qmult_le_compat_r; lra. }
  split; nra.
Qed.

(** A multiple of a power of two whose significand fits 53 bits is a
    double. *)
Lemma to_double_pos_exact (z k : Z) :
  (0 < z <= 2 ^ 53)%Z -> (-1074 <= k)%Z ->
  to_double_pos (inject_Z z * pow2 k) == inject_Z z * pow2 k.
Proof.
  intros Hz Hk. set (x := inject_Z z * pow2 k).
  pose proof (pow2_pos k) as Hpk.
  assert (Hzq : 0 < inject_Z z) by (rewrite <- (Zlt_Qlt 0); lia).
  assert (Hx : 0 < x) by (unfold x; apply Qmult_lt_0_compat; assumption).
  assert (Hint : exists n, x / pow2 (last_bit x) == inject_Z n).
  { destruct (Z.eq_dec z (2 ^ 53)%Z) as [Hz53 | Hz53].
    - assert (HL : log2_floor x = (53 + k)%Z).
      { apply log2_floor_unique.
        - unfold x. rewrite Hz53. rewrite <- pow2_nonneg_Z by lia.
          rewrite <- pow2_plus. lra.
        - unfold x. rewrite Hz53. rewrite <- pow2_nonneg_Z by lia.
          rewrite <- pow2_plus.
          apply Qpower_lt_compat_l; [lia | reflexivity]. }
      assert (He : last_bit x = (k + 1)%Z) by (unfold last_bit; lia).
      exists (2 ^ 52)%Z. rewrite He.
      apply Qeq_sym. 
      assert (Hgoal : x == inject_Z (2 ^ 52) * pow2 (k + 1)).
      { unfold x. rewrite Hz53. rewrite <- !pow2_nonneg_Z by lia.
        rewrite <- !pow2_plus. replace (52 + (k + 1))%Z with (53 + k)%Z by lia.
        reflexivity. }
      pose proof (pow2_pos (k + 1)) as Hp1.
      rewrite Hgoal. field. lra.
    - assert (HL : (log2_floor x <= 52 + k)%Z).
      { destruct (log2_floor_spec x Hx) as [Hlo _].
        assert (Hlt : x < pow2 (53 + k)).
        { unfold x. rewrite pow2_plus. apply Qmult_lt_compat_r; [exact Hpk |].
          rewrite pow2_nonneg_Z by lia. rewrite <- Zlt_Qlt. lia. }
        assert (H : pow2 (log2_floor x) < pow2 (53 + k)) by lra.
        apply pow2_lt_inv in H. lia. }
      assert (He : (last_bit x <= k)%Z) by (unfold last_bit; lia).
      revert He. generalize (last_bit x). intros e He.
      exists (z * 2 ^ (k - e))%Z.
      rewrite inject_Z_mult. rewrite <- pow2_nonneg_Z by lia.
      pose proof (pow2_pos e) as Hp.
      assert (Hk' : pow2 k == pow2 (k - e) * pow2 e).
      { rewrite <- pow2_plus. replace (k - e + e)%Z with k by lia.
        reflexivity. }
      unfold x. rewrite Hk'. field. lra. }
  destruct Hint as [n Hn].
  rewrite to_double_pos_eq.
  assert (Hr : round_half_even (x / pow2 (last_bit x)) = n).
  { rewrite <- (round_half_even_Z n).
    apply Z.le_antisymm; apply round_half_even_mono; rewrite Hn; lra. }
  rewrite Hr. rewrite <- Hn. field.
  pose proof (pow2_pos (last_bit x)). lra.
Qed.


Lemma to_double_pos_Proper (x y : Q) :
  0 < x -> x == y -> to_double_pos x == to_double_pos y.
Proof.
  intros Hx Hxy. apply Qle_antisym; apply to_double_pos_mono; lra.
Qed.

(** The three cases of [to_double]. *)
Lemma to_double_zero (x : Q) : x == 0 -> to_double x = 0.
Proof.
  intros H. unfold to_double. apply Qeq_bool_iff in H. rewrite H. reflexivity.
Qed.

Lemma to_double_positive (x : Q) : 0 < x -> to_double x = to_double_pos x.
Proof.
  intros H. unfold to_double.
  destruct (Qeq_bool x 0) eqn:E.
  - apply Qeq_bool_iff in E. lra.
  - apply Qlt_bool_iff in H. rewrite H. reflexivity.
Qed.

Lemma to_double_negative (x : Q) : x < 0 -> to_double x = - to_double_pos (- x).
Proof.
  intros H. unfold to_double.
  destruct (Qeq_bool x 0) eqn:E.
  - apply Qeq_bool_iff in E. lra.
  - destruct (Qlt_bool 0 x) eqn:E2; [| reflexivity].
    apply Qlt_bool_iff in E2. lra.
Qed.

Lemma Q_sign (x : Q) : x < 0 \/ x == 0 \/ 0 < x.
Proof.
  destruct (Qlt_le_dec x 0) as [H | H]; [left; exact H |].
  destruct (Qlt_le_dec 0 x) as [H' | H']; [right; right; exact H' |].
  right; left. lra.
Qed.

Lemma to_double_nonneg (x : Q) : 0 <= x -> 0 <= to_double x.
Proof.
  intros H. destruct (Q_sign x) as [Hs | [Hs | Hs]]; [lra | |].
  - rewrite (to_double_zero x Hs). lra.
  - rewrite (to_double_positive x Hs). apply to_double_pos_nonneg. exact Hs.
Qed.

Lemma to_double_nonpos (x : Q) : x <= 0 -> to_double x <= 0.
Proof.
  intros H. destruct (Q_sign x) as [Hs | [Hs | Hs]]; [| | lra].
  - rewrite (to_double_negative x Hs).
    assert (0 <= to_double_pos (- x)) by (apply to_double_pos_nonneg; lra). lra.
  - rewrite (to_double_zero x Hs). lra.
Qed.

(** Rounding is monotone. *)
Lemma to_double_mono (x y : Q) : x <= y -> to_double x <= to_double y.
Proof.
  intros Hxy.
  destruct (Q_sign x) as [Hx | [Hx | Hx]].
  - destruct (Qlt_le_dec y 0) as [Hy | Hy].
    + rewrite (to_double_negative x Hx), (to_double_negative y Hy).
      assert (to_double_pos (- y) <= to_double_pos (- x)).
      { apply to_double_pos_mono; lra. }
      lra.
    + pose proof (to_double_nonpos x). pose proof (to_double_nonneg y Hy). lra.
  - rewrite (to_double_zero x Hx). apply to_double_nonneg. lra.
  - rewrite (to_double_positive x Hx), (to_double_positive y) by lra.
    apply to_double_pos_mono; assumption.
Qed.

Lemma to_double_Proper : Proper (Qeq ==> Qeq) to_double.
Proof.
  intros x y Hxy. apply Qle_antisym; apply to_double_mono; lra.
Qed.

#[global] Existing Instance to_double_Proper.

Lemma to_double_opp (x : Q) : to_double (- x) == - to_double x.
Proof.
  destruct (Q_sign x) as [Hx | [Hx | Hx]].
  - rewrite (to_double_negative x Hx). rewrite (to_double_positive (- x)) by lra. lra.
  - rewrite (to_double_zero x Hx). rewrite (to_double_zero (- x)) by lra. lra.
  - rewrite (to_double_positive x Hx). rewrite (to_double_negative (- x)) by lra.
    rewrite (to_double_pos_Proper (- - x) x); lra.
Qed.

(** Doubles: the multiples of a power of two, from the exponent -1074 on,
    whose significand fits 53 bits. Rounding keeps them. *)
Lemma to_double_exact (z k : Z) :
  (Z.abs z <= 2 ^ 53)%Z -> (-1074 <= k)%Z ->
  to_double (inject_Z z * pow2 k) == inject_Z z * pow2 k.
Proof.
  intros Hz Hk. pose proof (pow2_pos k) as Hp.
  destruct (Z.lt_trichotomy z 0) as [Hs | [Hs | Hs]].
  - assert (Hneg : inject_Z z * pow2 k == - (inject_Z (- z) * pow2 k)).
    { rewrite inject_Z_opp. ring. }
    rewrite Hneg. rewrite to_double_opp.
    assert (Hzq : 0 < inject_Z (- z)) by (rewrite <- (Zlt_Qlt 0); lia).
    rewrite to_double_positive by (apply Qmult_lt_0_compat; assumption).
    rewrite to_double_pos_exact by lia. reflexivity.
  - subst z. rewrite to_double_zero by (change (inject_Z 0) with 0; ring).
    change (inject_Z 0) with 0; ring.
  - assert (Hzq : 0 < inject_Z z) by (rewrite <- (Zlt_Qlt 0); lia).
    rewrite to_double_positive by (apply Qmult_lt_0_compat; assumption).
    apply to_double_pos_exact; lia.
Qed.

Lemma to_double_Z (z : Z) :
  (Z.abs z <= 2 ^ 53)%Z -> to_double (inject_Z z) == inject_Z z.
Proof.
  intros Hz.
  assert (H : inject_Z z == inject_Z z * pow2 0) by (change (pow2 0) with 1; ring).
  rewrite H at 1. rewrite to_double_exact by lia. rewrite <- H. reflexivity.
Qed.

(** What rounding returns is a double. *)
Lemma to_double_pos_is_double (x : Q) :
  0 < x ->
  exists z, (0 <= z <= 2 ^ 53)%Z
    /\ to_double_pos x == inject_Z z * pow2 (last_bit x).
Proof.
  intros Hx. exists (round_half_even (x / pow2 (last_bit x))).
  split; [| apply to_double_pos_eq].
  pose proof (pow2_pos (last_bit x)) as Hp.
  split.
  - apply round_half_even_nonneg. apply Qle_shift_div_l; [exact Hp | lra].
  - rewrite <- (round_half_even_Z (2 ^ 53)). apply round_half_even_mono.
    apply div_pow2_le.
    destruct (log2_floor_spec x Hx) as [_ Hhi].
    assert (Hle : pow2 (log2_floor x + 1) <= pow2 (53 + last_bit x)).
    { apply pow2_le. unfold last_bit. lia. }
    assert (H53 : pow2 (53 + last_bit x) == inject_Z (2 ^ 53) * pow2 (last_bit x)).
    { rewrite pow2_plus. rewrite (pow2_nonneg_Z 53) by lia. reflexivity. }
    rewrite <- H53. lra.
Qed.

Lemma to_double_idempotent (x : Q) : to_double (to_double x) == to_double x.
Proof.
  assert (Hpos : forall y, 0 < y -> to_double (to_double_pos y) == to_double_pos y).
  { intros y Hy. destruct (to_double_pos_is_double y Hy) as (z & Hz & Heq).
    rewrite Heq. apply to_double_exact; [lia | unfold last_bit; lia]. }
  destruct (Q_sign x) as [Hx | [Hx | Hx]].
  - rewrite (to_double_negative x Hx). rewrite to_double_opp.
    rewrite Hpos by lra. reflexivity.
  - rewrite (to_double_zero x Hx). reflexivity.
  - rewrite (to_double_positive x Hx). apply Hpos. exact Hx.
Qed.

(** The error of rounding a non-negative number. *)
Lemma to_double_error (x : Q) :
  0 <= x -> x - half_ulp x <= to_double x <= x + half_ulp x.
Proof.
  intros H. destruct (Q_sign x) as [Hx | [Hx | Hx]]; [lra | |].
  - rewrite (to_double_zero x Hx). unfold half_ulp.
    pose proof (pow2_pos (-1075)). pose proof (pow2_pos (-53)).
    rewrite Hx. split; lra.
  - rewrite (to_double_positive x Hx). apply to_double_pos_error. exact Hx.
Qed.


(** The operations on non-negative numbers. *)
Lemma double_add_nonneg (x y : Q) : 0 <= x -> 0 <= y -> 0 <= double_add x y.
Proof.
  intros Hx Hy. unfold double_add. apply to_double_nonneg.
  pose proof (to_double_nonneg x Hx). pose proof (to_double_nonneg y Hy). lra.
Qed.

Lemma double_mul_nonneg (x y : Q) : 0 <= x -> 0 <= y -> 0 <= double_mul x y.
Proof.
  intros Hx Hy. unfold double_mul. apply to_double_nonneg.
  apply Qmult_le_0_compat; apply to_double_nonneg; assumption.
Qed.

Lemma to_double_100 : to_double 100 == 100.
Proof. apply (to_double_Z 100). vm_compute. discriminate. Qed.

Lemma double_sub_100_le (y : Q) : 0 <= y -> double_sub 100 y <= 100.
Proof.
  intros Hy. unfold double_sub.
  pose proof (to_double_nonneg y Hy) as H.
  pose proof (to_double_idempotent 100) as Hi. pose proof to_double_100 as H100.
  assert (Hle : to_double 100 - to_double y <= to_double 100) by lra.
  apply to_double_mono in Hle. lra.
Qed.

(** The rounding error of a number between 0 and 256. *)
Lemma to_double_close (x : Q) :
  0 <= x <= 256 ->
  0 <= to_double x /\ - rounding_unit <= to_double x - x <= rounding_unit.
Proof.
  intros [Hlo Hhi]. split; [apply to_double_nonneg, Hlo |].
  pose proof (to_double_error x Hlo) as [He1 He2]. unfold half_ulp in *.
  assert (H53 : pow2 (-53) <= 1 # 9000000000000000) by (vm_compute; discriminate).
  assert (H1075 : pow2 (-1075) <= 1 # 1000000000000000000) by (vm_compute; discriminate).
  pose proof (pow2_pos (-53)) as Hp.
  assert (Hx : x * pow2 (-53) <= 256 * (1 # 9000000000000000)).
  { apply Qmult_le_compat_nonneg; split; lra. }
  unfold rounding_unit. split; lra.
Qed.

Lemma product_close (x x' y y' bx bY u : Q) :
  0 <= x <= bx -> 0 <= y' <= bY -> 0 <= u ->
  - u <= x' - x <= u -> - u <= y' - y <= u ->
  - ((bx + bY) * u) <= x' * y' - x * y <= (bx + bY) * u.
Proof.
  intros [Hx1 Hx2] [Hy1 Hy2] Hu [Hdx1 Hdx2] [Hdy1 Hdy2].
  assert (E : x' * y' - x * y == x * (y' - y) + y' * (x' - x)) by ring.
  rewrite E.
  assert (H1 : x * (y' - y) <= bx * u).
  { destruct (Qlt_le_dec (y' - y) 0).
    - assert (x * (y' - y) <= 0) by nra. assert (0 <= bx * u) by nra. lra.
    - apply Qmult_le_compat_nonneg; split; lra. }
  assert (H2 : - (bx * u) <= x * (y' - y)).
  { assert (x * (y - y') <= bx * u).
    { destruct (Qlt_le_dec (y - y') 0).
      - assert (x * (y - y') <= 0) by nra. assert (0 <= bx * u) by nra. lra.
      - apply Qmult_le_compat_nonneg; split; lra. }
    lra. }
  assert (H3 : y' * (x' - x) <= bY * u).
  { destruct (Qlt_le_dec (x' - x) 0).
    - assert (y' * (x' - x) <= 0) by nra. assert (0 <= bY * u) by nra. lra.
    - apply Qmult_le_compat_nonneg; split; lra. }
  assert (H4 : - (bY * u) <= y' * (x' - x)).
  { assert (y' * (x - x') <= bY * u).
    { destruct (Qlt_le_dec (x - x') 0).
      - assert (y' * (x - x') <= 0) by nra. assert (0 <= bY * u) by nra. lra.
      - apply Qmult_le_compat_nonneg; split; lra. }
    lra. }
  split; lra.
Qed.

(** A product of the final score: a score between 0 and 100 times a weight
    between 0 and 1. *)
Lemma double_mul_close (a w : Q) :
  0 <= a <= 100 -> 0 <= w <= 1 ->
  0 <= double_mul a w <= 101
  /\ - (103 * rounding_unit) <= double_mul a w - a * w <= 103 * rounding_unit.
Proof.
  intros Ha Hw. unfold double_mul.
  destruct (to_double_close a) as [HA0 HA]; [lra |].
  destruct (to_double_close w) as [HW0 HW]; [lra |].
  assert (Hu : 0 <= rounding_unit) by (unfold rounding_unit; lra).
  assert (HWb : to_double w <= 2) by (unfold rounding_unit in *; lra).
  pose proof (product_close a (to_double a) w (to_double w) 100 2 rounding_unit) as HP.
  destruct HP as [HP1 HP2]; try lra.
  assert (Haw : 0 <= a * w <= 100).
  { split; [nra |]. assert (a * w <= 100 * 1); [| lra].
    apply Qmult_le_compat_nonneg; split; lra. }
  assert (Hprod : 0 <= to_double a * to_double w) by (apply Qmult_le_0_compat; lra).
  destruct (to_double_close (to_double a * to_double w)) as [HP0 HPe].
  { unfold rounding_unit in *. lra. }
  unfold rounding_unit in *. split; split; lra.
Qed.

Lemma weighted_sum_close (a s c wa ws wc : Q) :
  0 <= a <= 100 -> 0 <= s <= 100 -> 0 <= c <= 100 ->
  0 <= wa -> 0 <= ws -> 0 <= wc -> wa + ws + wc <= 1 ->
  let d := double_add (double_add (double_mul a wa) (double_mul s ws))
             (double_mul c wc) in
  0 <= d
  /\ - rounding_tolerance <= d - (a * wa + s * ws + c * wc) <= rounding_tolerance.
Proof.
  intros Ha Hs Hc Hwa Hws Hwc Hsum d.
  destruct (double_mul_close a wa) as [[Pa0 Pab] Pae]; [lra | lra |].
  destruct (double_mul_close s ws) as [[Ps0 Psb] Pse]; [lra | lra |].
  destruct (double_mul_close c wc) as [[Pc0 Pcb] Pce]; [lra | lra |].
  assert (Haw : 0 <= a * wa <= 100 * wa).
  { split; [apply Qmult_le_0_compat; lra | apply Qmult_le_compat_r; lra]. }
  assert (Hsw : 0 <= s * ws <= 100 * ws).
  { split; [apply Qmult_le_0_compat; lra | apply Qmult_le_compat_r; lra]. }
  assert (Hcw : 0 <= c * wc <= 100 * wc).
  { split; [apply Qmult_le_0_compat; lra | apply Qmult_le_compat_r; lra]. }
  set (pa := double_mul a wa) in *. set (ps := double_mul s ws) in *.
  set (pc := double_mul c wc) in *.
  assert (Hpa : to_double pa == pa) by (apply to_double_idempotent).
  assert (Hps : to_double ps == ps) by (apply to_double_idempotent).
  assert (Hpc : to_double pc == pc) by (apply to_double_idempotent).
  assert (Hd : d == to_double (to_double (pa + ps) + pc)).
  { unfold d, double_add. rewrite Hpa, Hps, Hpc.
    rewrite (to_double_idempotent (pa + ps)). reflexivity. }
  destruct (to_double_close (pa + ps)) as [S0 Se]; [unfold rounding_unit in *; lra |].
  destruct (to_double_close (to_double (pa + ps) + pc)) as [D0 De].
  { unfold rounding_unit in *. lra. }
  rewrite Hd. unfold rounding_unit, rounding_tolerance in *.
  split; [exact D0 |]. split; lra.
Qed.

(** The model against the floats of the proof assistant, on the numbers of
    the worked cases: the weights and the products and sums of the final
    score, a product and a difference of the recruiter scorer, a tie between
    two doubles, and a subnormal. *)
#[warnings="-inexact-float"]
Lemma double_arithmetic_matches_binary64 :
  to_double 0.35 = float_value 0.35
  /\ double_mul 85 0.35 = float_value (85 * 0.35)
  /\ double_mul 10 0.3 = float_value (10 * 0.3)
  /\ double_add (double_add (double_mul 85 0.35) (double_mul 85 0.35))
       (double_mul 10 0.3)
     = float_value (85 * 0.35 + 85 * 0.35 + 10 * 0.3)
  /\ double_add (double_add (double_mul 98 0.45) (double_mul 96 0.35))
       (double_mul 99 0.2)
     = float_value (98 * 0.45 + 96 * 0.35 + 99 * 0.2)
  /\ double_add (double_add (double_mul 90 0.4) (double_mul 85 0.4))
       (double_mul 70 0.2)
     = float_value (90 * 0.4 + 85 * 0.4 + 70 * 0.2)
  /\ double_mul 3 0.1 = float_value (3 * 0.1)
  /\ double_sub 100 (double_mul 3 0.1) = float_value (100 - 3 * 0.1)
  /\ double_add 9007199254740992 1 = float_value (9007199254740992 + 1)
  /\ double_add 9007199254740994 1 = float_value (9007199254740994 + 1)
  /\ double_mul (1 # 10 ^ 320) 0.3 = float_value (1e-320 * 0.3).
Proof. vm_compute. repeat split. Qed.

(** ** Bucket lookup *)

Lemma in_bucket_iff (count : Q) (b : ErrorBucket) :
  in_bucket count b = true <-> in_range count b.
Proof.
  unfold in_bucket, in_range.
  rewrite andb_true_iff, !Qle_bool_iff. tauto.
Qed.

Lemma in_bucket_false_iff (count : Q) (b : ErrorBucket) :
  in_bucket count b = false <-> ~ in_range count b.
Proof.
  rewrite <- not_true_iff_false, in_bucket_iff. tauto.
Qed.

Lemma scan_buckets_none (count : Q) (buckets : list ErrorBucket) :
  scan_buckets count buckets = None <->
  Forall (fun b => ~ in_range count b) buckets.
Proof.
  induction buckets as [| b rest IH]; simpl.
  - split; [constructor | reflexivity].
  - destruct (in_bucket count b) eqn:Hb.
    + split; [discriminate |].
      intros Hall. inversion Hall as [| ? ? Hnot _]; subst.
      apply in_bucket_iff in Hb. contradiction.
    + rewrite IH. apply in_bucket_false_iff in Hb.
      split; [intros Hrest; constructor; assumption |].
      intros Hall. inversion Hall; assumption.
Qed.

Lemma scan_buckets_first (count : Q) (pre post : list ErrorBucket) (b : ErrorBucket) :
  Forall (fun b' => ~ in_range count b') pre ->
  in_range count b ->
  scan_buckets count (pre ++ b :: post) = Some (deduction b).
Proof.
  intros Hpre Hb. induction Hpre as [| b' pre' Hnot _ IH]; simpl.
  - apply in_bucket_iff in Hb. rewrite Hb. reflexivity.
  - apply in_bucket_false_iff in Hnot. rewrite Hnot. exact IH.
Qed.

Lemma findDeductionForCount_zero (count : Q) (buckets : list ErrorBucket) :
  count == 0 -> findDeductionForCount count buckets = 0.
Proof.
  intros H0. unfold findDeductionForCount.
  apply Qeq_bool_iff in H0. rewrite H0. reflexivity.
Qed.

(** C4: [findDeductionForCount] returns 0 for a zero count, whatever the
    buckets; for a non-zero count it returns the deduction of the first
    bucket, in list order, whose range [min..max] holds the count; when no
    bucket holds the count and the count is above the [max] of the last
    bucket it returns the deduction of the last bucket; and it returns 0 on
    an empty bucket list. *)
Theorem findDeductionForCount_spec :
  (forall count buckets,
      count == 0 -> findDeductionForCount count buckets = 0) /\
  (forall count pre b post,
      ~ count == 0 ->
      Forall (fun b' => ~ in_range count b') pre ->
      in_range count b ->
      findDeductionForCount count (pre ++ b :: post) = deduction b) /\
  (forall count init lb,
      ~ count == 0 ->
      Forall (fun b => ~ in_range count b) (init ++ [lb]) ->
      max lb < count ->
      findDeductionForCount count (init ++ [lb]) = deduction lb) /\
  (forall count, findDeductionForCount count [] = 0).
Proof.
  split; [exact findDeductionForCount_zero |].
  split; [| split].
  - intros count pre b post Hnz Hpre Hb. unfold findDeductionForCount.
    apply Qeq_bool_false_iff in Hnz. rewrite Hnz.
    rewrite (scan_buckets_first count pre post b Hpre Hb). reflexivity.
  - intros count init lb Hnz Hall Hgt. unfold findDeductionForCount.
    apply Qeq_bool_false_iff in Hnz. rewrite Hnz.
    apply scan_buckets_none in Hall. rewrite Hall.
    rewrite last_snoc. apply Qlt_bool_iff in Hgt. rewrite Hgt. reflexivity.
  - intros count. unfold findDeductionForCount.
    destruct (Qeq_bool count 0); reflexivity.
Qed.

(** The four cases of C4 on the buckets of the default rubric: a zero count,
    a count in the second bucket, a count above every bucket, no bucket. *)
Lemma findDeductionForCount_spec_witness :
  findDeductionForCount 0 default_buckets = 0 /\
  findDeductionForCount 4 default_buckets = 10 /\
  findDeductionForCount 1000 default_buckets = 20 /\
  findDeductionForCount 4 [] = 0.
Proof.
  destruct findDeductionForCount_spec as (Hzero & Hfirst & Hlast & Hempty).
  split; [apply Hzero; reflexivity |].
  split; [| split].
  - apply (Hfirst 4 [mkErrorBucket 1 2 5] (mkErrorBucket 3 5 10)
             [mkErrorBucket 6 999 20]).
    + discriminate.
    + repeat constructor. unfold in_range; simpl. intros [_ H]. apply H. reflexivity.
    + unfold in_range; simpl. split; discriminate.
  - apply (Hlast 1000 [mkErrorBucket 1 2 5; mkErrorBucket 3 5 10]
             (mkErrorBucket 6 999 20)).
    + discriminate.
    + repeat constructor; unfold in_range; simpl; intros [_ H]; apply H; reflexivity.
    + reflexivity.
  - apply Hempty.
Defined.

(** C10: a non-zero count that no bucket holds and that is not above the
    [max] of the last bucket (below the first bucket, in a gap between two
    buckets, or negative) gets the deduction 0. *)
Theorem findDeductionForCount_unmatched (count : Q) (buckets : list ErrorBucket) :
  ~ count == 0 ->
  Forall (fun b => ~ in_range count b) buckets ->
  (forall lb, last buckets = Some lb -> count <= max lb) ->
  findDeductionForCount count buckets = 0.
Proof.
  intros Hnz Hall Hmax. unfold findDeductionForCount.
  apply Qeq_bool_false_iff in Hnz. rewrite Hnz.
  apply scan_buckets_none in Hall. rewrite Hall.
  destruct (last buckets) as [lb |] eqn:Hlast; [| reflexivity].
  specialize (Hmax lb eq_refl). apply Qlt_bool_false_iff in Hmax.
  rewrite Hmax. reflexivity.
Qed.

Lemma not_in_range_by_bool (count : Q) (b : ErrorBucket) :
  in_bucket count b = false -> ~ in_range count b.
Proof. apply in_bucket_false_iff. Qed.

(** C10 at a count in the gap, a count below the first bucket and a negative
    count. *)
Lemma findDeductionForCount_unmatched_witness :
  findDeductionForCount 3 gapped_buckets = 0 /\
  findDeductionForCount (1 # 2) gapped_buckets = 0 /\
  findDeductionForCount (-2) gapped_buckets = 0.
Proof.
  split; [| split]; apply findDeductionForCount_unmatched;
    try discriminate;
    try (repeat constructor; apply not_in_range_by_bool; reflexivity);
    intros lb Hlb; injection Hlb as <-; discriminate.
Defined.

(** ** Tiered penalty lookup *)

Lemma defined_is_Some (o : option Q) : defined o = true <-> is_Some o.
Proof.
  destruct o as [p |]; simpl.
  - split; [eauto | reflexivity].
  - split; [discriminate | intros [p Hp]; discriminate].
Qed.

(** C5: [findTieredPenalty] returns 0 for a zero count, [tiers["1"]] for the
    count 1 when that key is present, [tiers["2+"]] for a count of 2 or more
    when that key is present, and 0 in every other case; on the tiers
    [{"1": 5, "2+": 10}] the counts 1, 2, 7 and 0 give 5, 10, 10 and 0. *)
Theorem findTieredPenalty_spec :
  (forall count tiers, count == 0 -> findTieredPenalty count tiers = 0) /\
  (forall count tiers p,
      count == 1 -> tiers !! "1" = Some p -> findTieredPenalty count tiers = p) /\
  (forall count tiers p,
      2 <= count -> tiers !! "2+" = Some p -> findTieredPenalty count tiers = p) /\
  (forall count tiers,
      ~ (count == 1 /\ is_Some (tiers !! "1")) ->
      ~ (2 <= count /\ is_Some (tiers !! "2+")) ->
      findTieredPenalty count tiers = 0) /\
  findTieredPenalty 1 example_tiers = 5 /\
  findTieredPenalty 2 example_tiers = 10 /\
  findTieredPenalty 7 example_tiers = 10 /\
  findTieredPenalty 0 example_tiers = 0.
Proof.
  split; [| split; [| split; [| split]]].
  - intros count tiers H0. unfold findTieredPenalty.
    apply Qeq_bool_iff in H0. rewrite H0. reflexivity.
  - intros count tiers p H1 Hp. unfold findTieredPenalty.
    assert (Hnz : Qeq_bool count 0 = false)
      by (apply Qeq_bool_false_iff; intros H0; rewrite H0 in H1; discriminate).
    apply Qeq_bool_iff in H1. rewrite Hnz, H1, Hp. reflexivity.
  - intros count tiers p H2 Hp. unfold findTieredPenalty.
    assert (Hnz : Qeq_bool count 0 = false)
      by (apply Qeq_bool_false_iff; intros H0; rewrite H0 in H2; apply H2; reflexivity).
    assert (Hn1 : Qeq_bool count 1 = false)
      by (apply Qeq_bool_false_iff; intros H1; rewrite H1 in H2; apply H2; reflexivity).
    apply Qle_bool_iff in H2. rewrite Hnz, Hn1, H2, Hp. reflexivity.
  - intros count tiers Hn1 Hn2. unfold findTieredPenalty.
    destruct (Qeq_bool count 0); [reflexivity |].
    destruct (Qeq_bool count 1 && defined (tiers !! "1")) eqn:Hone.
    { exfalso. apply Hn1. apply andb_true_iff in Hone as [Hc Hd].
      split; [apply Qeq_bool_iff, Hc | apply defined_is_Some, Hd]. }
    destruct (Qle_bool 2 count && defined (tiers !! "2+")) eqn:Htwo.
    { exfalso. apply Hn2. apply andb_true_iff in Htwo as [Hc Hd].
      split; [apply Qle_bool_iff, Hc | apply defined_is_Some, Hd]. }
    reflexivity.
  - repeat split; vm_compute; reflexivity.
Qed.

(** C5 at the default rubric's EDA tiers, and at a count (3/2) and at tiers
    (one key only) that fall through to 0. *)
Lemma findTieredPenalty_spec_witness :
  findTieredPenalty 0 (eda_penalty (recruiter_rules DEFAULT_RUBRIC_V1)) = 0 /\
  findTieredPenalty 1 (eda_penalty (recruiter_rules DEFAULT_RUBRIC_V1)) = 40 /\
  findTieredPenalty 3 (eda_penalty (recruiter_rules DEFAULT_RUBRIC_V1)) = 80 /\
  findTieredPenalty (3 # 2) example_tiers = 0 /\
  findTieredPenalty 1 (list_to_map [ ("2+", 80) ]) = 0.
Proof.
  destruct findTieredPenalty_spec as (Hzero & Hone & Htwo & Helse & _).
  split; [apply Hzero; reflexivity |].
  split; [apply Hone; reflexivity |].
  split; [apply Htwo; [discriminate | reflexivity] |].
  split; apply Helse; intros [Hc Hd].
  - discriminate Hc.
  - apply Hc. reflexivity.
  - destruct Hd as [p Hp]. vm_compute in Hp. discriminate Hp.
  - apply Hc. reflexivity.
Defined.

(** ** Category scorers: the accumulators *)

Lemma fold_left_preserves {A B : Type} (P : A -> Prop) (f : A -> B -> A)
  (l : list B) (a : A) :
  P a -> (forall a' b, P a' -> P (f a' b)) -> P (List.fold_left f l a).
Proof.
  intros Ha Hstep. revert a Ha.
  induction l as [| b l IH]; intros a Ha; simpl; [exact Ha |].
  apply IH, Hstep, Ha.
Qed.

(** A loop whose body pushes [entry b] when [keep b] holds, and does nothing
    otherwise, appends the entries of the kept elements in order. *)
Lemma fold_left_push {B : Type} (keep : B -> bool) (entry : B -> Deduction)
  (l : list B) (acc : Acc) :
  fst (List.fold_left (fun a b => if keep b then push a (entry b) else a) l acc)
  = (fst acc ++ List.map entry (List.filter keep l))%list.
Proof.
  revert acc. induction l as [| b l IH]; intros acc; simpl.
  - rewrite app_nil_r. reflexivity.
  - rewrite IH. destruct (keep b); simpl; [| reflexivity].
    rewrite <- app_assoc. reflexivity.
Qed.

Lemma finish_range (acc : Acc) :
  0 <= score (finish acc) /\ (0 <= snd acc -> score (finish acc) <= 100).
Proof.
  unfold finish, Math_max; simpl. split.
  - apply Q.le_max_l.
  - intros Hpos. apply Q.max_lub; [lra | apply double_sub_100_le, Hpos].
Qed.

Lemma push_total_nonneg (acc : Acc) (d : Deduction) :
  0 <= snd acc -> 0 <= deduction_points d -> 0 <= snd (push acc d).
Proof. unfold push; simpl. apply double_add_nonneg. Qed.

(** ** Supervisor scorer *)

Lemma supervisor_total_nonneg payload rubric (ms : list SupervisorMetric) :
  0 <= snd (List.fold_left (supervisor_step payload rubric) ms ([], 0)).
Proof.
  apply (fold_left_preserves (fun acc : Acc => 0 <= snd acc)).
  - simpl. lra.
  - intros acc m Hacc. unfold supervisor_step.
    destruct (Qlt_bool 0 (supervisor_deduction payload rubric m)) eqn:Hpos;
      [| exact Hacc].
    apply Qlt_bool_iff in Hpos. apply push_total_nonneg; simpl; lra.
Qed.

Lemma supervisor_deductions_over payload rubric (ms : list SupervisorMetric) :
  result_deductions (supervisor_score_over ms payload rubric)
  = List.map (supervisor_entry payload rubric)
      (List.filter (supervisor_positive payload rubric) ms).
Proof.
  unfold supervisor_score_over, finish; simpl.
  exact (fold_left_push (supervisor_positive payload rubric)
           (supervisor_entry payload rubric) ms ([], 0)).
Qed.

(** ** Admin scorer *)

Lemma admin_step_positive (rubric : RubricV1) (acc : Acc) (entry : string * Q) :
  admin_step rubric acc entry
  = if admin_positive rubric entry
    then push acc (admin_entry (fst entry) (snd entry) (admin_deduction rubric entry))
    else acc.
Proof.
  destruct entry as [metric count].
  unfold admin_step, admin_positive, admin_deduction; simpl.
  destruct (metrics (admin_rules rubric) !! metric); reflexivity.
Qed.

Lemma admin_fold_positive (rubric : RubricV1) (entries : list (string * Q)) (acc : Acc) :
  List.fold_left (admin_step rubric) entries acc
  = List.fold_left
      (fun a e =>
         if admin_positive rubric e
         then push a (admin_entry (fst e) (snd e) (admin_deduction rubric e))
         else a) entries acc.
Proof.
  revert acc. induction entries as [| e entries IH]; intros acc; simpl;
    [reflexivity |].
  rewrite admin_step_positive. apply IH.
Qed.

Lemma admin_total_nonneg (rubric : RubricV1) (entries : list (string * Q)) :
  0 <= snd (List.fold_left (admin_step rubric) entries ([], 0)).
Proof.
  apply (fold_left_preserves (fun acc : Acc => 0 <= snd acc)).
  - simpl. lra.
  - intros acc e Hacc. rewrite admin_step_positive.
    destruct (admin_positive rubric e) eqn:Hpos; [| exact Hacc].
    apply Qlt_bool_iff in Hpos. apply push_total_nonneg; simpl; lra.
Qed.

Lemma admin_deductions_over (rubric : RubricV1) (entries : list (string * Q)) :
  result_deductions (admin_score_over entries rubric)
  = List.map
      (fun e => admin_entry (fst e) (snd e) (admin_deduction rubric e))
      (List.filter (admin_positive rubric) entries).
Proof.
  unfold admin_score_over, finish; simpl.
  rewrite admin_fold_positive.
  exact (fold_left_push (admin_positive rubric)
           (fun e => admin_entry (fst e) (snd e) (admin_deduction rubric e))
           entries ([], 0)).
Qed.

(** ** Recruiter scorer *)

Lemma recruiter_as_loop payload rubric :
  calculateRecruiterScore payload rubric
  = finish
      (List.fold_left
         (fun a r =>
            if recruiter_applies payload r
            then push a (recruiter_entry payload rubric r) else a)
         recruiter_rule_list ([], 0)).
Proof. reflexivity. Qed.

Lemma recruiter_deductions payload rubric :
  result_deductions (calculateRecruiterScore payload rubric)
  = List.map (recruiter_entry payload rubric)
      (List.filter (recruiter_applies payload) recruiter_rule_list).
Proof.
  rewrite recruiter_as_loop. unfold finish; simpl result_deductions.
  exact (fold_left_push (recruiter_applies payload)
           (recruiter_entry payload rubric) recruiter_rule_list ([], 0)).
Qed.

Lemma findTieredPenalty_nonneg (count : Q) (tiers : gmap string Q) :
  (forall k p, tiers !! k = Some p -> 0 <= p) ->
  0 <= findTieredPenalty count tiers.
Proof.
  intros Htiers. unfold findTieredPenalty.
  destruct (Qeq_bool count 0); [lra |].
  destruct (Qeq_bool count 1 && defined (tiers !! "1")).
  { destruct (tiers !! "1") as [p |] eqn:Hp; simpl; [eauto | lra]. }
  destruct (Qle_bool 2 count && defined (tiers !! "2+")).
  { destruct (tiers !! "2+") as [p |] eqn:Hp; simpl; [eauto | lra]. }
  lra.
Qed.

Lemma recruiter_entry_nonneg payload rubric (r : RecruiterRule) :
  nonneg_penalties (recruiter_rules rubric) ->
  recruiter_applies payload r = true ->
  0 <= deduction_points (recruiter_entry payload rubric r).
Proof.
  intros (Hper & Heda & Hret) Happ. apply Qlt_bool_iff in Happ.
  destruct r; simpl in *.
  - apply double_mul_nonneg; lra.
  - apply findTieredPenalty_nonneg, Heda.
  - apply findTieredPenalty_nonneg, Hret.
Qed.

Lemma recruiter_total_nonneg payload rubric :
  nonneg_penalties (recruiter_rules rubric) ->
  0 <= snd (List.fold_left
              (fun a r =>
                 if recruiter_applies payload r
                 then push a (recruiter_entry payload rubric r) else a)
              recruiter_rule_list ([], 0)).
Proof.
  intros Hrules. apply (fold_left_preserves (fun acc : Acc => 0 <= snd acc)).
  - simpl. lra.
  - intros acc r Hacc. destruct (recruiter_applies payload r) eqn:Happ;
      [| exact Hacc].
    apply push_total_nonneg; [exact Hacc |].
    apply recruiter_entry_nonneg; assumption.
Qed.

(** ** Range of the category scores *)

(** C1 fails as stated: with a per-training penalty of -15 and one overdue
    training the recruiter score is 115. *)
Lemma recruiter_score_above_100 :
  score (calculateRecruiterScore one_overdue_training rubric_negative_penalty) = 115 /\
  ~ (0 <= score (calculateRecruiterScore one_overdue_training rubric_negative_penalty)
     /\ score (calculateRecruiterScore one_overdue_training rubric_negative_penalty) <= 100).
Proof.
  split; [reflexivity |].
  intros [_ Hle]. vm_compute in Hle. apply Hle. reflexivity.
Qed.

(** C1, amended: for every rubric and payload the supervisor and the admin
    score lie in [0, 100]; the recruiter score is never below 0, and it is at
    most 100 whenever the penalties of the rubric's recruiter rules are
    non-negative. *)
Theorem category_scores_in_range :
  (forall payload rubric,
      0 <= score (calculateSupervisorScore payload rubric) <= 100) /\
  (forall payload rubric,
      0 <= score (calculateAdminScore payload rubric) <= 100) /\
  (forall payload rubric,
      0 <= score (calculateRecruiterScore payload rubric)) /\
  (forall payload rubric,
      nonneg_penalties (recruiter_rules rubric) ->
      score (calculateRecruiterScore payload rubric) <= 100).
Proof.
  split; [| split; [| split]].
  - intros payload rubric.
    unfold calculateSupervisorScore, supervisor_score_over.
    split; [apply finish_range | apply finish_range, supervisor_total_nonneg].
  - intros payload rubric. unfold calculateAdminScore, admin_score_over.
    split; [apply finish_range | apply finish_range, admin_total_nonneg].
  - intros payload rubric. rewrite recruiter_as_loop. apply finish_range.
  - intros payload rubric Hrules. rewrite recruiter_as_loop.
    apply finish_range, recruiter_total_nonneg, Hrules.
Qed.

Lemma default_penalties_nonneg :
  nonneg_penalties (recruiter_rules DEFAULT_RUBRIC_V1).
Proof.
  split; [discriminate |].
  split; intros k p Hk; simpl in Hk;
    repeat (apply lookup_insert_Some in Hk as [[_ <-] | [_ Hk]]; [discriminate |]);
    rewrite lookup_empty in Hk; discriminate.
Defined.

(** The amended C1 at the default rubric: twelve overdue trainings floor the
    recruiter score at 0, well inside the range. *)
Lemma category_scores_in_range_witness :
  score (calculateRecruiterScore
           {| overdue_trainings := 12; retrainings := 1; edas_past_6_months := 2 |}
           DEFAULT_RUBRIC_V1) <= 100.
Proof.
  apply (proj2 (proj2 (proj2 category_scores_in_range))).
  exact default_penalties_nonneg.
Defined.

(** ** Entries of the deductions lists *)

(** C3 fails as stated: with one EDA and no tier for a single EDA the
    computed deduction is 0, the score stays 100, and the recruiter list
    still holds an entry for the metric, with 0 deduction points. In the
    other direction, a rating mapped to -5 has a non-zero deduction and no
    entry in the supervisor list. *)
Lemma deduction_entry_mismatch :
  (findTieredPenalty (edas_past_6_months one_eda)
     (eda_penalty (recruiter_rules rubric_no_single_eda)) = 0 /\
   calculateRecruiterScore one_eda rubric_no_single_eda
   = {| score := 100;
        result_deductions :=
          [ {| metric := "edas_past_6_months"; value := VNumber 1;
               deduction_points := 0; rule_id := "recruiter_eda_penalty" |} ] |} /\
   entries_for "edas_past_6_months"
     (result_deductions (calculateRecruiterScore one_eda rubric_no_single_eda))
   = 1%nat) /\
  (supervisor_deduction all_outstanding rubric_negative_rating Attitude = -5 /\
   entries_for "attitude"
     (result_deductions (calculateSupervisorScore all_outstanding rubric_negative_rating))
   = 0%nat).
Proof. repeat split; vm_compute; reflexivity. Qed.

Lemma supervisor_entries_for payload rubric (m : SupervisorMetric) :
  entries_for (supervisor_metric_name m)
    (result_deductions (calculateSupervisorScore payload rubric))
  = one_if (supervisor_positive payload rubric m).
Proof.
  unfold calculateSupervisorScore. rewrite supervisor_deductions_over.
  unfold supervisor_metric_list. simpl List.filter.
  destruct m;
    destruct (supervisor_positive payload rubric Attitude);
    destruct (supervisor_positive payload rubric Reliability);
    destruct (supervisor_positive payload rubric Proactivity);
    destruct (supervisor_positive payload rubric Flexibility);
    destruct (supervisor_positive payload rubric IndividualInteraction);
    reflexivity.
Qed.

Lemma admin_entries_for payload rubric (e : string * Q) :
  In e (metricMap payload) ->
  entries_for (fst e) (result_deductions (calculateAdminScore payload rubric))
  = one_if (admin_positive rubric e).
Proof.
  intros He. unfold calculateAdminScore. rewrite admin_deductions_over.
  unfold metricMap in *. simpl List.filter. simpl in He.
  destruct He as [<- | [<- | [<- | [<- | [<- | []]]]]];
    destruct (admin_positive rubric ("isp_goal_errors", _));
    destruct (admin_positive rubric ("isp_behavior_errors", _));
    destruct (admin_positive rubric ("mar_errors", _));
    destruct (admin_positive rubric ("attendance_tardies_callouts", _));
    destruct (admin_positive rubric ("attendance_ncns", _));
    reflexivity.
Qed.

Lemma recruiter_entries_for payload rubric (r : RecruiterRule) :
  entries_for (metric (recruiter_entry payload rubric r))
    (result_deductions (calculateRecruiterScore payload rubric))
  = one_if (recruiter_applies payload r).
Proof.
  rewrite recruiter_deductions.
  unfold recruiter_rule_list. simpl List.filter.
  destruct r;
    destruct (recruiter_applies payload Overdue);
    destruct (recruiter_applies payload Eda);
    destruct (recruiter_applies payload Retraining);
    reflexivity.
Qed.

(** C3, amended: the supervisor list and the admin list hold, in metric
    order, exactly one entry for each metric whose computed deduction is
    positive and no entry for any other metric; the recruiter list holds, in
    rule order, exactly one entry for each rule whose input count is
    positive, whatever deduction the rule computes, and no entry for a rule
    whose count is not positive. *)
Theorem deductions_entries :
  (forall payload rubric,
      let ds := result_deductions (calculateSupervisorScore payload rubric) in
      ds = List.map (supervisor_entry payload rubric)
             (List.filter (supervisor_positive payload rubric) supervisor_metric_list)
      /\ forall m, entries_for (supervisor_metric_name m) ds
                   = one_if (supervisor_positive payload rubric m)) /\
  (forall payload rubric,
      let ds := result_deductions (calculateAdminScore payload rubric) in
      ds = List.map
             (fun e => admin_entry (fst e) (snd e) (admin_deduction rubric e))
             (List.filter (admin_positive rubric) (metricMap payload))
      /\ forall e, In e (metricMap payload) ->
                   entries_for (fst e) ds = one_if (admin_positive rubric e)) /\
  (forall payload rubric,
      let ds := result_deductions (calculateRecruiterScore payload rubric) in
      ds = List.map (recruiter_entry payload rubric)
             (List.filter (recruiter_applies payload) recruiter_rule_list)
      /\ forall r, entries_for (metric (recruiter_entry payload rubric r)) ds
                   = one_if (recruiter_applies payload r)).
Proof.
  split; [| split]; intros payload rubric ds; subst ds.
  - split; [apply supervisor_deductions_over | apply supervisor_entries_for].
  - split; [apply admin_deductions_over | apply admin_entries_for].
  - split; [apply recruiter_deductions | apply recruiter_entries_for].
Qed.

(** The amended C3 on the admin case of the spec: two goal errors and six
    medication errors give an entry each, the metrics with a zero count
    none. *)
Lemma deductions_entries_witness :
  let payload :=
    {| isp_goal_errors := 2; isp_behavior_errors := 0; mar_errors := 6;
       attendance_tardies_callouts := 0; attendance_ncns := 0;
       admin_individual_interaction := None |} in
  let ds := result_deductions (calculateAdminScore payload DEFAULT_RUBRIC_V1) in
  entries_for "isp_goal_errors" ds = 1%nat /\
  entries_for "isp_behavior_errors" ds = 0%nat /\
  entries_for "mar_errors" ds = 1%nat.
Proof.
  intros payload ds.
  destruct deductions_entries as (_ & Hadmin & _).
  destruct (Hadmin payload DEFAULT_RUBRIC_V1) as [_ Hcount].
  split; [| split].
  - apply (Hcount ("isp_goal_errors", 2)). simpl. tauto.
  - apply (Hcount ("isp_behavior_errors", 0)). simpl. tauto.
  - apply (Hcount ("mar_errors", 6)). simpl. tauto.
Defined.

(** ** Unknown rating labels and metric keys *)






(** ** The admin payload's qualitative rating *)

(** C9: [calculateAdminScore] does not read [individual_interaction]: two
    admin payloads with the same five counts get the same score and the same
    deductions list under any rubric. *)
Theorem calculateAdminScore_ignores_individual_interaction
  (p1 p2 : AdminSubmissionPayload) (rubric : RubricV1) :
  isp_goal_errors p1 = isp_goal_errors p2 ->
  isp_behavior_errors p1 = isp_behavior_errors p2 ->
  mar_errors p1 = mar_errors p2 ->
  attendance_tardies_callouts p1 = attendance_tardies_callouts p2 ->
  attendance_ncns p1 = attendance_ncns p2 ->
  score (calculateAdminScore p1 rubric) = score (calculateAdminScore p2 rubric)
  /\ result_deductions (calculateAdminScore p1 rubric)
     = result_deductions (calculateAdminScore p2 rubric).
Proof.
  intros Hgoal Hbeh Hmar Htardy Hncns.
  assert (Hmap : metricMap p1 = metricMap p2).
  { unfold metricMap. rewrite Hgoal, Hbeh, Hmar, Htardy, Hncns. reflexivity. }
  unfold calculateAdminScore. rewrite Hmap. split; reflexivity.
Qed.

(** C9 on a payload without the rating and one rated "Unsatisfactory". *)
Lemma calculateAdminScore_ignores_individual_interaction_witness :
  score (calculateAdminScore payload_six_mar DEFAULT_RUBRIC_V1)
  = score (calculateAdminScore
             {| isp_goal_errors := 2; isp_behavior_errors := 0; mar_errors := 6;
                attendance_tardies_callouts := 0; attendance_ncns := 0;
                admin_individual_interaction := Some "Unsatisfactory" |}
             DEFAULT_RUBRIC_V1)
  /\ result_deductions (calculateAdminScore payload_six_mar DEFAULT_RUBRIC_V1)
     = result_deductions
         (calculateAdminScore
            {| isp_goal_errors := 2; isp_behavior_errors := 0; mar_errors := 6;
               attendance_tardies_callouts := 0; attendance_ncns := 0;
               admin_individual_interaction := Some "Unsatisfactory" |}
            DEFAULT_RUBRIC_V1).
Proof.
  apply calculateAdminScore_ignores_individual_interaction; reflexivity.
Defined.

(** ** Rubric resolver *)

Lemma string_leb_iff (s1 s2 : string) :
  String.leb s1 s2 = true <-> String_as_OT.lt s1 s2 \/ s1 = s2.
Proof.
  unfold String.leb.
  change (String.compare s1 s2) with (String_as_OT.compare s1 s2).
  destruct (String_as_OT.compare_spec s1 s2) as [Heq | Hlt | Hgt].
  - split; [right; exact Heq | reflexivity].
  - split; [left; exact Hlt | reflexivity].
  - split; [discriminate |].
    intros [Hlt | ->].
    + exfalso. apply (StrictOrder_Irreflexive s1).
      exact (StrictOrder_Transitive _ _ _ Hlt Hgt).
    + exfalso. exact (StrictOrder_Irreflexive s2 Hgt).
Qed.

Lemma string_leb_refl (s : string) : String.leb s s = true.
Proof. apply string_leb_iff. right. reflexivity. Qed.

Lemma string_leb_trans (s1 s2 s3 : string) :
  String.leb s1 s2 = true -> String.leb s2 s3 = true -> String.leb s1 s3 = true.
Proof.
  rewrite !string_leb_iff. intros [H12 | ->] [H23 | ->]; auto.
  left. exact (StrictOrder_Transitive _ _ _ H12 H23).
Qed.

Lemma string_leb_false (s1 s2 : string) :
  String.leb s1 s2 = false -> String.leb s2 s1 = true.
Proof.
  intros Hf. destruct (String.leb_total s1 s2) as [H | H]; congruence.
Qed.

Lemma In_insert_desc (r x : RubricVersionsRecord) (rows : list RubricVersionsRecord) :
  In x (insert_desc r rows) <-> x = r \/ In x rows.
Proof.
  induction rows as [| r' rest IH]; simpl.
  - intuition congruence.
  - destruct (String.leb (rv_effective_month r') (rv_effective_month r)); simpl.
    + intuition congruence.
    + rewrite IH. intuition congruence.
Qed.

Lemma In_order_by (x : RubricVersionsRecord) (rows : list RubricVersionsRecord) :
  In x (order_by_effective_month_desc rows) <-> In x rows.
Proof.
  induction rows as [| r rest IH]; simpl; [tauto |].
  rewrite In_insert_desc, IH. intuition congruence.
Qed.

(** The first row of the ordered list has the greatest effective month. *)
Lemma order_by_head (rows : list RubricVersionsRecord)
  (top : RubricVersionsRecord) (rest : list RubricVersionsRecord) :
  order_by_effective_month_desc rows = top :: rest ->
  forall r, In r rows ->
    String.leb (rv_effective_month r) (rv_effective_month top) = true.
Proof.
  revert top rest. induction rows as [| a rows IH]; intros top rest Hsort r Hr;
    [contradiction |].
  simpl in Hsort.
  destruct (order_by_effective_month_desc rows) as [| h t] eqn:Hrows.
  - simpl in Hsort. injection Hsort as <- <-.
    destruct Hr as [<- | Hr]; [apply string_leb_refl |].
    apply In_order_by in Hr. rewrite Hrows in Hr. contradiction.
  - simpl in Hsort.
    destruct (String.leb (rv_effective_month h) (rv_effective_month a)) eqn:Hha.
    + injection Hsort as <- <-.
      destruct Hr as [<- | Hr]; [apply string_leb_refl |].
      apply string_leb_trans with (rv_effective_month h); [| exact Hha].
      apply (IH h t eq_refl r Hr).
    + injection Hsort as <- <-.
      destruct Hr as [<- | Hr]; [apply string_leb_false, Hha |].
      apply (IH h t eq_refl r Hr).
Qed.

Lemma getRubricForMonth_cases (month : string) (db : Store) :
  match order_by_effective_month_desc (applicable month db) with
  | [] => getRubricForMonth month db = ("default", DEFAULT_RUBRIC_V1)
  | top :: _ =>
      getRubricForMonth month db = (rv_rubric_version top, rv_rubric_json top)
  end.
Proof.
  unfold getRubricForMonth, select_rubric_versions. fold (applicable month db).
  destruct (order_by_effective_month_desc (applicable month db));
    reflexivity.
Qed.

(** C6: [getRubricForMonth] returns a stored version whose effective month
    is at most the target month and is the greatest such month in the
    store; when the store has no version in force it returns
    [DEFAULT_RUBRIC_V1] under the label "default". With versions effective
    2025-01 and 2025-06, the month 2025-03 resolves to the first, 2025-07 to
    the second and 2024-12 to the default. *)
Theorem getRubricForMonth_latest :
  (forall month db,
      (exists r,
          In r (rubric_versions db)
          /\ String.leb (rv_effective_month r) month = true
          /\ (forall r', In r' (rubric_versions db) ->
                String.leb (rv_effective_month r') month = true ->
                String.leb (rv_effective_month r') (rv_effective_month r) = true)
          /\ getRubricForMonth month db = (rv_rubric_version r, rv_rubric_json r))
      \/
      ((forall r, In r (rubric_versions db) ->
           String.leb (rv_effective_month r) month = false)
       /\ getRubricForMonth month db = ("default", DEFAULT_RUBRIC_V1))) /\
  getRubricForMonth "2025-03" two_versions = ("2025.01", DEFAULT_RUBRIC_V1) /\
  getRubricForMonth "2025-07" two_versions = ("2025.06", rubric_without_mar) /\
  getRubricForMonth "2024-12" two_versions = ("default", DEFAULT_RUBRIC_V1).
Proof.
  split; [| repeat split].
  intros month db. pose proof (getRubricForMonth_cases month db) as Hcases.
  destruct (order_by_effective_month_desc (applicable month db))
    as [| top rest] eqn:Hsort.
  - right. split; [| exact Hcases].
    intros r Hr.
    destruct (String.leb (rv_effective_month r) month) eqn:Hle; [| reflexivity].
    assert (Hin : In r (order_by_effective_month_desc (applicable month db))).
    { apply In_order_by. unfold applicable. apply filter_In. split; assumption. }
    rewrite Hsort in Hin. contradiction.
  - left. exists top.
    assert (Htop : In top (applicable month db)).
    { apply In_order_by. rewrite Hsort. left. reflexivity. }
    unfold applicable in Htop. apply filter_In in Htop as [Hin Hle].
    repeat split; [exact Hin | exact Hle | | exact Hcases].
    intros r' Hr' Hle'.
    apply (order_by_head (applicable month db) top rest Hsort).
    unfold applicable. apply filter_In. split; assumption.
Qed.

(** ** Score aggregator *)

Lemma Math_round_half_up (x : Q) :
  exists n : Z, Math_round x = inject_Z n /\ round_half_up x n.
Proof.
  exists (Qfloor (x + (1 # 2))). split; [reflexivity |].
  unfold round_half_up.
  pose proof (Qfloor_le (x + (1 # 2))) as Hlo.
  pose proof (Qlt_floor (x + (1 # 2))) as Hhi.
  rewrite inject_Z_plus in Hhi.
  change (inject_Z 1) with 1 in Hhi.
  split; lra.
Qed.

Lemma round_half_up_unique (x : Q) (n m : Z) :
  round_half_up x n -> round_half_up x m -> n = m.
Proof.
  unfold round_half_up. intros [Hn1 Hn2] [Hm1 Hm2].
  assert (Hlt1 : inject_Z n < inject_Z m + 1) by lra.
  assert (Hlt2 : inject_Z m < inject_Z n + 1) by lra.
  change 1 with (inject_Z 1) in Hlt1, Hlt2.
  rewrite <- inject_Z_plus in Hlt1, Hlt2.
  rewrite <- Zlt_Qlt in Hlt1, Hlt2. lia.
Qed.

Lemma computeScoresForEmployee_result now month employeeId area db :
  let rubric := snd (getRubricForMonth month db) in
  let st :=
    List.fold_left (score_submission rubric)
      (select_submissions month employeeId db) no_scores in
  fst (computeScoresForEmployee now month employeeId area db)
  = {| adminScore := s_adminScore st;
       supervisorScore := s_supervisorScore st;
       recruiterScore := s_recruiterScore st;
       finalScore := final_score rubric st;
       deductions := s_deductions st;
       rubricVersion := fst (getRubricForMonth month db) |}.
Proof.
  unfold computeScoresForEmployee.
  destruct (getRubricForMonth month db) as [version rubric]. reflexivity.
Qed.

(** C2 fails as stated: the products and sums of the formula are rounded to
    doubles. With the scores 85, 85 and 10 and the weights 0.35, 0.35 and 0.3
    the exact sum is 62.5, which rounds half up to 63; the doubles give
    85 * 0.35 = 29.749999999999996, twice that plus 3 is 62.49999999999999,
    and the final score is 62. *)
Lemma final_score_below_exact_rounding :
  let r := fst (computeScoresForEmployee 0 "2025-03" "E1" "Price" rounding_store) in
  let w := weights (snd (getRubricForMonth "2025-03" rounding_store)) in
  w = {| w_admin := 0.35; w_supervisor := 0.35; w_recruiter := 0.3 |}
  /\ adminScore r = Some 85 /\ supervisorScore r = Some 85
  /\ recruiterScore r = Some 10
  /\ finalScore r = Some 62
  /\ round_half_up (85 * w_admin w + 85 * w_supervisor w + 10 * w_recruiter w) 63
  /\ finalScore r
     <> Some (Math_round (85 * w_admin w + 85 * w_supervisor w + 10 * w_recruiter w)).
Proof.
  cbv zeta.
  split; [vm_compute; reflexivity |].
  split; [vm_compute; reflexivity |].
  split; [vm_compute; reflexivity |].
  split; [vm_compute; reflexivity |].
  split; [vm_compute; reflexivity |].
  split.
  - vm_compute. split; [discriminate | reflexivity].
  - vm_compute. intros H. discriminate H.
Qed.

(** The final score of scores and weights in their usual ranges: where the
    exact weighted sum is clear of the halves by the rounding tolerance, the
    doubles round to the integer the exact sum rounds to. *)
Lemma Math_round_weighted_sum (a s c : Q) (w : Weights) (n : Z) :
  0 <= a <= 100 -> 0 <= s <= 100 -> 0 <= c <= 100 -> sane_weights w ->
  round_half_up (exact_weighted_sum a s c w - rounding_tolerance) n ->
  round_half_up (exact_weighted_sum a s c w + rounding_tolerance) n ->
  Math_round
    (double_add
       (double_add (double_mul a (w_admin w)) (double_mul s (w_supervisor w)))
       (double_mul c (w_recruiter w)))
  = inject_Z n.
Proof.
  intros Ha Hs Hc (Hwa & Hws & Hwc & Hsum) [Hlo _] [_ Hhi].
  destruct (weighted_sum_close a s c (w_admin w) (w_supervisor w) (w_recruiter w))
    as [_ [Hd1 Hd2]]; try assumption.
  unfold exact_weighted_sum in *.
  destruct (Math_round_half_up
              (double_add
                 (double_add (double_mul a (w_admin w)) (double_mul s (w_supervisor w)))
                 (double_mul c (w_recruiter w)))) as (m & Hm & Hr).
  rewrite Hm. f_equal.
  apply (round_half_up_unique _ _ _ Hr).
  unfold round_half_up. split; lra.
Qed.

(** C2, amended: the final score of [computeScoresForEmployee] is null
    whenever one of the three category scores is null; when the three are
    present it is [Math.round] of admin * w_admin + supervisor * w_supervisor
    + recruiter * w_recruiter with the weights of the resolved rubric, each
    product and each sum rounded to the nearest double, and [Math.round]
    rounds that double to the nearest integer, halves up. For scores between
    0 and 100 and non-negative weights that add up to 1 at most, this is the
    integer the exact sum rounds to whenever the exact sum is further than
    10^-11 from the halves. The scores 90, 85 and 70 under the weights 0.4,
    0.4 and 0.2 give 84. *)
Theorem final_score_double_rule :
  (forall now month employeeId area db,
      let r := fst (computeScoresForEmployee now month employeeId area db) in
      let w := weights (snd (getRubricForMonth month db)) in
      ((adminScore r = None \/ supervisorScore r = None \/ recruiterScore r = None) ->
       finalScore r = None) /\
      (forall a s c,
          adminScore r = Some a -> supervisorScore r = Some s ->
          recruiterScore r = Some c ->
          finalScore r
          = Some (Math_round
                    (double_add
                       (double_add (double_mul a (w_admin w))
                          (double_mul s (w_supervisor w)))
                       (double_mul c (w_recruiter w))))
          /\ forall n : Z,
               0 <= a <= 100 -> 0 <= s <= 100 -> 0 <= c <= 100 -> sane_weights w ->
               round_half_up (exact_weighted_sum a s c w - rounding_tolerance) n ->
               round_half_up (exact_weighted_sum a s c w + rounding_tolerance) n ->
               finalScore r = Some (inject_Z n))) /\
  (forall x y,
      double_mul x y = to_double (to_double x * to_double y)
      /\ double_add x y = to_double (to_double x + to_double y)
      /\ (0 <= x -> x - half_ulp x <= to_double x <= x + half_ulp x)) /\
  (forall x, exists n : Z, Math_round x = inject_Z n /\ round_half_up x n) /\
  (let r := fst (computeScoresForEmployee 0 "2025-03" "E1" "Price" example_store) in
   weights (snd (getRubricForMonth "2025-03" example_store))
   = {| w_admin := 0.4; w_supervisor := 0.4; w_recruiter := 0.2 |}
   /\ adminScore r = Some 90 /\ supervisorScore r = Some 85
   /\ recruiterScore r = Some 70 /\ finalScore r = Some 84).
Proof.
  split; [| split; [| split; [exact Math_round_half_up |]]].
  - intros now month employeeId area db r w. subst r w.
    rewrite computeScoresForEmployee_result. simpl.
    set (rubric := snd (getRubricForMonth month db)).
    set (st := List.fold_left (score_submission rubric)
                 (select_submissions month employeeId db) no_scores).
    unfold final_score. split.
    + intros [H | [H | H]]; rewrite H; [reflexivity | |].
      * destruct (s_adminScore st); reflexivity.
      * destruct (s_adminScore st), (s_supervisorScore st); reflexivity.
    + intros a s c Ha Hs Hc. rewrite Ha, Hs, Hc. split; [reflexivity |].
      intros n Ha' Hs' Hc' Hw Hlo Hhi. f_equal.
      apply Math_round_weighted_sum; assumption.
  - intros x y. split; [reflexivity | split; [reflexivity |]].
    apply to_double_error.
  - vm_compute. repeat split; reflexivity.
Qed.

Lemma default_weights_sane : sane_weights (weights DEFAULT_RUBRIC_V1).
Proof. vm_compute. repeat split; discriminate. Defined.

(** The amended C2 on the example store: employee E1 has the scores 90, 85
    and 70, the exact sum 84 is clear of the halves, and the final score is
    84; employee E2 has a recruiter submission only and no final score. *)
Lemma final_score_double_rule_witness :
  finalScore (fst (computeScoresForEmployee 0 "2025-03" "E1" "Price" example_store))
  = Some (inject_Z 84) /\
  finalScore (fst (computeScoresForEmployee 0 "2025-03" "E2" "Price" example_store))
  = None.
Proof.
  destruct final_score_double_rule as (Hrule & _ & _).
  split.
  - destruct (Hrule 0%Z "2025-03" "E1" "Price" example_store) as [_ Hall].
    destruct (Hall 90 85 70) as [_ Hnear]; [reflexivity | reflexivity | reflexivity |].
    apply Hnear.
    + split; discriminate.
    + split; discriminate.
    + split; discriminate.
    + exact default_weights_sane.
    + vm_compute. split; [discriminate | reflexivity].
    + vm_compute. split; [discriminate | reflexivity].
  - destruct (Hrule 0%Z "2025-03" "E2" "Price" example_store) as [Hnone _].
    apply Hnone. left. reflexivity.
Defined.

(** ** Recomputation *)

(** The upsert writes [scores_computed] only: what the engine reads is the
    same after a run. *)
Lemma computeScoresForEmployee_reads_kept now month employeeId area db :
  let db' := snd (computeScoresForEmployee now month employeeId area db) in
  rubric_versions db' = rubric_versions db
  /\ submissions_raw db' = submissions_raw db.
Proof.
  unfold computeScoresForEmployee.
  destruct (getRubricForMonth month db) as [version rubric].
  split; reflexivity.
Qed.

Lemma getRubricForMonth_reads (month : string) (db1 db2 : Store) :
  rubric_versions db1 = rubric_versions db2 ->
  getRubricForMonth month db1 = getRubricForMonth month db2.
Proof.
  intros Hsame. unfold getRubricForMonth, select_rubric_versions.
  rewrite Hsame. reflexivity.
Qed.

Lemma select_submissions_reads (month employeeId : string) (db1 db2 : Store) :
  submissions_raw db1 = submissions_raw db2 ->
  select_submissions month employeeId db1 = select_submissions month employeeId db2.
Proof.
  intros Hsame. unfold select_submissions. rewrite Hsame. reflexivity.
Qed.




(** ** Order of the submission rows *)

Lemma score_submission_swap (rubric : RubricV1) (st : Scores) (x y : SubmissionRow) :
  role x <> role y ->
  score_submission rubric (score_submission rubric st x) y
  = score_submission rubric (score_submission rubric st y) x.
Proof.
  intros Hne. destruct x, y; simpl in *; congruence.
Qed.

(** The SELECT of the submissions has no ORDER BY. Under the UNIQUE (month,
    employee_id, role) constraint of [submissions_raw] the order of its rows
    does not matter to the submission loop. *)
Lemma score_submissions_any_order (rubric : RubricV1) (rows1 rows2 : list SubmissionRow) :
  Permutation rows1 rows2 ->
  NoDup (List.map role rows1) ->
  forall st,
    List.fold_left (score_submission rubric) rows1 st
    = List.fold_left (score_submission rubric) rows2 st.
Proof.
  induction 1 as [| x l l' Hperm IH | x y l | l l' l'' H1 IH1 H2 IH2];
    intros Hnodup st; simpl.
  - reflexivity.
  - apply IH. inversion Hnodup; assumption.
  - rewrite score_submission_swap; [reflexivity |].
    simpl in Hnodup. inversion Hnodup as [| ? ? Hnotin _]; subst.
    intros Heq. apply Hnotin. rewrite Heq. constructor.
  - rewrite IH1 by exact Hnodup. apply IH2.
    rewrite <- (Permutation_map role H1). exact Hnodup.
Qed.

(** Two runs that read the same rows in different orders return the same
    result. *)
Lemma computeScoresForEmployee_any_order
  (now1 now2 : Z) (area1 area2 month employeeId : string) (db1 db2 : Store) :
  getRubricForMonth month db1 = getRubricForMonth month db2 ->
  Permutation (select_submissions month employeeId db1)
    (select_submissions month employeeId db2) ->
  NoDup (List.map role (select_submissions month employeeId db1)) ->
  fst (computeScoresForEmployee now1 month employeeId area1 db1)
  = fst (computeScoresForEmployee now2 month employeeId area2 db2).
Proof.
  intros Hrubric Hperm Hnodup.
  rewrite !computeScoresForEmployee_result. simpl. rewrite Hrubric.
  rewrite (score_submissions_any_order _ _ _ Hperm Hnodup). reflexivity.
Qed.

(** ** The worked cases of the scorers *)

(** Five ratings "Meets Expectations": five entries of 8 points, score 60. *)
Example supervisor_all_meets :
  let r :=
    calculateSupervisorScore
      {| attitude := "Meets Expectations"; reliability := "Meets Expectations";
         proactivity := "Meets Expectations"; flexibility := "Meets Expectations";
         individual_interaction := "Meets Expectations" |}
      DEFAULT_RUBRIC_V1 in
  score r = 60
  /\ List.map deduction_points (result_deductions r) = [8; 8; 8; 8; 8].
Proof. split; reflexivity. Qed.

(** Two goal errors and six medication errors: two entries, score 75. *)
Example admin_two_and_six :
  let r := calculateAdminScore payload_six_mar DEFAULT_RUBRIC_V1 in
  score r = 75
  /\ List.map rule_id (result_deductions r)
     = [ "admin_isp_goal_errors_bucket"; "admin_mar_errors_bucket" ].
Proof. split; reflexivity. Qed.

(** Two overdue trainings and one EDA: two entries, score 30. *)
Example recruiter_two_overdue_one_eda :
  let r :=
    calculateRecruiterScore
      {| overdue_trainings := 2; retrainings := 0; edas_past_6_months := 1 |}
      DEFAULT_RUBRIC_V1 in
  score r = 30
  /\ List.map rule_id (result_deductions r)
     = [ "recruiter_overdue_trainings"; "recruiter_eda_penalty" ].
Proof. split; reflexivity. Qed.

(** A count above every bucket takes the deduction of the last bucket. *)
Example findDeductionForCount_500 : findDeductionForCount 500 default_buckets = 20.
Proof. reflexivity. Qed.

(** * Further properties of the engine *)

(** ** What the bucket lookup can return *)

Lemma scan_buckets_some (count : Q) (buckets : list ErrorBucket) (d : Q) :
  scan_buckets count buckets = Some d ->
  exists b, In b buckets /\ in_range count b /\ d = deduction b.
Proof.
  induction buckets as [| b rest IH]; simpl; [discriminate |].
  destruct (in_bucket count b) eqn:Hb.
  - intros [= <-]. exists b. split; [left; reflexivity |].
    split; [apply in_bucket_iff, Hb | reflexivity].
  - intros Hrest. destruct (IH Hrest) as (b' & Hin & Hrange & Hd).
    exists b'. split; [right; exact Hin | split; assumption].
Qed.

Lemma last_In {A : Type} (l : list A) (x : A) : last l = Some x -> In x l.
Proof.
  intros Hlast. apply list_elem_of_In. apply last_Some in Hlast as [l' ->].
  apply list_elem_of_In, in_or_app. right. left. reflexivity.
Qed.

Lemma findDeductionForCount_cases (count : Q) (buckets : list ErrorBucket) :
  findDeductionForCount count buckets = 0
  \/ exists b, In b buckets
       /\ (in_range count b \/ max b < count)
       /\ findDeductionForCount count buckets = deduction b.
Proof.
  unfold findDeductionForCount.
  destruct (Qeq_bool count 0); [left; reflexivity |].
  destruct (scan_buckets count buckets) as [d |] eqn:Hscan.
  - right. destruct (scan_buckets_some count buckets d Hscan)
      as (b & Hin & Hrange & ->).
    exists b. split; [exact Hin | split; [left; exact Hrange | reflexivity]].
  - destruct (last buckets) as [lb |] eqn:Hlast; [| left; reflexivity].
    destruct (Qlt_bool (max lb) count) eqn:Hgt; [| left; reflexivity].
    right. exists lb. split; [apply last_In, Hlast |].
    split; [right; apply Qlt_bool_iff, Hgt | reflexivity].
Qed.

(** X2: [findDeductionForCount] returns 0 or the deduction of a bucket of
    the list, one that holds the count or lies wholly below it; with
    non-negative bucket deductions its result is never negative. *)
Theorem findDeductionForCount_from_buckets (count : Q) (buckets : list ErrorBucket) :
  (findDeductionForCount count buckets = 0
   \/ exists b, In b buckets
        /\ (in_range count b \/ max b < count)
        /\ findDeductionForCount count buckets = deduction b)
  /\ ((forall b, In b buckets -> 0 <= deduction b) ->
      0 <= findDeductionForCount count buckets).
Proof.
  pose proof (findDeductionForCount_cases count buckets) as Hcases.
  split; [exact Hcases |].
  intros Hnonneg. destruct Hcases as [-> | (b & Hin & _ & ->)];
    [lra | apply Hnonneg, Hin].
Qed.

(** X2 on the default buckets, at a count in the first bucket. *)
Lemma findDeductionForCount_from_buckets_witness :
  0 <= findDeductionForCount 2 default_buckets.
Proof.
  apply (findDeductionForCount_from_buckets 2 default_buckets).
  intros b Hb. simpl in Hb.
  destruct Hb as [<- | [<- | [<- | []]]]; discriminate.
Defined.

(** ** The deductions account for the score *)

Lemma fold_left_push_total {B : Type} (keep : B -> bool) (entry : B -> Deduction)
  (l : list B) (acc : Acc) :
  snd (List.fold_left (fun a b => if keep b then push a (entry b) else a) l acc)
  = List.fold_left (fun total d => double_add total (deduction_points d))
      (List.map entry (List.filter keep l)) (snd acc).
Proof.
  revert acc. induction l as [| b l IH]; intros acc; simpl; [reflexivity |].
  rewrite IH. destruct (keep b); reflexivity.
Qed.

Lemma finish_explained {B : Type} (keep : B -> bool) (entry : B -> Deduction)
  (l : list B) :
  explained
    (finish (List.fold_left (fun a b => if keep b then push a (entry b) else a)
               l ([], 0))).
Proof.
  unfold explained, finish, double_sum_points; simpl.
  rewrite fold_left_push_total, fold_left_push. reflexivity.
Qed.

(** The operations on whole numbers whose result fits the 53 bits of a
    significand are exact. *)
Lemma to_double_whole_within (x : Q) : whole_within (2 ^ 53) x -> to_double x == x.
Proof.
  intros (z & Hx & Hz). rewrite Hx. apply to_double_Z. exact Hz.
Qed.

Lemma whole_within_weaken (b1 b2 : Z) (x : Q) :
  (b1 <= b2)%Z -> whole_within b1 x -> whole_within b2 x.
Proof. intros Hb (z & Hx & Hz). exists z. split; [exact Hx | lia]. Qed.

Lemma double_add_whole (b1 b2 : Z) (x y : Q) :
  (b1 + b2 <= 2 ^ 53)%Z -> whole_within b1 x -> whole_within b2 y ->
  double_add x y == x + y /\ whole_within (b1 + b2) (double_add x y).
Proof.
  intros Hb Hx Hy.
  assert (Hb1 : (0 <= b1)%Z) by (destruct Hx as (z & _ & Hz); lia).
  assert (Hb2 : (0 <= b2)%Z) by (destruct Hy as (z & _ & Hz); lia).
  assert (Hsum : whole_within (b1 + b2) (x + y)).
  { destruct Hx as (a & Ha & Haz), Hy as (b & Hb' & Hbz).
    exists (a + b)%Z. split; [rewrite Ha, Hb', inject_Z_plus; reflexivity | lia]. }
  assert (Heq : double_add x y == x + y).
  { unfold double_add.
    rewrite (to_double_whole_within x) by (apply (whole_within_weaken b1); [lia | exact Hx]).
    rewrite (to_double_whole_within y) by (apply (whole_within_weaken b2); [lia | exact Hy]).
    apply to_double_whole_within. apply (whole_within_weaken (b1 + b2)); [lia | exact Hsum]. }
  split; [exact Heq |].
  destruct Hsum as (z & Hz & Hzb). exists z. split; [rewrite Heq; exact Hz | exact Hzb].
Qed.

Lemma double_sub_whole (b1 b2 : Z) (x y : Q) :
  (b1 + b2 <= 2 ^ 53)%Z -> whole_within b1 x -> whole_within b2 y ->
  double_sub x y == x - y.
Proof.
  intros Hb Hx Hy.
  assert (Hb1 : (0 <= b1)%Z) by (destruct Hx as (z & _ & Hz); lia).
  assert (Hb2 : (0 <= b2)%Z) by (destruct Hy as (z & _ & Hz); lia).
  unfold double_sub.
  rewrite (to_double_whole_within x) by (apply (whole_within_weaken b1); [lia | exact Hx]).
  rewrite (to_double_whole_within y) by (apply (whole_within_weaken b2); [lia | exact Hy]).
  apply to_double_whole_within.
  destruct Hx as (a & Ha & Haz), Hy as (b & Hb' & Hbz).
  exists (a - b)%Z. split; [| lia].
  rewrite Ha, Hb'. unfold Z.sub. rewrite inject_Z_plus, inject_Z_opp. reflexivity.
Qed.

Lemma double_mul_whole (b1 b2 : Z) (x y : Q) :
  (b1 * b2 <= 2 ^ 53)%Z -> (b1 <= 2 ^ 53)%Z -> (b2 <= 2 ^ 53)%Z ->
  whole_within b1 x -> whole_within b2 y ->
  double_mul x y == x * y /\ whole_within (b1 * b2) (double_mul x y).
Proof.
  intros Hb Hb1 Hb2 Hx Hy.
  assert (Hprod : whole_within (b1 * b2) (x * y)).
  { destruct Hx as (a & Ha & Haz), Hy as (b & Hb' & Hbz).
    exists (a * b)%Z. split; [rewrite Ha, Hb', inject_Z_mult; reflexivity |].
    rewrite Z.abs_mul. apply Z.mul_le_mono_nonneg; lia. }
  assert (Heq : double_mul x y == x * y).
  { unfold double_mul.
    rewrite (to_double_whole_within x) by (apply (whole_within_weaken b1); [lia | exact Hx]).
    rewrite (to_double_whole_within y) by (apply (whole_within_weaken b2); [lia | exact Hy]).
    apply to_double_whole_within. apply (whole_within_weaken (b1 * b2)); [lia | exact Hprod]. }
  split; [exact Heq |].
  destruct Hprod as (z & Hz & Hzb). exists z. split; [rewrite Heq; exact Hz | exact Hzb].
Qed.

(** The running total of whole entries is their exact sum, as long as it
    fits the significand. *)
Lemma double_sum_whole (bound : Z) (ds : list Deduction) :
  Forall (fun d => whole_within bound (deduction_points d)) ds ->
  forall (m : Z) (t : Q),
    whole_within m t ->
    (m + Z.of_nat (List.length ds) * bound <= 2 ^ 53)%Z ->
    let total :=
      List.fold_left (fun total d => double_add total (deduction_points d)) ds t in
    total == t + sum_points ds
    /\ whole_within (m + Z.of_nat (List.length ds) * bound) total.
Proof.
  induction 1 as [| d ds Hd Hds IH]; intros m t Ht Hfit; simpl.
  - split; [unfold sum_points; simpl; ring |].
    apply (whole_within_weaken m); [lia | exact Ht].
  - assert (Hb : (0 <= bound)%Z) by (destruct Hd as (z & _ & Hz); lia).
    simpl List.length in Hfit. rewrite Nat2Z.inj_succ in Hfit.
    destruct (double_add_whole m bound t (deduction_points d)) as [Heq Hw];
      [nia | exact Ht | exact Hd |].
    destruct (IH (m + bound)%Z (double_add t (deduction_points d)) Hw) as [Hsum Hw'];
      [nia |].
    split.
    + rewrite Hsum, Heq. unfold sum_points; simpl. ring.
    + apply (whole_within_weaken (m + bound + Z.of_nat (List.length ds) * bound));
        [rewrite Nat2Z.inj_succ; nia | exact Hw'].
Qed.

Lemma explained_whole (r : CategoryResult) :
  explained r ->
  (List.length (result_deductions r) <= 5)%nat ->
  Forall (fun d => whole_within (2 ^ 50) (deduction_points d)) (result_deductions r) ->
  explained_exactly r.
Proof.
  unfold explained, explained_exactly, double_sum_points, Math_max.
  intros Hr Hlen Hds. rewrite Hr.
  destruct (double_sum_whole (2 ^ 50) (result_deductions r) Hds 0 0) as [Hsum Hw].
  - exists 0%Z. split; [reflexivity | lia].
  - cbv zeta. change (2 ^ 50)%Z with 1125899906842624%Z.
    change (2 ^ 53)%Z with 9007199254740992%Z. lia.
  - cbv zeta in Hsum, Hw.
    apply Q.max_compat; [reflexivity |].
    rewrite (double_sub_whole 100 (5 * 2 ^ 50)).
    + rewrite Hsum. ring.
    + vm_compute. discriminate.
    + exists 100%Z. split; [reflexivity | lia].
    + apply (whole_within_weaken (0 + Z.of_nat (List.length (result_deductions r)) * 2 ^ 50));
        [| exact Hw].
      change (2 ^ 50)%Z with 1125899906842624%Z. lia.
Qed.

Lemma filter_map_length_le {A B : Type} (f : A -> B) (keep : A -> bool) (l : list A) :
  (List.length (List.map f (List.filter keep l)) <= List.length l)%nat.
Proof. rewrite List.length_map. apply List.filter_length_le. Qed.

Lemma Forall_map_filter {A B : Type} (P : B -> Prop) (f : A -> B)
  (keep : A -> bool) (l : list A) :
  (forall a, In a l -> keep a = true -> P (f a)) ->
  Forall P (List.map f (List.filter keep l)).
Proof.
  intros H. apply Forall_forall. intros b Hb.
  apply list_elem_of_In in Hb.
  apply in_map_iff in Hb as (a & <- & Ha).
  apply filter_In in Ha as [Hin Hkeep]. apply H; assumption.
Qed.

Lemma whole_within_0 (bound : Z) : (0 <= bound)%Z -> whole_within bound 0.
Proof. intros Hb. exists 0%Z. split; [reflexivity | lia]. Qed.

Lemma findTieredPenalty_whole (bound : Z) (count : Q) (tiers : gmap string Q) :
  (0 <= bound)%Z ->
  (forall k v, tiers !! k = Some v -> whole_within bound v) ->
  whole_within bound (findTieredPenalty count tiers).
Proof.
  intros Hb Htiers. unfold findTieredPenalty.
  destruct (Qeq_bool count 0); [apply whole_within_0, Hb |].
  destruct (Qeq_bool count 1 && defined (tiers !! "1")).
  { destruct (tiers !! "1") as [v |] eqn:Hv; simpl;
      [eauto | apply whole_within_0, Hb]. }
  destruct (Qle_bool 2 count && defined (tiers !! "2+")).
  { destruct (tiers !! "2+") as [v |] eqn:Hv; simpl;
      [eauto | apply whole_within_0, Hb]. }
  apply whole_within_0, Hb.
Qed.

(** X1: in each of the three scorers the list of deductions accounts for the
    score. The score is 100 less the running total of the [deduction_points]
    of the returned entries, as the doubles add them up, floored at 0. It is
    100 less their exact sum, floored at 0, when the numbers are whole: the
    values of the rating map, the bucket deductions and the tier penalties
    up to 2^50 in magnitude, the count of overdue trainings and the penalty
    per training up to 2^25. It is not for three overdue trainings at a
    penalty of 0.1: the entry holds 0.30000000000000004 and the score is the
    double 99.7. *)
Theorem score_explained_by_deductions :
  (forall payload rubric, explained (calculateSupervisorScore payload rubric)) /\
  (forall payload rubric, explained (calculateAdminScore payload rubric)) /\
  (forall payload rubric, explained (calculateRecruiterScore payload rubric)) /\
  (forall payload rubric,
      (forall k v, supervisor_rating_map rubric !! k = Some v ->
                   whole_within (2 ^ 50) v) ->
      explained_exactly (calculateSupervisorScore payload rubric)) /\
  (forall payload rubric,
      (forall k buckets b,
          metrics (admin_rules rubric) !! k = Some buckets ->
          In b buckets -> whole_within (2 ^ 50) (deduction b)) ->
      explained_exactly (calculateAdminScore payload rubric)) /\
  (forall payload rubric,
      whole_within (2 ^ 25) (overdue_trainings payload) ->
      whole_within (2 ^ 25) (overdue_training_penalty_per (recruiter_rules rubric)) ->
      (forall k v, eda_penalty (recruiter_rules rubric) !! k = Some v ->
                   whole_within (2 ^ 50) v) ->
      (forall k v, retraining_penalty (recruiter_rules rubric) !! k = Some v ->
                   whole_within (2 ^ 50) v) ->
      explained_exactly (calculateRecruiterScore payload rubric)) /\
  (let r := calculateRecruiterScore three_overdue_trainings rubric_tenth_penalty in
   List.map deduction_points (result_deductions r)
   = [ 1351079888211149 # 4503599627370496 ]
   /\ score r = (7015763794513101 # 70368744177664)
   /\ ~ explained_exactly r).
Proof.
  assert (Hsup : forall payload rubric,
             explained (calculateSupervisorScore payload rubric)).
  { intros payload rubric.
    exact (finish_explained (supervisor_positive payload rubric)
             (supervisor_entry payload rubric) supervisor_metric_list). }
  assert (Hadm : forall payload rubric,
             explained (calculateAdminScore payload rubric)).
  { intros payload rubric.
    unfold calculateAdminScore, admin_score_over. rewrite admin_fold_positive.
    exact (finish_explained (admin_positive rubric)
             (fun e => admin_entry (fst e) (snd e) (admin_deduction rubric e))
             (metricMap payload)). }
  assert (Hrec : forall payload rubric,
             explained (calculateRecruiterScore payload rubric)).
  { intros payload rubric. rewrite recruiter_as_loop.
    exact (finish_explained (recruiter_applies payload)
             (recruiter_entry payload rubric) recruiter_rule_list). }
  split; [exact Hsup |]. split; [exact Hadm |]. split; [exact Hrec |].
  split; [| split; [| split]].
  - intros payload rubric Hmap. apply explained_whole; [apply Hsup | |].
    + unfold calculateSupervisorScore. rewrite supervisor_deductions_over.
      apply (filter_map_length_le _ _ supervisor_metric_list).
    + unfold calculateSupervisorScore. rewrite supervisor_deductions_over.
      apply Forall_map_filter. intros m _ _. simpl. unfold supervisor_deduction.
      destruct (supervisor_rating_map rubric !! supervisor_rating payload m)
        as [v |] eqn:Hv; simpl; [eauto | apply whole_within_0; lia].
  - intros payload rubric Hbuckets. apply explained_whole; [apply Hadm | |].
    + unfold calculateAdminScore. rewrite admin_deductions_over.
      apply (filter_map_length_le _ _ (metricMap payload)).
    + unfold calculateAdminScore. rewrite admin_deductions_over.
      apply Forall_map_filter. intros [metric count] _ _. simpl.
      unfold admin_deduction; simpl.
      destruct (metrics (admin_rules rubric) !! metric) as [buckets |] eqn:Hm;
        [| apply whole_within_0; lia].
      destruct (findDeductionForCount_cases count buckets)
        as [-> | (b & Hin & _ & ->)]; [apply whole_within_0; lia | eauto].
  - intros payload rubric Hcount Hper Heda Hret.
    apply explained_whole; [apply Hrec | |].
    + rewrite recruiter_deductions.
      etransitivity; [apply (filter_map_length_le _ _ recruiter_rule_list) |].
      simpl. lia.
    + rewrite recruiter_deductions.
      apply Forall_map_filter. intros r _ _. destruct r; simpl.
      * apply (double_mul_whole (2 ^ 25) (2 ^ 25)); try assumption;
          vm_compute; discriminate.
      * apply findTieredPenalty_whole; [lia | exact Heda].
      * apply findTieredPenalty_whole; [lia | exact Hret].
  - cbv zeta. split; [vm_compute; reflexivity |].
    split; [vm_compute; reflexivity |].
    unfold explained_exactly. vm_compute. intros H. discriminate H.
Qed.

(** X1 on the default rubric, whose rating map holds whole numbers. *)
Lemma score_explained_by_deductions_witness :
  explained_exactly (calculateSupervisorScore payload_unknown_label DEFAULT_RUBRIC_V1).
Proof.
  apply (proj1 (proj2 (proj2 (proj2 score_explained_by_deductions)))).
  intros k v Hk. simpl in Hk.
  repeat (apply lookup_insert_Some in Hk as [[_ <-] | [_ Hk]];
          [eexists; split; [reflexivity | vm_compute; discriminate] |]).
  rewrite lookup_empty in Hk. discriminate.
Defined.

(** ** Which rows decide the scores *)

Lemma fold_left_related {A B C : Type} (R : A -> C -> Prop)
  (f : A -> B -> A) (g : C -> B -> C) (l : list B) :
  (forall a c b, R a c -> R (f a b) (g c b)) ->
  forall a c, R a c -> R (List.fold_left f l a) (List.fold_left g l c).
Proof.
  intros Hstep. induction l as [| b l IH]; intros a c Hac; simpl; [exact Hac |].
  apply IH, Hstep, Hac.
Qed.

Lemma score_submissions_last (rubric : RubricV1) (rows : list SubmissionRow) :
  List.fold_left (score_submission rubric) rows no_scores
  = scores_of_last rubric rows.
Proof.
  unfold scores_of_last, last_admin, last_supervisor, last_recruiter.
  pose proof (fold_left_related
    (fun (st : Scores) (acc : option AdminSubmissionPayload) =>
       s_adminScore st
       = option_map (fun p => score (calculateAdminScore p rubric)) acc
       /\ admin (s_deductions st)
          = from_option (fun p => result_deductions (calculateAdminScore p rubric))
              [] acc)
    (score_submission rubric)
    (fun acc s => match s with AdminSubmission p => Some p | _ => acc end)
    rows) as Hadmin.
  pose proof (fold_left_related
    (fun (st : Scores) (acc : option SupervisorSubmissionPayload) =>
       s_supervisorScore st
       = option_map (fun p => score (calculateSupervisorScore p rubric)) acc
       /\ supervisor (s_deductions st)
          = from_option
              (fun p => result_deductions (calculateSupervisorScore p rubric))
              [] acc)
    (score_submission rubric)
    (fun acc s => match s with SupervisorSubmission p => Some p | _ => acc end)
    rows) as Hsup.
  pose proof (fold_left_related
    (fun (st : Scores) (acc : option RecruiterSubmissionPayload) =>
       s_recruiterScore st
       = option_map (fun p => score (calculateRecruiterScore p rubric)) acc
       /\ recruiter (s_deductions st)
          = from_option
              (fun p => result_deductions (calculateRecruiterScore p rubric))
              [] acc)
    (score_submission rubric)
    (fun acc s => match s with RecruiterSubmission p => Some p | _ => acc end)
    rows) as Hrec.
  destruct (Hadmin ltac:(intros st acc [] [? ?]; split; simpl; assumption || reflexivity)
              no_scores None ltac:(split; reflexivity)) as [Ha Hda].
  destruct (Hsup ltac:(intros st acc [] [? ?]; split; simpl; assumption || reflexivity)
              no_scores None ltac:(split; reflexivity)) as [Hs Hds].
  destruct (Hrec ltac:(intros st acc [] [? ?]; split; simpl; assumption || reflexivity)
              no_scores None ltac:(split; reflexivity)) as [Hr Hdr].
  destruct (List.fold_left (score_submission rubric) rows no_scores)
    as [a s r [da ds dr]].
  simpl in *. congruence.
Qed.

(** X3: if the engine reads several rows of one role for an employee and
    month, the last of them in the order read decides that category: its
    score and its deductions list replace those of the earlier rows. A role
    with no row keeps a null score and an empty deductions list. *)
Theorem last_row_of_a_role_wins
  (now : Z) (month employeeId area : string) (db : Store) :
  let rubric := snd (getRubricForMonth month db) in
  let rows := select_submissions month employeeId db in
  let r := fst (computeScoresForEmployee now month employeeId area db) in
  adminScore r
  = option_map (fun p => score (calculateAdminScore p rubric)) (last_admin rows)
  /\ supervisorScore r
     = option_map (fun p => score (calculateSupervisorScore p rubric))
         (last_supervisor rows)
  /\ recruiterScore r
     = option_map (fun p => score (calculateRecruiterScore p rubric))
         (last_recruiter rows)
  /\ deductions r = s_deductions (scores_of_last rubric rows).
Proof.
  intros rubric rows r. subst r.
  rewrite computeScoresForEmployee_result. simpl.
  fold rubric rows. rewrite score_submissions_last.
  repeat split; reflexivity.
Qed.

Lemma ltb_length_filter {A : Type} (f : A -> bool) (l : list A) :
  Nat.ltb 0 (List.length (List.filter f l)) = List.existsb f l.
Proof.
  induction l as [| x l IH]; simpl; [reflexivity |].
  destruct (f x); simpl; [reflexivity | exact IH].
Qed.

Lemma has_submission_select (is_role : SubmissionRow -> bool)
  (month employeeId : string) (db : Store) :
  Dashboard.has_submission is_role month employeeId db
  = List.existsb is_role (select_submissions month employeeId db).
Proof.
  unfold Dashboard.has_submission, select_submissions.
  rewrite ltb_length_filter.
  induction (submissions_raw db) as [| sr table IH]; simpl; [reflexivity |].
  destruct (String.eqb (sr_month sr) month && String.eqb (sr_employee_id sr) employeeId);
    simpl; rewrite IH; reflexivity.
Qed.

Lemma last_admin_present (rows : list SubmissionRow) :
  is_Some (last_admin rows) <-> List.existsb Dashboard.is_admin rows = true.
Proof.
  unfold last_admin.
  assert (Hgen : forall acc,
    is_Some (List.fold_left
               (fun acc s => match s with AdminSubmission p => Some p | _ => acc end)
               rows acc)
    <-> is_Some acc \/ List.existsb Dashboard.is_admin rows = true).
  { induction rows as [| s rows IH]; intros acc; simpl.
    - split; [auto | intros [H | H]; [exact H | discriminate]].
    - rewrite IH. destruct s; simpl; split; intros [H | H]; eauto. }
  rewrite Hgen. split; [intros [[p Hp] | H]; [discriminate | exact H] | auto].
Qed.

Lemma last_supervisor_present (rows : list SubmissionRow) :
  is_Some (last_supervisor rows) <-> List.existsb Dashboard.is_supervisor rows = true.
Proof.
  unfold last_supervisor.
  assert (Hgen : forall acc,
    is_Some (List.fold_left
               (fun acc s => match s with SupervisorSubmission p => Some p | _ => acc end)
               rows acc)
    <-> is_Some acc \/ List.existsb Dashboard.is_supervisor rows = true).
  { induction rows as [| s rows IH]; intros acc; simpl.
    - split; [auto | intros [H | H]; [exact H | discriminate]].
    - rewrite IH. destruct s; simpl; split; intros [H | H]; eauto. }
  rewrite Hgen. split; [intros [[p Hp] | H]; [discriminate | exact H] | auto].
Qed.

Lemma last_recruiter_present (rows : list SubmissionRow) :
  is_Some (last_recruiter rows) <-> List.existsb Dashboard.is_recruiter rows = true.
Proof.
  unfold last_recruiter.
  assert (Hgen : forall acc,
    is_Some (List.fold_left
               (fun acc s => match s with RecruiterSubmission p => Some p | _ => acc end)
               rows acc)
    <-> is_Some acc \/ List.existsb Dashboard.is_recruiter rows = true).
  { induction rows as [| s rows IH]; intros acc; simpl.
    - split; [auto | intros [H | H]; [exact H | discriminate]].
    - rewrite IH. destruct s; simpl; split; intros [H | H]; eauto. }
  rewrite Hgen. split; [intros [[p Hp] | H]; [discriminate | exact H] | auto].
Qed.

Lemma is_Some_option_map {A B : Type} (f : A -> B) (o : option A) :
  is_Some (option_map f o) <-> is_Some o.
Proof. destruct o; simpl; split; intros [x Hx]; eauto; discriminate. Qed.

(** The category scores of a run are present exactly for the roles that
    have a row in [submissions_raw]. *)
Lemma category_scores_present (now : Z) (month employeeId area : string) (db : Store) :
  let r := fst (computeScoresForEmployee now month employeeId area db) in
  (is_Some (adminScore r)
   <-> Dashboard.has_submission Dashboard.is_admin month employeeId db = true)
  /\ (is_Some (supervisorScore r)
      <-> Dashboard.has_submission Dashboard.is_supervisor month employeeId db = true)
  /\ (is_Some (recruiterScore r)
      <-> Dashboard.has_submission Dashboard.is_recruiter month employeeId db = true).
Proof.
  intros r. subst r.
  rewrite computeScoresForEmployee_result. simpl.
  rewrite score_submissions_last. simpl.
  rewrite !is_Some_option_map, !has_submission_select.
  split; [apply last_admin_present |].
  split; [apply last_supervisor_present | apply last_recruiter_present].
Qed.

Lemma final_score_present (rubric : RubricV1) (st : Scores) :
  is_Some (final_score rubric st)
  <-> is_Some (s_adminScore st) /\ is_Some (s_supervisorScore st)
      /\ is_Some (s_recruiterScore st).
Proof.
  unfold final_score.
  destruct (s_adminScore st), (s_supervisorScore st), (s_recruiterScore st);
    split; try (intros [x Hx]; discriminate); try (intros ([? ?] & [? ?] & [? ?]); discriminate);
    eauto.
Qed.

(** X4: a run of [computeScoresForEmployee] returns a non-null category
    score exactly for the roles that have a submission stored for the
    employee and month, and a non-null final score exactly when all three
    roles have one. *)
Theorem scores_present_iff_submitted
  (now : Z) (month employeeId area : string) (db : Store) :
  let r := fst (computeScoresForEmployee now month employeeId area db) in
  let submitted is_role := Dashboard.has_submission is_role month employeeId db in
  (is_Some (adminScore r) <-> submitted Dashboard.is_admin = true)
  /\ (is_Some (supervisorScore r) <-> submitted Dashboard.is_supervisor = true)
  /\ (is_Some (recruiterScore r) <-> submitted Dashboard.is_recruiter = true)
  /\ (is_Some (finalScore r)
      <-> submitted Dashboard.is_admin = true
          /\ submitted Dashboard.is_supervisor = true
          /\ submitted Dashboard.is_recruiter = true).
Proof.
  intros r submitted. subst submitted. cbv beta.
  destruct (category_scores_present now month employeeId area db)
    as (Ha & Hs & Hr). fold r in Ha, Hs, Hr.
  split; [exact Ha |]. split; [exact Hs |]. split; [exact Hr |].
  rewrite <- Ha, <- Hs, <- Hr. subst r.
  rewrite computeScoresForEmployee_result. simpl.
  apply final_score_present.
Qed.

(** ** Range of the final score *)

Lemma supervisor_score_range payload rubric :
  0 <= score (calculateSupervisorScore payload rubric) <= 100.
Proof.
  unfold calculateSupervisorScore, supervisor_score_over.
  split; [apply finish_range | apply finish_range, supervisor_total_nonneg].
Qed.

Lemma admin_score_range payload rubric :
  0 <= score (calculateAdminScore payload rubric) <= 100.
Proof.
  unfold calculateAdminScore, admin_score_over.
  split; [apply finish_range | apply finish_range, admin_total_nonneg].
Qed.

Lemma recruiter_score_range payload rubric :
  nonneg_penalties (recruiter_rules rubric) ->
  0 <= score (calculateRecruiterScore payload rubric) <= 100.
Proof.
  intros Hrules. rewrite recruiter_as_loop.
  split; [apply finish_range | apply finish_range, recruiter_total_nonneg, Hrules].
Qed.

Lemma Math_round_range (x : Q) (lo hi : Z) :
  inject_Z lo <= x <= inject_Z hi ->
  inject_Z lo <= Math_round x <= inject_Z hi.
Proof.
  intros [Hlo Hhi]. unfold Math_round. rewrite <- !Zle_Qle. split.
  - rewrite <- (Qfloor_Z lo). apply Qfloor_resp_le. lra.
  - pose proof (Qfloor_le (x + (1 # 2))) as Hfloor.
    assert (Hlt : inject_Z (Qfloor (x + (1 # 2))) < inject_Z (hi + 1)).
    { rewrite inject_Z_plus. change (inject_Z 1) with 1. lra. }
    rewrite <- Zlt_Qlt in Hlt. lia.
Qed.

Lemma weighted_sum_range (a s c : Q) (w : Weights) :
  sane_weights w ->
  0 <= a <= 100 -> 0 <= s <= 100 -> 0 <= c <= 100 ->
  0 <= a * w_admin w + s * w_supervisor w + c * w_recruiter w <= 100.
Proof.
  intros (Ha & Hs & Hc & Hsum) [? ?] [? ?] [? ?]. split; nra.
Qed.

(** The doubles keep the weighted sum within the rounding tolerance of the
    range. *)
Lemma double_weighted_sum_range (a s c : Q) (w : Weights) :
  sane_weights w ->
  0 <= a <= 100 -> 0 <= s <= 100 -> 0 <= c <= 100 ->
  0 <= double_add
         (double_add (double_mul a (w_admin w)) (double_mul s (w_supervisor w)))
         (double_mul c (w_recruiter w))
    <= 100 + rounding_tolerance.
Proof.
  intros Hw Ha Hs Hc.
  pose proof (weighted_sum_range a s c w Hw Ha Hs Hc) as [_ Hexact].
  destruct Hw as (Hwa & Hws & Hwc & Hsum).
  destruct (weighted_sum_close a s c (w_admin w) (w_supervisor w) (w_recruiter w))
    as [Hd0 [_ Hd2]]; try assumption.
  split; [exact Hd0 | lra].
Qed.

Lemma Math_round_near_range (x : Q) (lo hi : Z) :
  inject_Z lo - (1 # 2) <= x -> x < inject_Z hi + (1 # 2) ->
  inject_Z lo <= Math_round x <= inject_Z hi.
Proof.
  intros Hlo Hhi. unfold Math_round. rewrite <- !Zle_Qle. split.
  - rewrite <- (Qfloor_Z lo). apply Qfloor_resp_le. lra.
  - pose proof (Qfloor_le (x + (1 # 2))) as Hfloor.
    assert (Hlt : inject_Z (Qfloor (x + (1 # 2))) < inject_Z (hi + 1)).
    { rewrite inject_Z_plus. change (inject_Z 1) with 1. lra. }
    rewrite <- Zlt_Qlt in Hlt. lia.
Qed.

Lemma final_score_range (rubric : RubricV1) (st : Scores) (f : Q) :
  sane_weights (weights rubric) ->
  (forall a, s_adminScore st = Some a -> 0 <= a <= 100) ->
  (forall s, s_supervisorScore st = Some s -> 0 <= s <= 100) ->
  (forall c, s_recruiterScore st = Some c -> 0 <= c <= 100) ->
  final_score rubric st = Some f ->
  0 <= f <= 100 /\ is_integer f.
Proof.
  intros Hweights Ha Hs Hc. unfold final_score.
  destruct (s_adminScore st) as [a |]; [| discriminate].
  destruct (s_supervisorScore st) as [s |]; [| discriminate].
  destruct (s_recruiterScore st) as [c |]; [| discriminate].
  intros [= <-]. split; [| eexists; unfold Math_round; reflexivity].
  destruct (double_weighted_sum_range a s c (weights rubric)) as [Hlo Hhi];
    [exact Hweights | apply Ha; reflexivity | apply Hs; reflexivity
    | apply Hc; reflexivity |].
  apply (Math_round_near_range _ 0 100).
  - change (inject_Z 0) with 0. lra.
  - change (inject_Z 100) with 100. unfold rounding_tolerance in Hhi. lra.
Qed.

(** X5: when the weights of the resolved rubric are non-negative and add up
    to 1 at most, and its recruiter penalties are non-negative, every final
    score [computeScoresForEmployee] returns is a whole number between 0 and
    100. *)
Theorem final_score_in_range
  (now : Z) (month employeeId area : string) (db : Store) (f : Q) :
  sane_weights (weights (snd (getRubricForMonth month db))) ->
  nonneg_penalties (recruiter_rules (snd (getRubricForMonth month db))) ->
  finalScore (fst (computeScoresForEmployee now month employeeId area db)) = Some f ->
  0 <= f <= 100 /\ is_integer f.
Proof.
  intros Hweights Hpenalties.
  rewrite computeScoresForEmployee_result. cbn [finalScore].
  rewrite score_submissions_last.
  apply final_score_range; [exact Hweights | | |]; unfold scores_of_last;
    cbn [s_adminScore s_supervisorScore s_recruiterScore]; intros x Hx.
  - destruct (last_admin _) as [p |]; [| discriminate].
    injection Hx as <-. apply admin_score_range.
  - destruct (last_supervisor _) as [p |]; [| discriminate].
    injection Hx as <-. apply supervisor_score_range.
  - destruct (last_recruiter _) as [p |]; [| discriminate].
    injection Hx as <-. apply recruiter_score_range, Hpenalties.
Qed.

(** X5 on the example store, resolved to the default rubric: the final
    score 84 of employee E1. *)
Lemma final_score_in_range_witness : 0 <= 84 <= 100 /\ is_integer 84.
Proof.
  apply (final_score_in_range 0 "2025-03" "E1" "Price" example_store 84).
  - exact default_weights_sane.
  - exact default_penalties_nonneg.
  - reflexivity.
Defined.

(** ** What a run writes *)

Lemma computeScoresForEmployee_store now month employeeId area db :
  snd (computeScoresForEmployee now month employeeId area db)
  = upsert_scores_computed now month employeeId area
      (fst (computeScoresForEmployee now month employeeId area db)) db.
Proof.
  unfold computeScoresForEmployee.
  destruct (getRubricForMonth month db) as [version rubric]. reflexivity.
Qed.

(** The result of a run depends on the two tables it reads only. *)
Lemma computeScoresForEmployee_reads now1 now2 month employeeId area1 area2
  (db1 db2 : Store) :
  rubric_versions db1 = rubric_versions db2 ->
  submissions_raw db1 = submissions_raw db2 ->
  fst (computeScoresForEmployee now1 month employeeId area1 db1)
  = fst (computeScoresForEmployee now2 month employeeId area2 db2).
Proof.
  intros Hrubrics Hsubs. rewrite !computeScoresForEmployee_result. simpl.
  rewrite (getRubricForMonth_reads month db1 db2 Hrubrics).
  rewrite (select_submissions_reads month employeeId db1 db2 Hsubs).
  reflexivity.
Qed.

(** X6: a run of [computeScoresForEmployee] leaves [rubric_versions] and
    [submissions_raw] as they are and changes no row of [scores_computed]
    other than the one of its month and employee. *)
Theorem computeScoresForEmployee_writes_one_row
  (now : Z) (month employeeId area : string) (db : Store) :
  let db' := snd (computeScoresForEmployee now month employeeId area db) in
  rubric_versions db' = rubric_versions db
  /\ submissions_raw db' = submissions_raw db
  /\ forall key, key <> (month, employeeId) ->
       scores_computed db' !! key = scores_computed db !! key.
Proof.
  intros db'. subst db'. rewrite computeScoresForEmployee_store.
  unfold upsert_scores_computed. simpl.
  split; [reflexivity |]. split; [reflexivity |].
  intros key Hkey. apply lookup_insert_ne. congruence.
Qed.

(** X6 on the example store: the run for employee E1 leaves the row of
    employee E2 (absent) as it is. *)
Lemma computeScoresForEmployee_writes_one_row_witness :
  scores_computed
    (snd (computeScoresForEmployee 0 "2025-03" "E1" "Price" example_store))
    !! ("2025-03", "E2")
  = scores_computed example_store !! ("2025-03", "E2").
Proof.
  apply (computeScoresForEmployee_writes_one_row 0 "2025-03" "E1" "Price" example_store).
  discriminate.
Defined.


(** X8: recomputing is idempotent on the store: a second run for the same
    month and employee at the same time leaves the store exactly as the
    first run left it, whatever [area] the second run is given. *)
Theorem computeScoresForEmployee_idempotent
  (now : Z) (month employeeId area1 area2 : string) (db : Store) :
  let db1 := snd (computeScoresForEmployee now month employeeId area1 db) in
  snd (computeScoresForEmployee now month employeeId area2 db1) = db1.
Proof.
  intros db1.
  rewrite computeScoresForEmployee_store.
  assert (Hsame :
    fst (computeScoresForEmployee now month employeeId area2 db1)
    = fst (computeScoresForEmployee now month employeeId area1 db)).
  { apply computeScoresForEmployee_reads;
      apply (computeScoresForEmployee_reads_kept now month employeeId area1 db). }
  rewrite Hsame. subst db1. rewrite computeScoresForEmployee_store.
  unfold upsert_scores_computed. simpl.
  rewrite lookup_insert_eq. simpl. rewrite insert_insert_eq. reflexivity.
Qed.

(** X9: runs for two different (month, employee) pairs commute: in either
    order they leave the same store. *)
Theorem computeScoresForEmployee_commute
  (now1 now2 : Z) (month1 employee1 area1 month2 employee2 area2 : string)
  (db : Store) :
  (month1, employee1) <> (month2, employee2) ->
  snd (computeScoresForEmployee now2 month2 employee2 area2
         (snd (computeScoresForEmployee now1 month1 employee1 area1 db)))
  = snd (computeScoresForEmployee now1 month1 employee1 area1
           (snd (computeScoresForEmployee now2 month2 employee2 area2 db))).
Proof.
  intros Hne.
  rewrite (computeScoresForEmployee_store now2).
  rewrite (computeScoresForEmployee_store now1 month1 employee1 area1
             (snd (computeScoresForEmployee now2 month2 employee2 area2 db))).
  rewrite (computeScoresForEmployee_reads now2 now2 month2 employee2 area2 area2
             (snd (computeScoresForEmployee now1 month1 employee1 area1 db)) db)
    by apply (computeScoresForEmployee_reads_kept now1 month1 employee1 area1 db).
  rewrite (computeScoresForEmployee_reads now1 now1 month1 employee1 area1 area1
             (snd (computeScoresForEmployee now2 month2 employee2 area2 db)) db)
    by apply (computeScoresForEmployee_reads_kept now2 month2 employee2 area2 db).
  rewrite !computeScoresForEmployee_store.
  unfold upsert_scores_computed. simpl.
  rewrite !lookup_insert_ne by congruence.
  f_equal. apply insert_insert_ne. congruence.
Qed.

(** X9 on the example store, for the employees E1 and E2. *)
Lemma computeScoresForEmployee_commute_witness :
  snd (computeScoresForEmployee 20 "2025-03" "E2" "Price"
         (snd (computeScoresForEmployee 10 "2025-03" "E1" "Price" example_store)))
  = snd (computeScoresForEmployee 10 "2025-03" "E1" "Price"
           (snd (computeScoresForEmployee 20 "2025-03" "E2" "Price" example_store))).
Proof.
  apply computeScoresForEmployee_commute. discriminate.
Defined.

(** ** Publishing rubric versions *)

Lemma applicable_reads (month : string) (db1 db2 : Store) :
  applicable month db1 = applicable month db2 ->
  getRubricForMonth month db1 = getRubricForMonth month db2.
Proof.
  intros Hsame. unfold getRubricForMonth, select_rubric_versions.
  fold (applicable month db1) (applicable month db2). rewrite Hsame. reflexivity.
Qed.

(** X10: a version whose effective month is after the target month has no
    effect on the resolution: publishing it, at whatever place in the table,
    leaves [getRubricForMonth] of every earlier month as it was. *)
Theorem getRubricForMonth_ignores_later_versions
  (month : string) (db db' : Store) (published : RubricVersionsRecord)
  (before after : list RubricVersionsRecord) :
  rubric_versions db = (before ++ after)%list ->
  rubric_versions db' = (before ++ published :: after)%list ->
  String.leb (rv_effective_month published) month = false ->
  getRubricForMonth month db' = getRubricForMonth month db.
Proof.
  intros Hdb Hdb' Hlater. apply applicable_reads. unfold applicable.
  rewrite Hdb, Hdb', !List.filter_app. simpl. rewrite Hlater. reflexivity.
Qed.

(** X10 on the stores of two and three versions: July 2025 resolves to the
    June version before and after the September version is published. *)
Lemma getRubricForMonth_ignores_later_versions_witness :
  getRubricForMonth "2025-07" three_versions
  = getRubricForMonth "2025-07" two_versions.
Proof.
  apply (getRubricForMonth_ignores_later_versions "2025-07" two_versions
           three_versions
           {| rv_rubric_version := "2025.09"; rv_effective_month := "2025-09";
              rv_rubric_json := rubric_negative_penalty |}
           [] (rubric_versions two_versions)); reflexivity.
Defined.

Lemma applicable_In (month : string) (db : Store) (r : RubricVersionsRecord) :
  In r (applicable month db)
  <-> In r (rubric_versions db)
      /\ String.leb (rv_effective_month r) month = true.
Proof. unfold applicable. apply filter_In. Qed.

Lemma NoDup_map_injective {A B : Type} (f : A -> B) (l : list A) (a b : A) :
  List.NoDup (List.map f l) -> In a l -> In b l -> f a = f b -> a = b.
Proof.
  induction l as [| x l IH]; simpl; [contradiction |].
  intros Hnodup Ha Hb Heq. inversion Hnodup as [| ? ? Hnotin Hrest]; subst.
  destruct Ha as [<- | Ha], Hb as [<- | Hb].
  - reflexivity.
  - exfalso. apply Hnotin. rewrite Heq. apply in_map, Hb.
  - exfalso. apply Hnotin. rewrite <- Heq. apply in_map, Ha.
  - apply IH; assumption.
Qed.

(** X11: when no two stored versions have the same effective month, the
    order of the rows of [rubric_versions] does not matter to
    [getRubricForMonth]: two tables with the same rows resolve every month
    to the same version. *)
Theorem getRubricForMonth_any_table_order (month : string) (db1 db2 : Store) :
  Permutation (rubric_versions db1) (rubric_versions db2) ->
  List.NoDup (List.map rv_effective_month (rubric_versions db1)) ->
  getRubricForMonth month db1 = getRubricForMonth month db2.
Proof.
  intros Hperm Hnodup.
  assert (Hsame : forall r, In r (applicable month db1) <-> In r (applicable month db2)).
  { intros r. rewrite !applicable_In.
    split; intros [Hin Hle]; split; try exact Hle.
    - apply (Permutation_in _ Hperm), Hin.
    - apply (Permutation_in _ (Permutation_sym Hperm)), Hin. }
  pose proof (getRubricForMonth_cases month db1) as H1.
  pose proof (getRubricForMonth_cases month db2) as H2.
  destruct (order_by_effective_month_desc (applicable month db1))
    as [| top1 rest1] eqn:Hsort1;
    destruct (order_by_effective_month_desc (applicable month db2))
      as [| top2 rest2] eqn:Hsort2.
  - congruence.
  - exfalso.
    assert (Hin : In top2 (applicable month db1)).
    { apply Hsame, In_order_by. rewrite Hsort2. left. reflexivity. }
    apply In_order_by in Hin. rewrite Hsort1 in Hin. contradiction.
  - exfalso.
    assert (Hin : In top1 (applicable month db2)).
    { apply Hsame, In_order_by. rewrite Hsort1. left. reflexivity. }
    apply In_order_by in Hin. rewrite Hsort2 in Hin. contradiction.
  - assert (Hin1 : In top1 (applicable month db1))
      by (apply In_order_by; rewrite Hsort1; left; reflexivity).
    assert (Hin2 : In top2 (applicable month db2))
      by (apply In_order_by; rewrite Hsort2; left; reflexivity).
    assert (Heq : top1 = top2).
    { apply (NoDup_map_injective rv_effective_month (rubric_versions db1));
        [exact Hnodup | apply applicable_In in Hin1; tauto
        | apply Hsame, applicable_In in Hin2; tauto |].
      apply String.leb_antisym.
      - apply (order_by_head _ _ _ Hsort2), Hsame, Hin1.
      - apply (order_by_head _ _ _ Hsort1), Hsame, Hin2. }
    rewrite H1, H2, Heq. reflexivity.
Qed.

(** X11 on the store of two versions and the same table reversed. *)
Lemma getRubricForMonth_any_table_order_witness :
  getRubricForMonth "2025-07" two_versions
  = getRubricForMonth "2025-07" two_versions_swapped.
Proof.
  apply getRubricForMonth_any_table_order.
  - apply Permutation_rev.
  - simpl. repeat constructor; simpl; intuition discriminate.
Defined.

(** ** Whole-number scores *)














(** * Properties of the authorization checks *)

Lemma string_eqb_true (s1 s2 : string) : String.eqb s1 s2 = true <-> s1 = s2.
Proof. apply String.eqb_eq. Qed.

Lemma string_eqb_false (s1 s2 : string) : String.eqb s1 s2 = false <-> s1 <> s2.
Proof. apply String.eqb_neq. Qed.

Lemma grants_iff (role : string) (area : option string) (r : Authorization.RoleGrant) :
  Authorization.grants role area r = true
  <-> Authorization.grant_role r = role
      /\ (Authorization.grant_area r = "global"
          \/ Authorization.truthy area = false
          \/ area = Some (Authorization.grant_area r)).
Proof.
  unfold Authorization.grants.
  destruct (String.eqb_spec (Authorization.grant_role r) role) as [Hrole | Hrole];
    simpl; [| split; [discriminate | intros [? _]; contradiction]].
  destruct (String.eqb_spec (Authorization.grant_area r) "global") as [Hglobal | Hglobal];
    [split; auto |].
  destruct area as [a |]; simpl; [| split; auto].
  destruct (String.eqb_spec a "") as [-> | Ha]; simpl; [split; auto |].
  destruct (String.eqb_spec (Authorization.grant_area r) a) as [<- | Hne]; simpl.
  - split; auto.
  - split; [discriminate |].
    intros [_ [? | [? | [= ->]]]]; [contradiction | discriminate | contradiction].
Qed.

Lemma hasRole_iff (session : Authorization.UserSession) (role : string)
  (area : option string) :
  Authorization.hasRole session role area = true
  <-> exists r, In r (Authorization.roles session)
        /\ Authorization.grants role area r = true.
Proof. unfold Authorization.hasRole. apply existsb_exists. Qed.

(** X13: [hasRole] and the area it is asked about: a grant of the role for
    the area "global" passes whatever area is asked; for a non-empty area
    the check passes exactly when the session holds the role for that area
    or for "global"; a check that passes for an area also passes without
    one; and the empty string as area counts as no area at all. *)
Theorem hasRole_scoping (session : Authorization.UserSession) (role : string) :
  (forall area,
      In (Authorization.mkRoleGrant role "global") (Authorization.roles session) ->
      Authorization.hasRole session role area = true) /\
  (forall a,
      a <> "" ->
      (Authorization.hasRole session role (Some a) = true
       <-> In (Authorization.mkRoleGrant role a) (Authorization.roles session)
           \/ In (Authorization.mkRoleGrant role "global") (Authorization.roles session))) /\
  (forall area,
      Authorization.hasRole session role area = true ->
      Authorization.hasRole session role None = true) /\
  Authorization.hasRole session role (Some "") = Authorization.hasRole session role None.
Proof.
  split; [| split; [| split]].
  - intros area Hin. apply hasRole_iff. eexists. split; [exact Hin |].
    apply grants_iff. simpl. auto.
  - intros a Ha. rewrite hasRole_iff. split.
    + intros ([r_role r_area] & Hin & Hgrant).
      apply grants_iff in Hgrant. simpl in Hgrant.
      destruct Hgrant as [-> [-> | [Hfalsy | [= ->]]]]; auto.
      exfalso. apply negb_false_iff, string_eqb_true in Hfalsy. contradiction.
    + intros [Hin | Hin]; eexists; (split; [exact Hin |]);
        apply grants_iff; simpl; auto.
  - intros area. rewrite !hasRole_iff. intros (r & Hin & Hgrant).
    exists r. split; [exact Hin |].
    apply grants_iff in Hgrant as [Hrole _]. apply grants_iff. simpl. auto.
  - unfold Authorization.hasRole. f_equal.
Qed.

(** X13 on a Price admin: the role holds for Price, not for South Valley,
    and holds when no area is asked. *)
Lemma hasRole_scoping_witness :
  Authorization.hasRole price_admin "admin" (Some "Price") = true
  /\ Authorization.hasRole price_admin "admin" (Some "South Valley") <> true
  /\ Authorization.hasRole price_admin "admin" None = true.
Proof.
  destruct (hasRole_scoping price_admin "admin") as (_ & Hscoped & Hdrop & _).
  split; [| split].
  - apply (Hscoped "Price"); [discriminate | left; left; reflexivity].
  - intros H. apply (Hscoped "South Valley") in H; [| discriminate].
    destruct H as [[H | []] | [H | []]]; discriminate.
  - apply (Hdrop (Some "Price")). reflexivity.
Defined.

Lemma hasAnyRole_iff (session : Authorization.UserSession) (wanted : list string)
  (area : option string) :
  Authorization.hasAnyRole session wanted area = true
  <-> exists role, In role wanted /\ Authorization.hasRole session role area = true.
Proof. unfold Authorization.hasAnyRole. apply existsb_exists. Qed.

Lemma hasAnyRole_incl (session : Authorization.UserSession)
  (wanted1 wanted2 : list string) (area1 area2 : option string) :
  incl wanted1 wanted2 ->
  (area2 = area1 \/ area2 = None) ->
  Authorization.hasAnyRole session wanted1 area1 = true ->
  Authorization.hasAnyRole session wanted2 area2 = true.
Proof.
  intros Hincl Harea. rewrite !hasAnyRole_iff. intros (role & Hin & Hhas).
  exists role. split; [apply Hincl, Hin |].
  destruct Harea as [-> | ->]; [exact Hhas |].
  apply hasRole_iff in Hhas as (r & Hr & Hgrant).
  apply hasRole_iff. exists r. split; [exact Hr |].
  apply grants_iff in Hgrant as [Hrole _]. apply grants_iff. simpl. auto.
Qed.

(** X14: the permissions nest: whoever may submit admin evaluations for an
    area may also manage assignments, upload the roster and view the
    dashboard for it, and may submit supervisor evaluations; whoever may
    submit recruiter evaluations for an area may view its dashboard. *)
Theorem permissions_nest (session : Authorization.UserSession) (area : option string) :
  (Authorization.canSubmitAdmin session area = true ->
   Authorization.canManageAssignments session area = true
   /\ Authorization.canUploadRoster session area = true
   /\ Authorization.canViewDashboard session area = true
   /\ Authorization.canSubmitSupervisor session = true) /\
  (Authorization.canSubmitRecruiter session area = true ->
   Authorization.canViewDashboard session area = true).
Proof.
  split.
  - intros Hadmin.
    repeat split;
      (eapply hasAnyRole_incl; [| | exact Hadmin];
       [intros role Hrole; simpl in *; tauto | auto]).
  - intros Hrec.
    eapply hasAnyRole_incl; [| | exact Hrec];
      [intros role Hrole; simpl in *; tauto | auto].
Qed.

(** X14 on the Price admin. *)
Lemma permissions_nest_witness :
  Authorization.canViewDashboard price_admin (Some "Price") = true
  /\ Authorization.canSubmitSupervisor price_admin = true.
Proof.
  destruct (permissions_nest price_admin (Some "Price")) as [Hadmin _].
  destruct (Hadmin eq_refl) as (_ & _ & Hview & Hsup).
  split; assumption.
Defined.

(** ** Global access and the area filter *)

Lemma hasGlobalAccess_iff (session : Authorization.UserSession) :
  Authorization.hasGlobalAccess session = true
  <-> exists r, In r (Authorization.roles session)
        /\ (Authorization.grant_role r = "super_admin"
            \/ Authorization.grant_role r = "exec"
            \/ Authorization.grant_area r = "global").
Proof.
  unfold Authorization.hasGlobalAccess, Authorization.GLOBAL_ROLES. simpl.
  rewrite !orb_true_iff, !existsb_exists. split.
  - intros [[(r & Hin & Heq) | [(r & Hin & Heq) | Hfalse]] | (r & Hin & Heq)];
      try discriminate; apply string_eqb_true in Heq; eauto 6.
  - intros (r & Hin & [Heq | [Heq | Heq]]); apply string_eqb_true in Heq; eauto 8.
Qed.

(** X15: a session has global access exactly when one of its grants is for
    the role super_admin or exec, whatever the area of that grant, or is for
    the area "global", whatever its role. Such a session may access every
    area, its list of areas is ["global"], and it gets no area filter. *)
Theorem global_access (session : Authorization.UserSession) :
  (Authorization.hasGlobalAccess session = true
   <-> exists r, In r (Authorization.roles session)
         /\ (Authorization.grant_role r = "super_admin"
             \/ Authorization.grant_role r = "exec"
             \/ Authorization.grant_area r = "global")) /\
  (Authorization.hasGlobalAccess session = true ->
   (forall area, Authorization.canAccessArea session area = true)
   /\ Authorization.getUserAreas session = [ "global" ]
   /\ forall areaColumn, Authorization.buildAreaFilter session areaColumn = None).
Proof.
  split; [apply hasGlobalAccess_iff |].
  intros Hglobal.
  unfold Authorization.canAccessArea, Authorization.getUserAreas,
    Authorization.buildAreaFilter.
  rewrite Hglobal. repeat split.
Qed.

(** X15 on an exec of Price: the grant gives access to South Valley too. *)
Lemma global_access_witness :
  Authorization.canAccessArea price_exec "South Valley" = true.
Proof.
  destruct (global_access price_exec) as [Hiff Hglobal].
  apply Hglobal. apply Hiff.
  exists (Authorization.mkRoleGrant "exec" "Price").
  split; [left; reflexivity | right; left; reflexivity].
Defined.

Lemma set_add_In (areas : list string) (x a : string) :
  In a (Authorization.set_add areas x) <-> In a areas \/ a = x.
Proof.
  unfold Authorization.set_add.
  destruct (List.existsb (String.eqb x) areas) eqn:Hmem.
  - apply existsb_exists in Hmem as (y & Hy & Heq).
    apply string_eqb_true in Heq. subst y.
    split; [auto | intros [H | ->]; assumption].
  - rewrite in_app_iff. simpl. intuition congruence.
Qed.

Lemma NoDup_snoc {A : Type} (l : list A) (x : A) :
  ~ In x l -> List.NoDup l -> List.NoDup (l ++ [x]).
Proof.
  induction l as [| a l IH]; simpl; intros Hnotin Hnodup.
  - constructor; [intros [] | constructor].
  - inversion Hnodup as [| ? ? Ha Hl]; subst. constructor.
    + rewrite in_app_iff. simpl. intros [H | [H | []]]; [contradiction |].
      apply Hnotin. left. symmetry. exact H.
    + apply IH; [| exact Hl]. intros H. apply Hnotin. right. exact H.
Qed.

Lemma set_add_NoDup (areas : list string) (x : string) :
  List.NoDup areas -> List.NoDup (Authorization.set_add areas x).
Proof.
  intros Hnodup. unfold Authorization.set_add.
  destruct (List.existsb (String.eqb x) areas) eqn:Hmem; [exact Hnodup |].
  apply NoDup_snoc; [| exact Hnodup].
  intros Hin.
  assert (Htrue : List.existsb (String.eqb x) areas = true).
  { apply existsb_exists. exists x. split; [exact Hin | apply String.eqb_refl]. }
  congruence.
Qed.

Lemma collect_areas (grants : list Authorization.RoleGrant) (acc : list string) :
  let areas :=
    List.fold_left
      (fun areas r =>
         if negb (String.eqb (Authorization.grant_area r) "global")
         then Authorization.set_add areas (Authorization.grant_area r) else areas)
      grants acc in
  (List.NoDup acc -> List.NoDup areas)
  /\ forall a, In a areas
       <-> In a acc
           \/ exists r, In r grants /\ Authorization.grant_area r = a /\ a <> "global".
Proof.
  revert acc. induction grants as [| r grants IH]; intros acc; simpl.
  - split; [auto |]. intros a. split; [auto | intros [H | (r & [] & _)]; exact H].
  - destruct (IH (if negb (String.eqb (Authorization.grant_area r) "global")
                  then Authorization.set_add acc (Authorization.grant_area r)
                  else acc)) as [IHnodup IHin].
    split.
    + intros Hacc. apply IHnodup.
      destruct (negb _); [apply set_add_NoDup, Hacc | exact Hacc].
    + intros a. rewrite IHin.
      destruct (String.eqb_spec (Authorization.grant_area r) "global") as [Hg | Hg];
        simpl.
      * split.
        -- intros [H | (r' & Hr' & Ha & Hne)]; [auto | right; eauto].
        -- intros [H | (r' & [<- | Hr'] & Ha & Hne)]; [auto | congruence | right; eauto].
      * rewrite set_add_In. split.
        -- intros [[H | ->] | (r' & Hr' & Ha & Hne)]; [auto | right; eauto | right; eauto].
        -- intros [H | (r' & [<- | Hr'] & Ha & Hne)]; [auto | auto | right; eauto].
Qed.

(** X16: for a session without global access the area filter and the area
    check agree: [buildAreaFilter] returns a filter whose parameters are the
    list of [getUserAreas], that list has no area twice, and an area is in
    it exactly when [canAccessArea] accepts the area. *)
Theorem area_filter_matches_area_check (session : Authorization.UserSession)
  (areaColumn : string) :
  Authorization.hasGlobalAccess session = false ->
  (exists clause,
      Authorization.buildAreaFilter session areaColumn
      = Some (clause, Authorization.getUserAreas session))
  /\ List.NoDup (Authorization.getUserAreas session)
  /\ forall area,
       In area (Authorization.getUserAreas session)
       <-> Authorization.canAccessArea session area = true.
Proof.
  intros Hlocal.
  destruct (collect_areas (Authorization.roles session) []) as [Hnodup Hin].
  split; [| split].
  - unfold Authorization.buildAreaFilter. rewrite Hlocal.
    destruct (Authorization.getUserAreas session) as [| a rest] eqn:Hareas; simpl;
      eexists; reflexivity.
  - unfold Authorization.getUserAreas. rewrite Hlocal. apply Hnodup. constructor.
  - intros area. unfold Authorization.getUserAreas, Authorization.canAccessArea.
    rewrite Hlocal, Hin, existsb_exists. split.
    + intros [[] | (r & Hr & Ha & _)]. exists r.
      split; [exact Hr | apply string_eqb_true, Ha].
    + intros (r & Hr & Ha). apply string_eqb_true in Ha. right.
      exists r. split; [exact Hr |]. split; [exact Ha |].
      intros ->. 
      assert (Hglobal : Authorization.hasGlobalAccess session = true)
        by (apply hasGlobalAccess_iff; eauto).
      congruence.
Qed.

(** X16 on that session: the filter names Price and South Valley once each. *)
Lemma area_filter_matches_area_check_witness :
  Authorization.buildAreaFilter two_area_user "r.area"
  = Some ("r.area IN ($1, $2)", [ "Price"; "South Valley" ])
  /\ List.NoDup (Authorization.getUserAreas two_area_user).
Proof.
  destruct (area_filter_matches_area_check two_area_user "r.area" eq_refl)
    as ((clause & Hfilter) & Hnodup & _).
  split; [reflexivity | exact Hnodup].
Defined.

Lemma string_length_append (s1 s2 : string) :
  String.length (s1 ++ s2) = (String.length s1 + String.length s2)%nat.
Proof. induction s1 as [| c s1 IH]; simpl; [reflexivity | rewrite IH; reflexivity]. Qed.

(** X17: a session that passes one of the role checks ([hasAnyRole], on
    which every [can...] check rests) never gets the impossible filter
    "1 = 0", and never a filter with an empty list of areas: its filter is
    absent, for global access, or names at least one area. *)
Theorem passed_check_has_area (session : Authorization.UserSession)
  (wanted : list string) (area : option string) (areaColumn : string) :
  Authorization.hasAnyRole session wanted area = true ->
  Authorization.buildAreaFilter session areaColumn = None
  \/ exists clause first rest,
       Authorization.buildAreaFilter session areaColumn
       = Some (clause, first :: rest)
       /\ clause <> "1 = 0".
Proof.
  intros Hpass.
  destruct (Authorization.hasGlobalAccess session) eqn:Hglobal.
  { left. unfold Authorization.buildAreaFilter. rewrite Hglobal. reflexivity. }
  right.
  apply hasAnyRole_iff in Hpass as (role & _ & Hhas).
  apply hasRole_iff in Hhas as (r & Hr & _).
  assert (Hin : In (Authorization.grant_area r) (Authorization.getUserAreas session)).
  { unfold Authorization.getUserAreas. rewrite Hglobal.
    apply (collect_areas (Authorization.roles session) []). right.
    exists r. split; [exact Hr |]. split; [reflexivity |].
    intros Hg.
    assert (Authorization.hasGlobalAccess session = true)
      by (apply hasGlobalAccess_iff; eauto).
    congruence. }
  unfold Authorization.buildAreaFilter. rewrite Hglobal.
  destruct (Authorization.getUserAreas session) as [| first rest]; [contradiction |].
  destruct (Nat.eqb (List.length (first :: rest)) 0) eqn:Hzero;
    [simpl in Hzero; discriminate |].
  eexists _, first, rest. split; [reflexivity |].
  intros Heq. apply (f_equal String.length) in Heq.
  rewrite !string_length_append in Heq. simpl in Heq. lia.
Qed.

(** X17 on the Price admin, who passes the dashboard check. *)
Lemma passed_check_has_area_witness :
  Authorization.buildAreaFilter price_admin "area" = None
  \/ exists clause first rest,
       Authorization.buildAreaFilter price_admin "area" = Some (clause, first :: rest)
       /\ clause <> "1 = 0".
Proof.
  apply (passed_check_has_area price_admin
           [ "super_admin"; "exec"; "director"; "admin"; "recruiter" ] None "area").
  reflexivity.
Defined.

(** * Properties of the dashboard figures *)

Lemma sum_within (arr : list Q) (lo hi acc : Q) :
  Forall (fun x => lo <= x <= hi) arr ->
  acc + lo * inject_Z (Z.of_nat (List.length arr))
  <= List.fold_left Qplus arr acc
  <= acc + hi * inject_Z (Z.of_nat (List.length arr)).
Proof.
  intros Hall. revert acc.
  induction Hall as [| x arr [Hlo Hhi] _ IH]; intros acc.
  - simpl. change (inject_Z (Z.of_nat 0)) with 0. split; lra.
  - cbn [List.fold_left List.length]. specialize (IH (acc + x)).
    rewrite Nat2Z.inj_succ, <- Z.add_1_r, inject_Z_plus.
    change (inject_Z 1) with 1. split; nra.
Qed.

Lemma length_positive {A : Type} (l : list A) :
  l <> [] -> 0 < inject_Z (Z.of_nat (List.length l)).
Proof.
  intros Hne. destruct l as [| x l]; [contradiction |].
  change 0 with (inject_Z 0). rewrite <- Zlt_Qlt. simpl. lia.
Qed.

(** X18: [avg] of the dashboard returns null for an empty list only; for a
    non-empty list of numbers that all lie between two whole numbers it
    returns a whole number between the same two: an average of scores
    between 0 and 100 is between 0 and 100. *)
Theorem avg_within_bounds (arr : list Q) (lo hi : Z) :
  (Dashboard.avg arr = None <-> arr = []) /\
  (arr <> [] ->
   Forall (fun x => inject_Z lo <= x <= inject_Z hi) arr ->
   exists v, Dashboard.avg arr = Some v
     /\ inject_Z lo <= v <= inject_Z hi /\ is_integer v).
Proof.
  split.
  - unfold Dashboard.avg. destruct arr as [| x arr]; simpl;
      split; congruence.
  - intros Hne Hall. unfold Dashboard.avg.
    destruct arr as [| x arr]; [contradiction |].
    change (Nat.eqb (List.length (x :: arr)) 0) with false. cbv iota.
    eexists. split; [reflexivity |]. split.
    + apply Math_round_range.
      pose proof (sum_within (x :: arr) (inject_Z lo) (inject_Z hi) 0 Hall) as [Hlo Hhi].
      pose proof (length_positive (x :: arr) Hne) as Hpos.
      split.
      * apply Qle_shift_div_l; [exact Hpos | lra].
      * apply Qle_shift_div_r; [exact Hpos | lra].
    + eexists. unfold Math_round. reflexivity.
Qed.

(** X18 on three final scores. *)
Lemma avg_within_bounds_witness :
  exists v, Dashboard.avg [84; 70; 91] = Some v
    /\ inject_Z 0 <= v <= inject_Z 100 /\ is_integer v.
Proof.
  apply (avg_within_bounds [84; 70; 91] 0 100).
  - discriminate.
  - repeat constructor; discriminate.
Defined.

Lemma filter_length_le {A : Type} (f : A -> bool) (l : list A) :
  (List.length (List.filter f l) <= List.length l)%nat.
Proof.
  induction l as [| x l IH]; simpl; [lia |].
  destruct (f x); simpl; lia.
Qed.

Lemma percentage_range (completed totalStaff : nat) :
  (completed <= totalStaff)%nat ->
  0 <= Dashboard.percentage completed totalStaff <= 100.
Proof.
  intros Hle. unfold Dashboard.percentage.
  destruct totalStaff as [| n]; simpl Nat.eqb; cbv iota; [split; discriminate |].
  change 0 with (inject_Z 0). change 100 with (inject_Z 100).
  apply Math_round_range.
  change (inject_Z 0) with 0. change (inject_Z 100) with 100.
  assert (Hpos : 0 < inject_Z (Z.of_nat (S n))).
  { change 0 with (inject_Z 0). rewrite <- Zlt_Qlt. lia. }
  assert (Hc0 : 0 <= inject_Z (Z.of_nat completed)).
  { change 0 with (inject_Z 0). rewrite <- Zle_Qle. lia. }
  assert (Hcn : inject_Z (Z.of_nat completed) <= inject_Z (Z.of_nat (S n))).
  { rewrite <- Zle_Qle. lia. }
  assert (Hratio : 0 <= inject_Z (Z.of_nat completed) / inject_Z (Z.of_nat (S n)) <= 1).
  { split.
    - apply Qle_shift_div_l; [exact Hpos | lra].
    - apply Qle_shift_div_r; [exact Hpos | lra]. }
  split; lra.
Qed.

(** X19: in every completion rate of the dashboard summary the completed
    count is at most the total, the total is the number of staff rows, and
    the percentage lies between 0 and 100; with no staff row it is 0. *)
Theorem completion_rates_in_range (staff : list Dashboard.StaffRow) :
  let s := Dashboard.summary staff in
  Forall
    (fun r =>
       (Dashboard.completed r <= Dashboard.total r)%nat
       /\ Dashboard.total r = Dashboard.totalStaff s
       /\ 0 <= Dashboard.rate_percentage r <= 100
       /\ (staff = [] -> Dashboard.rate_percentage r = 0))
    [ Dashboard.rate_admin s; Dashboard.rate_supervisor s;
      Dashboard.rate_recruiter s; Dashboard.rate_all s ].
Proof.
  intros s. subst s. unfold Dashboard.summary. simpl.
  repeat constructor; simpl;
    try apply filter_length_le;
    try (apply percentage_range, filter_length_le);
    intros ->; reflexivity.
Qed.

(** ** The dashboard row of a freshly computed employee *)



(** * Properties of the supervisor submission route *)

Lemma catch_message (message : string) :
  exists status text,
    SupervisorRoute.catch message
    = SupervisorRoute.Failure status (SupervisorRoute.Message text).
Proof.
  unfold SupervisorRoute.catch.
  destruct (String.eqb message "Unauthorized"); [eexists _, _; reflexivity |].
  destruct (_ || _); eexists _, _; reflexivity.
Qed.

Lemma catch_is_failure (message : string) : is_failure (SupervisorRoute.catch message).
Proof.
  destruct (catch_message message) as (status & text & ->). eexists _, _; reflexivity.
Qed.

Lemma parse_valid (body body' : SupervisorRoute.Body) :
  SupervisorRoute.parse body = inr body' -> body' = body.
Proof.
  unfold SupervisorRoute.parse.
  repeat match goal with |- context [if ?c then _ else _] => destruct c end;
    congruence.
Qed.

Lemma parse_issue (body : SupervisorRoute.Body) (issue : SupervisorRoute.ErrorMessage) :
  SupervisorRoute.parse body = inl issue ->
  (exists text, issue = SupervisorRoute.Message text)
  \/ issue = SupervisorRoute.InvalidEnumMessage.
Proof.
  unfold SupervisorRoute.parse.
  repeat match goal with |- context [if ?c then _ else _] => destruct c end;
    intros [= <-]; eauto.
Qed.

Lemma payload_eta (p : SupervisorSubmissionPayload) :
  {| attitude := attitude p; reliability := reliability p;
     proactivity := proactivity p; flexibility := flexibility p;
     individual_interaction := individual_interaction p |} = p.
Proof. destruct p; reflexivity. Qed.

Lemma handler_failure_is_failure (r : SupervisorRoute.Response) :
  handler_failure r -> is_failure r.
Proof. intros (status & error & -> & _). eexists _, _. reflexivity. Qed.

Lemma catch_handler_failure (message : string) :
  handler_failure (SupervisorRoute.catch message).
Proof.
  destruct (catch_message message) as (status & text & ->).
  eexists _, _. split; [reflexivity | left; eexists; reflexivity].
Qed.

Lemma roster_row_found (month employeeId : string)
  (table : list SupervisorRoute.RosterMonthlyRecord)
  (roster : SupervisorRoute.RosterMonthlyRecord) :
  List.find
    (fun r =>
       String.eqb (SupervisorRoute.rm_month r) month
       && String.eqb (SupervisorRoute.rm_employee_id r) employeeId
       && SupervisorRoute.rm_is_active r) table = Some roster ->
  List.existsb
    (fun r =>
       String.eqb (SupervisorRoute.rm_month r) month
       && String.eqb (SupervisorRoute.rm_employee_id r) employeeId) table = true.
Proof.
  intros Hfind. apply List.find_some in Hfind as [Hin Hrow].
  apply List.existsb_exists. exists roster. split; [exact Hin |].
  apply andb_true_iff in Hrow as [Hrow _]. exact Hrow.
Qed.

(** The three outcomes of the handler: a failure of its own that leaves the
    store as it was; an accepted submission whose scores are stored; an
    accepted submission, committed, whose scores the database rejects. *)
Lemma POST_request_outcomes (toLowerCase : string -> string) (now : Z)
  (session : option Authorization.UserSession)
  (request : SupervisorRoute.RequestBody) (st : SupervisorRoute.AppStore) :
  (handler_failure (fst (SupervisorRoute.POST_request toLowerCase now session request st))
   /\ snd (SupervisorRoute.POST_request toLowerCase now session request st) = st
   /\ ~ (exists body,
           request = SupervisorRoute.Shaped body
           /\ accepted toLowerCase session body st))
  \/
  (exists body user roster assignment,
      request = SupervisorRoute.Shaped body
      /\ session = Some user
      /\ Authorization.canSubmitSupervisor user = true
      /\ SupervisorRoute.parse body = inr body
      /\ List.find
           (fun r =>
              String.eqb (SupervisorRoute.rm_month r) (SupervisorRoute.body_month body)
              && String.eqb (SupervisorRoute.rm_employee_id r)
                   (SupervisorRoute.body_employeeId body)
              && SupervisorRoute.rm_is_active r)
           (SupervisorRoute.roster_monthly st) = Some roster
      /\ SupervisorRoute.supervisor_assignments st
           !! (SupervisorRoute.body_month body, SupervisorRoute.body_employeeId body)
         = Some assignment
      /\ toLowerCase (SupervisorRoute.sa_evaluator_email assignment)
         = toLowerCase (Authorization.email user)
      /\ SupervisorRoute.sa_status assignment = SupervisorRoute.Assigned
      /\ List.existsb
           (SupervisorRoute.same_supervisor_row (SupervisorRoute.body_month body)
              (SupervisorRoute.body_employeeId body))
           (submissions_raw (SupervisorRoute.scoring st)) = false
      /\ let month := SupervisorRoute.body_month body in
         let employeeId := SupervisorRoute.body_employeeId body in
         let run :=
           computeScoresForEmployee now month employeeId
             (SupervisorRoute.rm_area roster)
             (submitted body (SupervisorRoute.scoring st)) in
         let assignments :=
           <[ (month, employeeId) :=
                {| SupervisorRoute.sa_evaluator_email :=
                     SupervisorRoute.sa_evaluator_email assignment;
                   SupervisorRoute.sa_status := SupervisorRoute.Completed |} ]>
             (SupervisorRoute.supervisor_assignments st) in
         (rejected_score (fst run) = None
          /\ SupervisorRoute.POST_request toLowerCase now session request st
             = (SupervisorRoute.Success month employeeId
                  (supervisorScore (fst run)) (finalScore (fst run)),
                {| SupervisorRoute.scoring := snd run;
                   SupervisorRoute.roster_monthly := SupervisorRoute.roster_monthly st;
                   SupervisorRoute.supervisor_assignments := assignments |}))
         \/
         (exists value,
             rejected_score (fst run) = Some value
             /\ SupervisorRoute.POST_request toLowerCase now session request st
                = (SupervisorRoute.Failure 400
                     (SupervisorRoute.InvalidIntegerMessage value),
                   {| SupervisorRoute.scoring :=
                        submitted body (SupervisorRoute.scoring st);
                      SupervisorRoute.roster_monthly := SupervisorRoute.roster_monthly st;
                      SupervisorRoute.supervisor_assignments := assignments |}))).
Proof.
  unfold SupervisorRoute.POST_request.
  destruct session as [user |];
    [| left; split; [apply catch_handler_failure |]; split; [reflexivity |];
       intros (? & _ & ? & ? & ? & [=] & _)].
  destruct (Authorization.canSubmitSupervisor user) eqn:Hcan; simpl;
    [| left; split;
       [eexists _, _; split; [reflexivity | left; eexists; reflexivity] |];
       split; [reflexivity |];
       intros (? & _ & ? & ? & ? & [= <-] & ? & _); congruence].
  destruct request as [message | issue | body].
  { left. split; [apply catch_handler_failure |]. split; [reflexivity |].
    intros (? & [=] & _). }
  { left. split; [eexists _, _; split; [reflexivity | left; eexists; reflexivity] |].
    split; [reflexivity |]. intros (? & [=] & _). }
  destruct (SupervisorRoute.parse body) as [issue | parsed] eqn:Hparse.
  { left. split; [eexists _, _; split; [reflexivity | apply (parse_issue body), Hparse] |].
    split; [reflexivity |].
    intros (? & [= <-] & ? & ? & ? & _ & _ & ? & _). congruence. }
  apply parse_valid in Hparse as Hsame. subst parsed.
  set (month := SupervisorRoute.body_month body).
  set (employeeId := SupervisorRoute.body_employeeId body).
  unfold SupervisorRoute.transaction.
  destruct (List.find _ (SupervisorRoute.roster_monthly st)) as [roster |] eqn:Hroster;
    [| left; split; [apply catch_handler_failure |]; split; [reflexivity |];
       intros (? & [= <-] & ? & ? & ? & _ & _ & _ & Hfind & _);
       fold month employeeId in Hfind; congruence].
  destruct (SupervisorRoute.supervisor_assignments st !! (month, employeeId))
    as [assignment |] eqn:Hassign;
    [| left; split; [apply catch_handler_failure |]; split; [reflexivity |];
       intros (? & [= <-] & ? & ? & ? & _ & _ & _ & _ & Hlook & _);
       fold month employeeId in Hlook; congruence].
  destruct (String.eqb_spec
              (toLowerCase (SupervisorRoute.sa_evaluator_email assignment))
              (toLowerCase (Authorization.email user))) as [Hemail | Hemail]; simpl;
    [| left; split; [apply catch_handler_failure |]; split; [reflexivity |];
       intros (? & [= <-] & u & ? & a & [= <-] & _ & _ & _ & Hlook & Hmatch & _);
       fold month employeeId in Hlook; congruence].
  destruct (SupervisorRoute.sa_status assignment) eqn:Hstatus;
    [| left; split; [apply catch_handler_failure |]; split; [reflexivity |];
       intros (? & [= <-] & ? & ? & a & _ & _ & _ & _ & Hlook & _ & Hst & _);
       fold month employeeId in Hlook; congruence].
  destruct (List.existsb (SupervisorRoute.same_supervisor_row month employeeId)
              (submissions_raw (SupervisorRoute.scoring st))) eqn:Hdup;
    [left; split; [apply catch_handler_failure |]; split; [reflexivity |];
     intros (? & [= <-] & ? & ? & ? & _ & _ & _ & _ & _ & _ & _ & Hnone);
     fold month employeeId in Hnone; congruence |].
  right. exists body, user, roster, assignment.
  repeat (split; [first [reflexivity | assumption] |]).
  cbv zeta. rewrite payload_eta. simpl.
  fold month employeeId. change (mkStore _ _ _) with (submitted body (SupervisorRoute.scoring st)).
  destruct (computeScoresForEmployee now month employeeId
              (SupervisorRoute.rm_area roster) _) as [scores db'] eqn:Hrun.
  unfold SupervisorRoute.upsert_error. simpl.
  rewrite (roster_row_found month employeeId _ roster Hroster).
  destruct (rejected_score scores) as [value |] eqn:Hrejected.
  - right. exists value. split; reflexivity.
  - left. split; reflexivity.
Qed.

(** A success of the handler on a shaped body, with the store it leaves. *)
Lemma POST_success_run (toLowerCase : string -> string) (now : Z)
  (session : option Authorization.UserSession) (body : SupervisorRoute.Body)
  (st : SupervisorRoute.AppStore)
  (month employeeId : string) (supervisorScore finalScore : option Q) :
  fst (SupervisorRoute.POST toLowerCase now session body st)
  = SupervisorRoute.Success month employeeId supervisorScore finalScore ->
  exists roster assignment,
    SupervisorRoute.supervisor_assignments st
      !! (SupervisorRoute.body_month body, SupervisorRoute.body_employeeId body)
    = Some assignment
    /\ let month := SupervisorRoute.body_month body in
       let employeeId := SupervisorRoute.body_employeeId body in
       let run :=
         computeScoresForEmployee now month employeeId
           (SupervisorRoute.rm_area roster)
           (submitted body (SupervisorRoute.scoring st)) in
       SupervisorRoute.POST toLowerCase now session body st
       = (SupervisorRoute.Success month employeeId
            (Engine.supervisorScore (fst run)) (Engine.finalScore (fst run)),
          {| SupervisorRoute.scoring := snd run;
             SupervisorRoute.roster_monthly := SupervisorRoute.roster_monthly st;
             SupervisorRoute.supervisor_assignments :=
               <[ (month, employeeId) :=
                    {| SupervisorRoute.sa_evaluator_email :=
                         SupervisorRoute.sa_evaluator_email assignment;
                       SupervisorRoute.sa_status := SupervisorRoute.Completed |} ]>
                 (SupervisorRoute.supervisor_assignments st) |}).
Proof.
  unfold SupervisorRoute.POST. intros Hok.
  destruct (POST_request_outcomes toLowerCase now session
              (SupervisorRoute.Shaped body) st)
    as [((status & error & Hfail & _) & _ & _)
       | (body' & user & roster & assignment & [= <-] & _ & _ & _ & _ & Hassign
          & _ & _ & _ & Hpost)];
    [congruence |].
  cbv zeta in Hpost.
  destruct Hpost as [[_ Hpost] | (value & _ & Hpost)];
    [| rewrite Hpost in Hok; discriminate].
  exists roster, assignment. split; [exact Hassign | exact Hpost].
Qed.

Lemma computeScoresForEmployee_result_fixed (now now' : Z)
  (month employeeId area area' : string) (db : Store) :
  fst (computeScoresForEmployee now month employeeId area db)
  = fst (computeScoresForEmployee now' month employeeId area' db).
Proof. rewrite !computeScoresForEmployee_result. reflexivity. Qed.

(** X21: the supervisor route answers with success exactly when the body of
    the request is JSON of the shape of the schema, the request is accepted
    (the session may submit supervisor evaluations, the body passes the
    schema, the employee has an active roster row for the month, the
    assignment of the employee and month is open and names the user of the
    session as evaluator, letter case aside, and no supervisor submission is
    stored yet) and the scores computed after the submission fit the INTEGER
    columns of [scores_computed]. Every other request gets a failure. *)
Theorem POST_success_iff_accepted (toLowerCase : string -> string) (now : Z)
  (session : option Authorization.UserSession)
  (request : SupervisorRoute.RequestBody) (st : SupervisorRoute.AppStore) :
  ((exists month employeeId supervisorScore finalScore,
       fst (SupervisorRoute.POST_request toLowerCase now session request st)
       = SupervisorRoute.Success month employeeId supervisorScore finalScore)
   <-> exists body,
         request = SupervisorRoute.Shaped body
         /\ accepted toLowerCase session body st /\ storable body st)
  /\ (is_failure (fst (SupervisorRoute.POST_request toLowerCase now session request st))
      <-> ~ exists body,
              request = SupervisorRoute.Shaped body
              /\ accepted toLowerCase session body st /\ storable body st).
Proof.
  destruct (POST_request_outcomes toLowerCase now session request st)
    as [(Hfail & _ & Hnot)
       | (body & user & roster & assignment & Hreq & Hsess & Hcan & Hparse & Hroster
          & Hassign & Hemail & Hstatus & Hdup & Hpost)].
  - pose proof (handler_failure_is_failure _ Hfail) as [status [error Hf]].
    assert (Hno : ~ exists body,
              request = SupervisorRoute.Shaped body
              /\ accepted toLowerCase session body st /\ storable body st).
    { intros (body & Hreq & Hacc & _). apply Hnot. exists body. split; assumption. }
    split; split.
    + intros (m & e & s & f & Hok). congruence.
    + intros Hyes. contradiction.
    + intros _. exact Hno.
    + intros _. eexists _, _. exact Hf.
  - assert (Hacc : accepted toLowerCase session body st).
    { exists user, roster, assignment. repeat (split; [assumption |]). assumption. }
    cbv zeta in Hpost. destruct Hpost as [[Hnone Hpost] | (value & Hsome & Hpost)].
    + assert (Hyes : exists body,
                request = SupervisorRoute.Shaped body
                /\ accepted toLowerCase session body st /\ storable body st).
      { exists body. split; [exact Hreq |]. split; [exact Hacc |].
        intros now' area'.
        rewrite (computeScoresForEmployee_result_fixed now' now _ _ area'
                   (SupervisorRoute.rm_area roster)).
        exact Hnone. }
      split; split.
      * intros _. exact Hyes.
      * intros _. rewrite Hpost. simpl. eexists _, _, _, _. reflexivity.
      * intros [status [error Hf]]. rewrite Hpost in Hf. discriminate.
      * intros Hno. contradiction.
    + assert (Hno : ~ exists body,
                request = SupervisorRoute.Shaped body
                /\ accepted toLowerCase session body st /\ storable body st).
      { intros (body' & Hreq' & _ & Hstor). rewrite Hreq in Hreq'.
        injection Hreq' as <-.
        specialize (Hstor now (SupervisorRoute.rm_area roster)). congruence. }
      split; split.
      * intros (m & e & s & f & Hok). rewrite Hpost in Hok. discriminate.
      * intros Hyes. contradiction.
      * intros _. exact Hno.
      * intros _. rewrite Hpost. eexists _, _. reflexivity.
Qed.

(** X21 on the house manager's submission, whose score 72 the database
    takes, and on the same submission under a rubric with half points,
    whose score 72.5 it rejects. *)
Lemma POST_success_iff_accepted_witness :
  (exists body,
      SupervisorRoute.Shaped valid_body = SupervisorRoute.Shaped body
      /\ accepted keep_case (Some house_manager) body open_assignment
      /\ storable body open_assignment)
  /\ is_failure
       (fst (SupervisorRoute.POST_request keep_case 5 (Some house_manager)
               (SupervisorRoute.Shaped valid_body) half_point_assignment)).
Proof.
  split.
  - apply (proj1 (POST_success_iff_accepted keep_case 5 (Some house_manager)
                    (SupervisorRoute.Shaped valid_body) open_assignment)).
    exists "2025-03", "E1", (Some 72), None. vm_compute. reflexivity.
  - apply (proj2 (POST_success_iff_accepted keep_case 5 (Some house_manager)
                    (SupervisorRoute.Shaped valid_body) half_point_assignment)).
    intros (body & [= <-] & _ & Hstor).
    specialize (Hstor 5%Z "Price"). vm_compute in Hstor. discriminate Hstor.
Defined.

(** X22: what a failure of the supervisor route leaves behind. A failure
    whose message is not the database's about a value for an INTEGER column,
    and so every failure with a status other than 400, changes nothing in
    the store. A failure with that message has the status 400 and comes
    after the transaction: the request was accepted, the submission is
    stored and the assignment completed, and no scores are stored for it. *)
Theorem POST_failure_effects (toLowerCase : string -> string) (now : Z)
  (session : option Authorization.UserSession)
  (request : SupervisorRoute.RequestBody) (st : SupervisorRoute.AppStore)
  (status : nat) (error : SupervisorRoute.ErrorMessage) :
  fst (SupervisorRoute.POST_request toLowerCase now session request st)
  = SupervisorRoute.Failure status error ->
  let st' := snd (SupervisorRoute.POST_request toLowerCase now session request st) in
  ((forall value, error <> SupervisorRoute.InvalidIntegerMessage value) -> st' = st)
  /\ (status <> 400%nat -> st' = st)
  /\ (forall value,
         error = SupervisorRoute.InvalidIntegerMessage value ->
         status = 400%nat
         /\ exists body,
              request = SupervisorRoute.Shaped body
              /\ accepted toLowerCase session body st
              /\ ~ storable body st
              /\ committed body st st').
Proof.
  intros Hfail st'. subst st'.
  destruct (POST_request_outcomes toLowerCase now session request st)
    as [((status' & error' & Hf & Hkind) & Hsame & _)
       | (body & user & roster & assignment & Hreq & Hsess & Hcan & Hparse & Hroster
          & Hassign & Hemail & Hstatus & Hdup & Hpost)].
  - rewrite Hfail in Hf. injection Hf as <- <-.
    split; [intros _; exact Hsame |]. split; [intros _; exact Hsame |].
    intros value ->. destruct Hkind as [[text [=]] | [=]].
  - cbv zeta in Hpost. destruct Hpost as [[_ Hpost] | (value & Hsome & Hpost)];
      [rewrite Hpost in Hfail; discriminate |].
    rewrite Hpost in Hfail |- *. simpl in Hfail |- *.
    injection Hfail as <- <-.
    split; [intros Hnot; exfalso; apply (Hnot value); reflexivity |].
    split; [intros Hnot; exfalso; apply Hnot; reflexivity |].
    intros value' _. split; [reflexivity |].
    exists body. split; [exact Hreq |]. split.
    { exists user, roster, assignment. repeat (split; [assumption |]). assumption. }
    split.
    { intros Hstor. specialize (Hstor now (SupervisorRoute.rm_area roster)).
      congruence. }
    split; [reflexivity |]. split; [reflexivity |].
    exists assignment. split; [exact Hassign | reflexivity].
Qed.

(** X22 on the house manager's submission under the rubric with half
    points: the answer is 400, and the submission is stored. *)
Lemma POST_failure_effects_witness :
  committed valid_body half_point_assignment
    (snd (SupervisorRoute.POST_request keep_case 5 (Some house_manager)
            (SupervisorRoute.Shaped valid_body) half_point_assignment)).
Proof.
  assert (Hfail :
    fst (SupervisorRoute.POST_request keep_case 5 (Some house_manager)
           (SupervisorRoute.Shaped valid_body) half_point_assignment)
    = SupervisorRoute.Failure 400 (SupervisorRoute.InvalidIntegerMessage (145 # 2))).
  { vm_compute. reflexivity. }
  destruct (POST_failure_effects keep_case 5 (Some house_manager)
              (SupervisorRoute.Shaped valid_body) half_point_assignment 400
              (SupervisorRoute.InvalidIntegerMessage (145 # 2)) Hfail)
    as (_ & _ & Hint).
  destruct (Hint (145 # 2) eq_refl) as (_ & body & [= <-] & _ & _ & Hcommitted).
  exact Hcommitted.
Defined.

Lemma select_submissions_appended (month employeeId : string)
  (rubrics : list RubricVersionsRecord) (table : list SubmissionsRawRecord)
  (scores : gmap (string * string) ScoresComputedRecord) (s : SubmissionRow) :
  select_submissions month employeeId
    {| rubric_versions := rubrics;
       submissions_raw :=
         (table ++ [ {| sr_month := month; sr_employee_id := employeeId;
                        sr_submission := s |} ])%list;
       scores_computed := scores |}
  = (select_submissions month employeeId
       {| rubric_versions := rubrics; submissions_raw := table;
          scores_computed := scores |} ++ [s])%list.
Proof.
  unfold select_submissions. simpl.
  rewrite List.filter_app, List.map_app. simpl.
  rewrite !String.eqb_refl. reflexivity.
Qed.

Lemma last_supervisor_appended (rows : list SubmissionRow)
  (p : SupervisorSubmissionPayload) :
  last_supervisor (rows ++ [SupervisorSubmission p]) = Some p.
Proof. unfold last_supervisor. rewrite List.fold_left_app. reflexivity. Qed.

(** X23: a successful supervisor submission stores the ratings as one new
    supervisor row, closes the assignment, leaves the roster and the rubric
    versions as they are, and answers with the month and employee of the
    body and with the supervisor score of the submitted ratings under the
    rubric of the month, which is never null. *)
Theorem POST_success_effects (toLowerCase : string -> string) (now : Z)
  (session : option Authorization.UserSession) (body : SupervisorRoute.Body)
  (st : SupervisorRoute.AppStore)
  (month employeeId : string) (supervisorScore finalScore : option Q) :
  fst (SupervisorRoute.POST toLowerCase now session body st)
  = SupervisorRoute.Success month employeeId supervisorScore finalScore ->
  let st' := snd (SupervisorRoute.POST toLowerCase now session body st) in
  month = SupervisorRoute.body_month body
  /\ employeeId = SupervisorRoute.body_employeeId body
  /\ supervisorScore
     = Some (score (calculateSupervisorScore (SupervisorRoute.body_ratings body)
                      (snd (getRubricForMonth month (SupervisorRoute.scoring st)))))
  /\ submissions_raw (SupervisorRoute.scoring st')
     = (submissions_raw (SupervisorRoute.scoring st)
        ++ [ {| sr_month := month; sr_employee_id := employeeId;
                sr_submission :=
                  SupervisorSubmission (SupervisorRoute.body_ratings body) |} ])%list
  /\ (exists assignment,
         SupervisorRoute.supervisor_assignments st' !! (month, employeeId)
         = Some assignment
         /\ SupervisorRoute.sa_status assignment = SupervisorRoute.Completed)
  /\ SupervisorRoute.roster_monthly st' = SupervisorRoute.roster_monthly st
  /\ rubric_versions (SupervisorRoute.scoring st')
     = rubric_versions (SupervisorRoute.scoring st).
Proof.
  intros Hok st'. subst st'.
  destruct (POST_success_run _ _ _ _ _ _ _ _ _ Hok)
    as (roster & assignment & _ & Hpost).
  cbv zeta in Hpost. rewrite Hpost in Hok |- *. simpl in Hok |- *.
  injection Hok as <- <- <- <-.
  set (m := SupervisorRoute.body_month body).
  set (e := SupervisorRoute.body_employeeId body).
  set (db := submitted body (SupervisorRoute.scoring st)).
  destruct (computeScoresForEmployee_reads_kept now m e
              (SupervisorRoute.rm_area roster) db) as [Hrubrics Hsubs].
  split; [reflexivity |]. split; [reflexivity |]. split.
  - rewrite computeScoresForEmployee_result. simpl.
    rewrite score_submissions_last. simpl.
    subst db. unfold submitted. fold m e.
    rewrite select_submissions_appended, last_supervisor_appended. simpl.
    rewrite (getRubricForMonth_reads m _ (SupervisorRoute.scoring st)) by reflexivity.
    reflexivity.
  - split; [rewrite Hsubs; reflexivity |].
    split; [eexists; split; [apply lookup_insert_eq | reflexivity] |].
    split; [reflexivity | rewrite Hrubrics; reflexivity].
Qed.


(** X23 on the house manager's submission: the score is 72 and the
    assignment is closed. *)
Lemma POST_success_effects_witness :
  Some 72
  = Some (score (calculateSupervisorScore (SupervisorRoute.body_ratings valid_body)
                   (snd (getRubricForMonth "2025-03"
                           (SupervisorRoute.scoring open_assignment)))))
  /\ exists assignment,
       SupervisorRoute.supervisor_assignments
         (snd (SupervisorRoute.POST keep_case 5 (Some house_manager) valid_body
                 open_assignment))
         !! ("2025-03", "E1") = Some assignment
       /\ SupervisorRoute.sa_status assignment = SupervisorRoute.Completed.
Proof.
  destruct (POST_success_effects keep_case 5 (Some house_manager) valid_body
              open_assignment "2025-03" "E1" (Some 72) None eq_refl)
    as (_ & _ & Hscore & _ & Hclosed & _).
  split; [exact Hscore | exact Hclosed].
Defined.


Lemma catch_conflict (message : string) :
  (exists error, SupervisorRoute.catch message = SupervisorRoute.Failure 409 error)
  <-> message <> "Unauthorized"
      /\ (SupervisorRoute.includes message "unique constraint"
          || SupervisorRoute.includes message "duplicate") = true.
Proof.
  unfold SupervisorRoute.catch.
  destruct (String.eqb_spec message "Unauthorized") as [Heq | Hne].
  - split; [intros [? [=]] | intros [Hne _]; contradiction].
  - destruct (_ || _).
    + split; [intros _; split; [exact Hne | reflexivity] | intros _; eexists; reflexivity].
    + split; [intros [? [=]] | intros [_ [=]]].
Qed.

(** X25: the supervisor route answers 409 in two situations, and in no
    other. One: the session, the body, the roster row and the open
    assignment all pass and a supervisor submission for the employee and
    month is stored already, so that the INSERT breaks the UNIQUE
    constraint. Two: the session may submit, the body of the request is no
    JSON, and the message of the error of [request.json()] holds 'unique
    constraint' or 'duplicate' (and is not 'Unauthorized'). *)
Theorem POST_conflict_iff (toLowerCase : string -> string) (now : Z)
  (session : option Authorization.UserSession)
  (request : SupervisorRoute.RequestBody) (st : SupervisorRoute.AppStore) :
  (exists error,
      fst (SupervisorRoute.POST_request toLowerCase now session request st)
      = SupervisorRoute.Failure 409 error)
  <-> (exists body,
          request = SupervisorRoute.Shaped body
          /\ resubmitted toLowerCase session body st)
      \/ (exists message,
             request = SupervisorRoute.NotJSON message
             /\ conflict_worded session message).
Proof.
  unfold SupervisorRoute.POST_request, resubmitted, conflict_worded.
  destruct session as [user |].
  2: { split; [intros [? [=]] |].
       intros [(? & _ & ? & ? & ? & [=] & _) | (? & _ & (? & [=] & _) & _)]. }
  destruct (Authorization.canSubmitSupervisor user) eqn:Hcan; simpl.
  2: { split; [intros [? [=]] |].
       intros [(? & _ & ? & ? & ? & [= <-] & ? & _) | (? & _ & (? & [= <-] & ?) & _)];
         congruence. }
  destruct request as [message | issue | body].
  { cbn [fst]. rewrite catch_conflict. split.
    - intros [Hne Hinc]. right. exists message. split; [reflexivity |].
      split; [exists user; split; [reflexivity | exact Hcan] |].
      split; assumption.
    - intros [(? & [=] & _) | (? & [= <-] & _ & Hne & Hinc)]. split; assumption. }
  { split; [intros [? [=]] |].
    intros [(? & [=] & _) | (? & [=] & _)]. }
  assert (Hshaped :
    ((exists body0,
         SupervisorRoute.Shaped body = SupervisorRoute.Shaped body0
         /\ exists user0 roster assignment,
              Some user = Some user0
              /\ Authorization.canSubmitSupervisor user0 = true
              /\ SupervisorRoute.parse body0 = inr body0
              /\ List.find
                   (fun r =>
                      String.eqb (SupervisorRoute.rm_month r)
                        (SupervisorRoute.body_month body0)
                      && String.eqb (SupervisorRoute.rm_employee_id r)
                           (SupervisorRoute.body_employeeId body0)
                      && SupervisorRoute.rm_is_active r)
                   (SupervisorRoute.roster_monthly st) = Some roster
              /\ SupervisorRoute.supervisor_assignments st
                   !! (SupervisorRoute.body_month body0,
                       SupervisorRoute.body_employeeId body0)
                 = Some assignment
              /\ toLowerCase (SupervisorRoute.sa_evaluator_email assignment)
                 = toLowerCase (Authorization.email user0)
              /\ SupervisorRoute.sa_status assignment = SupervisorRoute.Assigned
              /\ List.existsb
                   (SupervisorRoute.same_supervisor_row
                      (SupervisorRoute.body_month body0)
                      (SupervisorRoute.body_employeeId body0))
                   (submissions_raw (SupervisorRoute.scoring st)) = true)
     \/ (exists message,
            SupervisorRoute.Shaped body = SupervisorRoute.NotJSON message
            /\ (exists user0,
                   Some user = Some user0
                   /\ Authorization.canSubmitSupervisor user0 = true)
               /\ message <> "Unauthorized"
               /\ (SupervisorRoute.includes message "unique constraint"
                   || SupervisorRoute.includes message "duplicate") = true))
    <-> exists roster assignment,
          SupervisorRoute.parse body = inr body
          /\ List.find
               (fun r =>
                  String.eqb (SupervisorRoute.rm_month r)
                    (SupervisorRoute.body_month body)
                  && String.eqb (SupervisorRoute.rm_employee_id r)
                       (SupervisorRoute.body_employeeId body)
                  && SupervisorRoute.rm_is_active r)
               (SupervisorRoute.roster_monthly st) = Some roster
          /\ SupervisorRoute.supervisor_assignments st
               !! (SupervisorRoute.body_month body,
                   SupervisorRoute.body_employeeId body)
             = Some assignment
          /\ toLowerCase (SupervisorRoute.sa_evaluator_email assignment)
             = toLowerCase (Authorization.email user)
          /\ SupervisorRoute.sa_status assignment = SupervisorRoute.Assigned
          /\ List.existsb
               (SupervisorRoute.same_supervisor_row
                  (SupervisorRoute.body_month body)
                  (SupervisorRoute.body_employeeId body))
               (submissions_raw (SupervisorRoute.scoring st)) = true).
  { split.
    - intros [(body0 & [= <-] & user0 & roster & assignment & [= <-] & _ & H)
             | (? & [=] & _)].
      exists roster, assignment. exact H.
    - intros (roster & assignment & H). left. exists body. split; [reflexivity |].
      exists user, roster, assignment. split; [reflexivity |].
      split; [exact Hcan | exact H]. }
  rewrite Hshaped. clear Hshaped.
  destruct (SupervisorRoute.parse body) as [issue | parsed] eqn:Hparse;
    [split; [intros [? [=]] | intros (? & ? & ? & _); congruence] |].
  apply parse_valid in Hparse as Hsame. subst parsed.
  unfold SupervisorRoute.transaction.
  destruct (List.find _ (SupervisorRoute.roster_monthly st)) as [roster |] eqn:Hroster;
    [| split; [intros [? [=]] | intros (? & ? & _ & ? & _); congruence]].
  destruct (SupervisorRoute.supervisor_assignments st !! _) as [assignment |] eqn:Hassign;
    [| split; [intros [? [=]] | intros (? & ? & _ & _ & ? & _); congruence]].
  destruct (String.eqb_spec
              (toLowerCase (SupervisorRoute.sa_evaluator_email assignment))
              (toLowerCase (Authorization.email user))) as [Hemail | Hemail]; simpl;
    [| split; [intros [? [=]]
              | intros (? & ? & _ & _ & [= <-] & ? & _); congruence]].
  destruct (SupervisorRoute.sa_status assignment) eqn:Hstatus;
    [| split; [intros [? [=]]
              | intros (? & ? & _ & _ & [= <-] & _ & ? & _); congruence]].
  destruct (List.existsb _ (submissions_raw (SupervisorRoute.scoring st))) eqn:Hdup.
  - split; [intros _ | intros _; eexists; reflexivity].
    exists roster, assignment.
    repeat (split; [first [reflexivity | assumption] |]). reflexivity.
  - split.
    + destruct (computeScoresForEmployee _ _ _ _ _).
      destruct (SupervisorRoute.upsert_error _ _ _ _); intros [? [=]].
    + intros (? & ? & _ & _ & _ & _ & _ & ?); congruence.
Qed.

(** X25 on a second submission of the house manager, and on a request
    whose body is the word duplicate. *)
Lemma POST_conflict_iff_witness :
  (exists error,
      fst (SupervisorRoute.POST_request keep_case 5 (Some house_manager)
             (SupervisorRoute.Shaped valid_body) already_submitted)
      = SupervisorRoute.Failure 409 error)
  /\ (exists error,
         fst (SupervisorRoute.POST_request keep_case 5 (Some house_manager)
                (SupervisorRoute.NotJSON not_json_message) open_assignment)
         = SupervisorRoute.Failure 409 error).
Proof.
  split; apply POST_conflict_iff.
  - left. exists valid_body. split; [reflexivity |].
    exists house_manager,
      (SupervisorRoute.mkRosterMonthlyRecord "2025-03" "E1" "Price" true),
      (SupervisorRoute.mkSupervisorAssignmentsRecord "jo.hm@example.org"
         SupervisorRoute.Assigned).
    repeat split.
  - right. exists not_json_message. split; [reflexivity |].
    split; [exists house_manager; split; reflexivity |].
    split; [discriminate | reflexivity].
Defined.

Lemma has_submission_appended (is_role : SubmissionRow -> bool)
  (month employeeId : string) (rubrics : list RubricVersionsRecord)
  (table : list SubmissionsRawRecord)
  (scores : gmap (string * string) ScoresComputedRecord) (s : SubmissionRow) :
  Dashboard.has_submission is_role month employeeId
    {| rubric_versions := rubrics;
       submissions_raw :=
         (table ++ [ {| sr_month := month; sr_employee_id := employeeId;
                        sr_submission := s |} ])%list;
       scores_computed := scores |}
  = Dashboard.has_submission is_role month employeeId
      {| rubric_versions := rubrics; submissions_raw := table;
         scores_computed := scores |}
    || is_role s.
Proof.
  rewrite !has_submission_select, select_submissions_appended.
  rewrite List.existsb_app. simpl. rewrite orb_false_r. reflexivity.
Qed.

(** X26: the response to a successful supervisor submission carries a final
    score exactly when the admin and the recruiter submission of the
    employee and month were stored before it: the supervisor submission
    then completes the three. *)
Theorem POST_final_score_when_complete (toLowerCase : string -> string) (now : Z)
  (session : option Authorization.UserSession) (body : SupervisorRoute.Body)
  (st : SupervisorRoute.AppStore)
  (month employeeId : string) (supervisorScore finalScore : option Q) :
  fst (SupervisorRoute.POST toLowerCase now session body st)
  = SupervisorRoute.Success month employeeId supervisorScore finalScore ->
  (is_Some finalScore
   <-> Dashboard.has_submission Dashboard.is_admin month employeeId
         (SupervisorRoute.scoring st) = true
       /\ Dashboard.has_submission Dashboard.is_recruiter month employeeId
            (SupervisorRoute.scoring st) = true).
Proof.
  intros Hok.
  destruct (POST_success_run _ _ _ _ _ _ _ _ _ Hok)
    as (roster & assignment & _ & Hpost).
  cbv zeta in Hpost. rewrite Hpost in Hok. simpl in Hok.
  injection Hok as <- <- <- <-.
  set (m := SupervisorRoute.body_month body).
  set (e := SupervisorRoute.body_employeeId body).
  set (db := submitted body (SupervisorRoute.scoring st)).
  destruct (category_scores_present now m e (SupervisorRoute.rm_area roster) db)
    as (Ha & Hs & Hr).
  assert (Hfinal :
    is_Some (finalScore (fst (computeScoresForEmployee now m e
                                (SupervisorRoute.rm_area roster) db)))
    <-> is_Some (adminScore (fst (computeScoresForEmployee now m e
                                    (SupervisorRoute.rm_area roster) db)))
        /\ is_Some (supervisorScore (fst (computeScoresForEmployee now m e
                                            (SupervisorRoute.rm_area roster) db)))
        /\ is_Some (recruiterScore (fst (computeScoresForEmployee now m e
                                           (SupervisorRoute.rm_area roster) db)))).
  { rewrite computeScoresForEmployee_result. simpl. apply final_score_present. }
  rewrite Hfinal, Ha, Hs, Hr. subst db. unfold submitted. fold m e.
  rewrite !has_submission_appended. simpl. rewrite !orb_false_r, orb_true_r.
  destruct (SupervisorRoute.scoring st) as [rubrics table scores]. simpl.
  tauto.
Qed.

(** X26 on the house manager's submission: no admin row is stored, so the
    response has no final score. *)
Lemma POST_final_score_when_complete_witness :
  is_Some (@None Q)
  <-> Dashboard.has_submission Dashboard.is_admin "2025-03" "E1"
        (SupervisorRoute.scoring open_assignment) = true
      /\ Dashboard.has_submission Dashboard.is_recruiter "2025-03" "E1"
           (SupervisorRoute.scoring open_assignment) = true.
Proof.
  apply (POST_final_score_when_complete keep_case 5 (Some house_manager) valid_body
           open_assignment "2025-03" "E1" (Some 72) None eq_refl).
Defined.
